(** * Word-search generator (basic.go): shallow embedding and properties

    The development follows the Go source function by function.
    - Go [int] is a 64-bit two's-complement integer: arithmetic on it is
      written with an explicit wrap-around ([GoInt]).
    - A Go [string] is an immutable sequence of bytes: it is a Rocq
      [string]; [for i, r := range s] decodes UTF-8 ([rangeString]) and
      [string(r)] encodes it ([encodeRune]).
    - [[gridSize][gridSize]rune] is a list of rows; an index outside
      [0, gridSize) is a run-time panic, modelled by [None].
    - [math/rand] is a scripted source of raw draws; [fmt.Printf] appends
      an event to the output log.
    - The outside world of [main] is given as arguments: the [-vocab]
      flag, what opening and scanning a file yields, and whether
      [os.Create] and [png.Encode] succeed.  The image that [main]
      writes is the record of what is drawn on it; the drawing functions
      are modelled by the [DrawString] calls they make, with their dots
      in 26.6 fixed point. *)

From Stdlib Require Import ZArith Lia Bool Ascii String List.
From stdpp Require Import base option list.
From Equations Require Import Equations.
From Equations.Prop Require Import Logic.

Local Open Scope Z_scope.

(** ** Go [int]: 64-bit signed arithmetic *)

Module GoInt.

Definition min_int : Z := - 2 ^ 63.
Definition max_int : Z := 2 ^ 63 - 1.

Definition wrap (z : Z) : Z := (z + 2 ^ 63) `mod` 2 ^ 64 - 2 ^ 63.

Definition add (a b : Z) : Z := wrap (a + b).
Definition sub (a b : Z) : Z := wrap (a - b).
Definition mul (a b : Z) : Z := wrap (a * b).

Definition in_range (z : Z) : Prop := min_int <= z <= max_int.

End GoInt.

(** ** Strings, runes and UTF-8 *)

Abbreviation rune := Z (only parsing).

Definition byte_of_ascii (a : ascii) : Z := Z.of_nat (nat_of_ascii a).

(** The bytes of a string, [s[0]], [s[1]], ... *)
Definition bytes_of (s : string) : list Z :=
  map byte_of_ascii (list_ascii_of_string s).

Definition string_of_bytes (bs : list Z) : string :=
  string_of_list_ascii (map (fun b => ascii_of_nat (Z.to_nat b)) bs).

(** [len(s)]: the number of bytes. *)
Definition len (s : string) : Z := Z.of_nat (String.length s).

(** A Go string has an [int] length. *)
Definition go_string (s : string) : Prop := len s <= GoInt.max_int.

Definition RuneError : rune := 65533.   (* U+FFFD *)
Definition MaxRune : rune := 1114111.   (* U+10FFFF *)

Definition is_cont (b : Z) : bool := (128 <=? b) && (b <=? 191).

(** One step of UTF-8 decoding at the head of a non-empty byte sequence
    (Go specification, "For statements with range clause"): the code
    point and the number of bytes it takes; an invalid or truncated
    sequence gives [RuneError] and width 1. *)
Definition decodeRune (bs : list Z) : rune * nat :=
  match bs with
  | [] => (RuneError, 1%nat)
  | b0 :: t =>
    if b0 <? 128 then (b0, 1%nat)
    else if (192 <=? b0) && (b0 <? 224) then
      match t with
      | b1 :: _ =>
        let r := Z.lor (Z.shiftl (Z.land b0 31) 6) (Z.land b1 63) in
        if is_cont b1 && (127 <? r) then (r, 2%nat) else (RuneError, 1%nat)
      | _ => (RuneError, 1%nat)
      end
    else if (224 <=? b0) && (b0 <? 240) then
      match t with
      | b1 :: b2 :: _ =>
        let r := Z.lor (Z.lor (Z.shiftl (Z.land b0 15) 12)
                              (Z.shiftl (Z.land b1 63) 6))
                       (Z.land b2 63) in
        if is_cont b1 && is_cont b2 && (2047 <? r)
           && negb ((55296 <=? r) && (r <=? 57343))
        then (r, 3%nat) else (RuneError, 1%nat)
      | _ => (RuneError, 1%nat)
      end
    else if (240 <=? b0) && (b0 <? 248) then
      match t with
      | b1 :: b2 :: b3 :: _ =>
        let r := Z.lor (Z.lor (Z.lor (Z.shiftl (Z.land b0 7) 18)
                                     (Z.shiftl (Z.land b1 63) 12))
                              (Z.shiftl (Z.land b2 63) 6))
                       (Z.land b3 63) in
        if is_cont b1 && is_cont b2 && is_cont b3
           && (65535 <? r) && (r <=? MaxRune)
        then (r, 4%nat) else (RuneError, 1%nat)
      | _ => (RuneError, 1%nat)
      end
    else (RuneError, 1%nat)
  end.

(** [for i, r := range s]: the pairs (byte index of the code point's
    first byte, code point), in order.  [skip] counts the bytes that
    still belong to the code point decoded last. *)
Fixpoint rangeFrom (i : Z) (skip : nat) (bs : list Z) : list (Z * rune) :=
  match bs with
  | [] => []
  | b :: rest =>
    match skip with
    | S k => rangeFrom (i + 1) k rest
    | O =>
      let '(r, w) := decodeRune (b :: rest) in
      (i, r) :: rangeFrom (i + 1) (Nat.pred w) rest
    end
  end.

Definition rangeString (s : string) : list (Z * rune) :=
  rangeFrom 0 0 (bytes_of s).

(** [string(r)] for a rune [r]: its UTF-8 encoding; a value that is
    not a valid code point is encoded as U+FFFD. *)
Definition encodeRune (r : rune) : list Z :=
  if (0 <=? r) && (r <=? 127) then [r]
  else if (0 <=? r) && (r <=? 2047) then
    [Z.lor 192 (Z.shiftr r 6); Z.lor 128 (Z.land r 63)]
  else if (r <? 0) || (MaxRune <? r) || ((55296 <=? r) && (r <=? 57343)) then
    [239; 191; 189]
  else if r <=? 65535 then
    [Z.lor 224 (Z.shiftr r 12);
     Z.lor 128 (Z.land (Z.shiftr r 6) 63);
     Z.lor 128 (Z.land r 63)]
  else
    [Z.lor 240 (Z.shiftr r 18);
     Z.lor 128 (Z.land (Z.shiftr r 12) 63);
     Z.lor 128 (Z.land (Z.shiftr r 6) 63);
     Z.lor 128 (Z.land r 63)].

(** ** Constants and directions *)

Definition gridSize : Z := 10.

Definition RIGHT : Z := 0.
Definition LEFT : Z := 1.
Definition DOWN : Z := 2.
Definition UP : Z := 3.
Definition DOWN_RIGHT : Z := 4.
Definition DOWN_LEFT : Z := 5.
Definition UP_RIGHT : Z := 6.
Definition UP_LEFT : Z := 7.

Record WordPlacement := mkPlacement {
  Word : string;
  Row : Z;
  Col : Z;
  Direction : Z
}.

Definition getDirectionDeltas (direction : Z) : Z * Z :=
  if direction =? RIGHT then (0, 1)
  else if direction =? LEFT then (0, -1)
  else if direction =? DOWN then (1, 0)
  else if direction =? UP then (-1, 0)
  else if direction =? DOWN_RIGHT then (1, 1)
  else if direction =? DOWN_LEFT then (1, -1)
  else if direction =? UP_RIGHT then (-1, 1)
  else if direction =? UP_LEFT then (-1, -1)
  else (0, 1).

(** ** The grid *)

Abbreviation Grid := (list (list Z)) (only parsing).

Definition in_grid (i : Z) : bool := (0 <=? i) && (i <? gridSize).

(** [grid[r][c]]; [None] is the index-out-of-range panic. *)
Definition grid_get (grid : Grid) (r c : Z) : option rune :=
  if in_grid r && in_grid c then
    match grid !! Z.to_nat r with
    | Some line => line !! Z.to_nat c
    | None => None
    end
  else None.

(** [grid[r][c] = v]. *)
Definition grid_set (grid : Grid) (r c : Z) (v : rune) : option Grid :=
  if in_grid r && in_grid c then
    match grid !! Z.to_nat r with
    | Some line =>
      if decide (Z.to_nat c < length line)%nat
      then Some (<[Z.to_nat r := <[Z.to_nat c := v]> line]> grid)
      else None
    | None => None
    end
  else None.

(** The value of [var grid [gridSize][gridSize]rune]. *)
Definition zeroGrid : Grid :=
  replicate (Z.to_nat gridSize) (replicate (Z.to_nat gridSize) 0).

(** A grid value has [gridSize] rows of [gridSize] cells. *)
Definition grid_ok (grid : Grid) : Prop :=
  length grid = Z.to_nat gridSize /\
  Forall (fun line => length line = Z.to_nat gridSize) grid.

(** ** canPlaceWord and placeWord *)

Fixpoint conflictLoop (grid : Grid) (row col dRow dCol : Z)
    (its : list (Z * rune)) : option bool :=
  match its with
  | [] => Some true
  | (i, letter) :: rest =>
    let currentRow := GoInt.add row (GoInt.mul dRow i) in
    let currentCol := GoInt.add col (GoInt.mul dCol i) in
    match grid_get grid currentRow currentCol with
    | None => None
    | Some existingLetter =>
      if negb (existingLetter =? 0) && negb (existingLetter =? letter)
      then Some false
      else conflictLoop grid row col dRow dCol rest
    end
  end.

(** The bounds test of [canPlaceWord]: [true] when the end coordinate is
    off the grid and the function returns [false] at once. *)
Definition endOutOfBounds (wordLen row col direction : Z) : bool :=
  let '(dRow, dCol) := getDirectionDeltas direction in
  let endRow := GoInt.add row (GoInt.mul dRow (GoInt.sub wordLen 1)) in
  let endCol := GoInt.add col (GoInt.mul dCol (GoInt.sub wordLen 1)) in
  (endRow <? 0) || (endRow >=? gridSize)
  || (endCol <? 0) || (endCol >=? gridSize).

Definition canPlaceWord (grid : Grid) (word : string)
    (row col direction : Z) : option bool :=
  let wordLen := len word in
  let '(dRow, dCol) := getDirectionDeltas direction in
  if endOutOfBounds wordLen row col direction then Some false
  else conflictLoop grid row col dRow dCol (rangeString word).

Fixpoint placeLoop (grid : Grid) (row col dRow dCol : Z)
    (its : list (Z * rune)) : option Grid :=
  match its with
  | [] => Some grid
  | (i, letter) :: rest =>
    let currentRow := GoInt.add row (GoInt.mul dRow i) in
    let currentCol := GoInt.add col (GoInt.mul dCol i) in
    match grid_set grid currentRow currentCol letter with
    | None => None
    | Some grid' => placeLoop grid' row col dRow dCol rest
    end
  end.

Definition placeWord (grid : Grid) (word : string)
    (row col direction : Z) : option Grid :=
  let '(dRow, dCol) := getDirectionDeltas direction in
  placeLoop grid row col dRow dCol (rangeString word).

(** ** Random source and console output *)

(** [math/rand]: a scripted sequence of raw draws and the number of
    draws consumed so far. *)
Record rng := mkRng { draws : nat -> Z; pos : nat }.

(** [rand.Intn(n)]: a value in [0, n); it panics when [n <= 0]. *)
Definition Intn (n : Z) (s : rng) : option (Z * rng) :=
  if n <=? 0 then None
  else Some (draws s (pos s) `mod` n, mkRng (draws s) (S (pos s))).

(** One event per [fmt.Printf]/[fmt.Println] call, with its arguments. *)
Inductive event :=
| EvGenerating
| EvLoadingVocab (file : string)
| EvLoadedVocab (n : Z)
| EvDefaultVocab (n : Z)
| EvRemovedHeader (n maxLength : Z)
| EvRemovedWord (word : string) (n : Z)
| EvAfterFiltering (n : Z)
| EvWarnNotPlaced (word : string) (maxAttempts : Z)
| EvCreated (width height : Z)
| EvGrid (grid : Grid)
| EvPlacements (placements : list WordPlacement)
| EvVerifyHeader
| EvFound (word : string) (row col : Z)
| EvNotFound (word : string) (row col : Z) (extracted : list Z).

(** [rune(x)] for an [int] and addition on [rune] (32-bit). *)
Definition wrap32 (z : Z) : Z := (z + 2 ^ 31) `mod` 2 ^ 32 - 2 ^ 31.
Definition rune_of_int (z : Z) : rune := wrap32 z.
Definition rune_add (a b : rune) : rune := wrap32 (a + b).

(** ** generateWordSearchGrid *)

Definition maxAttempts : Z := 100.

Fixpoint foldM {A S : Type} (f : S -> A -> option S) (l : list A) (s : S)
    : option S :=
  match l with
  | [] => Some s
  | a :: rest =>
    match f s a with
    | None => None
    | Some s' => foldM f rest s'
    end
  end.

(** The indices of [for i := 0; i < gridSize; i++]. *)
Definition gridRange : list Z := seqZ 0 gridSize.

(** State of the attempt loop for one word. *)
Record attemptState := mkAttempt {
  a_grid : Grid;
  a_placements : list WordPlacement;
  a_placed : bool;
  a_attempts : Z;
  a_rand : rng
}.

Definition attemptCond (st : attemptState) : bool :=
  negb (a_placed st) && (a_attempts st <? maxAttempts).

(** One iteration: lines 316-331. *)
Definition attemptBody (word : string) (st : attemptState)
    : option attemptState :=
  match Intn gridSize (a_rand st) with
  | None => None
  | Some (row, r1) =>
    match Intn gridSize r1 with
    | None => None
    | Some (col, r2) =>
      match Intn 8 r2 with
      | None => None
      | Some (direction, r3) =>
        match canPlaceWord (a_grid st) word row col direction with
        | None => None
        | Some true =>
          match placeWord (a_grid st) word row col direction with
          | None => None
          | Some grid' =>
            Some (mkAttempt grid'
                    (a_placements st ++ [mkPlacement word row col direction])
                    true (GoInt.add (a_attempts st) 1) r3)
          end
        | Some false =>
          Some (mkAttempt (a_grid st) (a_placements st) (a_placed st)
                  (GoInt.add (a_attempts st) 1) r3)
        end
      end
    end
  end.

Definition attemptMeasure (st : attemptState) : nat :=
  Z.to_nat (maxAttempts - a_attempts st).

(** [for !placed && attempts < maxAttempts { ... }]: lines 315-332. *)
Equations? attemptLoop (word : string) (st : attemptState)
    : option attemptState by wf (attemptMeasure st) lt :=
  attemptLoop word st with inspect (attemptCond st) := {
    | exist _ false Hc => Some st
    | exist _ true Hc with inspect (attemptBody word st) := {
        | exist _ None Hb => None
        | exist _ (Some st') Hb => attemptLoop word st' } }.
Proof.
  (* the body adds one to [attempts], which is below [maxAttempts] *)
  assert (Hatt : a_attempts st' = GoInt.add (a_attempts st) 1).
  { clear attemptLoop. unfold attemptBody in Hb.
    repeat match type of Hb with
           | match ?x with _ => _ end = _ =>
             destruct x as [[]|]; try discriminate
           | match ?x with _ => _ end = _ => destruct x; try discriminate
           end; injection Hb as <-; reflexivity. }
  unfold attemptMeasure, attemptCond in *. rewrite Hatt.
  apply andb_true_iff in Hc as [_ Hlt]. apply Z.ltb_lt in Hlt.
  unfold maxAttempts in *. unfold GoInt.add, GoInt.wrap.
  pose proof (Z.mod_pos_bound (a_attempts st + 1 + 2 ^ 63) (2 ^ 64)
                ltac:(lia)) as Hm.
  pose proof (Z.div_mod (a_attempts st + 1 + 2 ^ 63) (2 ^ 64) ltac:(lia)) as Hd.
  assert ((a_attempts st + 1 + 2 ^ 63) `div` 2 ^ 64 < 1)
    by (apply Z.div_lt_upper_bound; lia).
  nia.
Qed.

(** State of the engine between words. *)
Record engine := mkEngine {
  e_grid : Grid;
  e_placements : list WordPlacement;
  e_rand : rng;
  e_out : list event
}.

(** The body of [for _, word := range words]: lines 311-336. *)
Definition placeOneWord (st : engine) (word : string) : option engine :=
  match attemptLoop word
          (mkAttempt (e_grid st) (e_placements st) false 0 (e_rand st)) with
  | None => None
  | Some a =>
    Some (mkEngine (a_grid a) (a_placements a) (a_rand a)
            (if a_placed a then e_out st
             else e_out st ++ [EvWarnNotPlaced word maxAttempts]))
  end.

(** Lines 303-307. *)
Definition initGrid (grid : Grid) : option Grid :=
  foldM (fun g row => foldM (fun g' col => grid_set g' row col 0) gridRange g)
        gridRange grid.

(** The body of the fill loops: lines 342-344. *)
Definition fillCell (row : Z) (st : Grid * rng) (col : Z)
    : option (Grid * rng) :=
  let '(grid, r) := st in
  match grid_get grid row col with
  | None => None
  | Some v =>
    if v =? 0 then
      match Intn 26 r with
      | None => None
      | Some (x, r') =>
        match grid_set grid row col (rune_add 65 (rune_of_int x)) with
        | None => None
        | Some grid' => Some (grid', r')
        end
      end
    else Some st
  end.

(** Lines 340-346. *)
Definition fillGrid (st : Grid * rng) : option (Grid * rng) :=
  foldM (fun s row => foldM (fillCell row) gridRange s) gridRange st.

Definition generateWordSearchGrid (words : list string) (r : rng)
    : option (Grid * list WordPlacement * rng * list event) :=
  match initGrid zeroGrid with
  | None => None
  | Some grid0 =>
    match foldM placeOneWord words (mkEngine grid0 [] r []) with
    | None => None
    | Some st =>
      match fillGrid (e_grid st, e_rand st) with
      | None => None
      | Some (grid, r') => Some (grid, e_placements st, r', e_out st)
      end
    end
  end.

(** ** verifyWordPlacements *)

(** The body of the extraction loop: lines 532-539. *)
Definition extractStep (grid : Grid) (row col dRow dCol : Z)
    (extractedWord : list Z) (i : Z) : option (list Z) :=
  let currentRow := GoInt.add row (GoInt.mul dRow i) in
  let currentCol := GoInt.add col (GoInt.mul dCol i) in
  if (currentRow >=? 0) && (currentRow <? gridSize)
     && (currentCol >=? 0) && (currentCol <? gridSize)
  then
    match grid_get grid currentRow currentCol with
    | None => None
    | Some v => Some (extractedWord ++ encodeRune v)
    end
  else Some (extractedWord ++ [63]).

(** Lines 530-540: the word read back from the grid. *)
Definition extractWord (grid : Grid) (p : WordPlacement) : option (list Z) :=
  let '(dRow, dCol) := getDirectionDeltas (Direction p) in
  foldM (extractStep grid (Row p) (Col p) dRow dCol)
        (seqZ 0 (len (Word p))) [].

Definition verifyOne (grid : Grid) (p : WordPlacement) : option event :=
  match extractWord grid p with
  | None => None
  | Some extractedWord =>
    if decide (extractedWord = bytes_of (Word p))
    then Some (EvFound (Word p) (Row p) (Col p))
    else Some (EvNotFound (Word p) (Row p) (Col p) extractedWord)
  end.

Definition verifyWordPlacements (grid : Grid) (placements : list WordPlacement)
    : option (list event) :=
  foldM (fun out p =>
           match verifyOne grid p with
           | None => None
           | Some e => Some (out ++ [e])
           end)
        placements [EvVerifyHeader].

(** ** Vocabulary, filter and selection *)

Definition firstGradeVocab : list string :=
  ["ache"; "enormous"; "equal"; "exclaim"; "exhausted"; "expensive";
   "fancy"; "fasten"; "filthy"; "flat"; "flee"; "fog"; "footprint";
   "forest"; "freezing"; "gather"; "giant"; "glad"; "gleaming"; "glum";
   "grab"; "grateful"; "grin"; "grip"; "groan"; "hatch"; "heap"; "hide";
   "hobby"; "honest"; "howl"; "illustrator"; "injury"; "jealous"; "knob";
   "lively"; "loosen"; "mask"; "misty"; "modern"; "mountain"; "narrow";
   "obey"; "pain"; "passenger"; "pattern"; "pest"; "polish"; "pretend";
   "promise"; "rapid"; "remove"; "repeat"; "rescue"; "restart"; "return";
   "ripe"; "rise"; "roar"; "rough"; "rusty"; "scold"; "scratch"; "seed";
   "selfish"; "serious"; "shell"; "shovel"; "shriek"; "sibling"; "silent";
   "simple"; "slippery"; "sly"; "sneaky"; "sob"; "spiral"; "splendid";
   "sprinkle"; "squirm"; "startle"; "steep"; "stormy"; "striped";
   "surround"; "switch"; "terrified"; "thick"; "thunder"; "ticket";
   "timid"; "transportation"; "travel"; "trust"; "upset"; "weed";
   "whimper"; "whirl"; "wicked"; "yank"]%string.

(** [len(xs)] for a slice. *)
Definition slice_len {A : Type} (xs : list A) : Z := Z.of_nat (length xs).

(** [xs[i]]; [None] is the index-out-of-range panic. *)
Definition slice_get {A : Type} (xs : list A) (i : Z) : option A :=
  if (0 <=? i) && (i <? slice_len xs) then xs !! Z.to_nat i else None.

(** [xs[i] = x]. *)
Definition slice_set {A : Type} (xs : list A) (i : Z) (x : A)
    : option (list A) :=
  if (0 <=? i) && (i <? slice_len xs) then Some (<[Z.to_nat i := x]> xs)
  else None.

(** [xs[:hi]]. *)
Definition slice_to {A : Type} (xs : list A) (hi : Z) : option (list A) :=
  if (0 <=? hi) && (hi <=? slice_len xs) then Some (take (Z.to_nat hi) xs)
  else None.

(** The parts of the [strings] package that depend on the Unicode
    tables: the upper-casing of a string with a non-ASCII byte, and
    [strings.TrimSpace]. *)
Class GoStrings := {
  unicodeToUpper : string -> string;
  TrimSpace : string -> string;
  unicodeToUpper_go_string :
    forall s, go_string s -> go_string (unicodeToUpper s)
}.

Definition upper_byte (c : Z) : Z :=
  if (97 <=? c) && (c <=? 122) then c - 32 else c.

(** [strings.ToUpper]: byte-wise on an ASCII string. *)
Definition ToUpper `{GoStrings} (s : string) : string :=
  if forallb (fun c => c <? 128) (bytes_of s)
  then string_of_bytes (map upper_byte (bytes_of s))
  else unicodeToUpper s.

(** An instance for examples, exact on ASCII text: white space is the
    six ASCII white-space bytes, and text with a non-ASCII byte is left as
    it is by upper-casing. *)
Definition is_ascii_space (c : Z) : bool :=
  (c =? 9) || (c =? 10) || (c =? 11) || (c =? 12) || (c =? 13) || (c =? 32).

Fixpoint trim_left (bs : list Z) : list Z :=
  match bs with
  | [] => []
  | b :: rest => if is_ascii_space b then trim_left rest else bs
  end.

Definition asciiTrimSpace (s : string) : string :=
  string_of_bytes (rev (trim_left (rev (trim_left (bytes_of s))))).

Definition ascii_strings : GoStrings := {|
  unicodeToUpper := fun s => s;
  TrimSpace := asciiTrimSpace;
  unicodeToUpper_go_string := fun s H => H
|}.

(** What opening and scanning a file gives: the open fails, or the
    scanner yields [lines] and then reports an error or not. *)
Inductive file_result :=
| OpenFails
| Scanned (lines : list string) (scanErr : bool).

Inductive vocab_error :=
| ErrOpen
| ErrRead
| ErrTooFew (found : Z).

Inductive result (A : Type) :=
| Ok (a : A)
| Err (e : vocab_error).
Arguments Ok {A} a.
Arguments Err {A} e.

(** Lines 168-173. *)
Definition scanStep `{GoStrings} (words : list string) (line : string)
    : list string :=
  let word := TrimSpace line in
  if negb (String.eqb word EmptyString) then words ++ [word] else words.

Definition loadCustomVocab `{GoStrings} (fs : string -> file_result)
    (filename : string) : result (list string) :=
  match fs filename with
  | OpenFails => Err ErrOpen
  | Scanned lines scanErr =>
    let words := fold_left scanStep lines [] in
    if scanErr then Err ErrRead
    else if slice_len words <? 10 then Err (ErrTooFew (slice_len words))
    else Ok words
  end.

(** Lines 191-197. *)
Definition filterStep (maxLength : Z) (acc : list string * list string)
    (word : string) : list string * list string :=
  let '(filteredWords, removedWords) := acc in
  if len word <=? maxLength then (filteredWords ++ [word], removedWords)
  else (filteredWords, removedWords ++ [word]).

(** The result and what is printed. *)
Definition filterWordsByLength (words : list string) (maxLength : Z)
    : list string * list event :=
  let '(filteredWords, removedWords) :=
    fold_left (filterStep maxLength) words ([], []) in
  (filteredWords,
   if slice_len removedWords >? 0 then
     EvRemovedHeader (slice_len removedWords) maxLength
       :: map (fun word => EvRemovedWord word (len word)) removedWords
   else []).

Definition cellSize : Z := 40.
Definition imgWidth : Z := gridSize * cellSize.
Definition titleHeight : Z := 25.
Definition wordRowSpacing : Z := 20.
Definition wordsPerRow : Z := 4.
Definition headerPadding : Z := 15.

Definition calculateHeaderHeight (wordCount : Z) : Z :=
  let wordRows :=
    Z.quot (GoInt.sub (GoInt.add wordCount wordsPerRow) 1) wordsPerRow in
  GoInt.add (GoInt.add titleHeight (GoInt.mul wordRows wordRowSpacing))
            headerPadding.

(** State of the selection loop: lines 254-260. *)
Record selectState := mkSelect {
  s_i : Z;
  s_words : list string;
  s_temp : list string;
  s_rand : rng
}.

Definition selectCond (st : selectState) : bool :=
  (s_i st <? 10) && (slice_len (s_temp st) >? 0).

Definition selectBody `{GoStrings} (st : selectState) : option selectState :=
  let temp := s_temp st in
  match Intn (slice_len temp) (s_rand st) with
  | None => None
  | Some (randomIndex, r') =>
    match slice_get temp randomIndex with
    | None => None
    | Some drawn =>
      match slice_get temp (GoInt.sub (slice_len temp) 1) with
      | None => None
      | Some last =>
        match slice_set temp randomIndex last with
        | None => None
        | Some temp1 =>
          match slice_to temp1 (GoInt.sub (slice_len temp) 1) with
          | None => None
          | Some temp2 =>
            Some (mkSelect (GoInt.add (s_i st) 1)
                    (s_words st ++ [ToUpper drawn]) temp2 r')
          end
        end
      end
    end
  end.

Definition selectMeasure (st : selectState) : nat := Z.to_nat (10 - s_i st).

Equations? selectLoop `{GoStrings} (st : selectState) : option selectState
    by wf (selectMeasure st) lt :=
  selectLoop st with inspect (selectCond st) := {
    | exist _ false Hc => Some st
    | exist _ true Hc with inspect (selectBody st) := {
        | exist _ None Hb => None
        | exist _ (Some st') Hb => selectLoop st' } }.
Proof.
  (* the body adds one to [i], which is below 10 *)
  assert (Hi : s_i st' = GoInt.add (s_i st) 1).
  { clear selectLoop. unfold selectBody in Hb.
    repeat match type of Hb with
           | match ?x with _ => _ end = _ =>
             destruct x as [[]|]; try discriminate
           | match ?x with _ => _ end = _ => destruct x; try discriminate
           end; injection Hb as <-; reflexivity. }
  unfold selectMeasure, selectCond in *. rewrite Hi.
  apply andb_true_iff in Hc as [Hlt _]. apply Z.ltb_lt in Hlt.
  unfold GoInt.add, GoInt.wrap.
  pose proof (Z.mod_pos_bound (s_i st + 1 + 2 ^ 63) (2 ^ 64) ltac:(lia)) as Hm.
  pose proof (Z.div_mod (s_i st + 1 + 2 ^ 63) (2 ^ 64) ltac:(lia)) as Hd.
  assert ((s_i st + 1 + 2 ^ 63) `div` 2 ^ 64 < 1)
    by (apply Z.div_lt_upper_bound; lia).
  nia.
Qed.

(** Lines 250-260: the selected words and the random source afterwards. *)
Definition selectWords `{GoStrings} (vocabulary : list string) (r : rng)
    : option (list string * rng) :=
  match selectLoop (mkSelect 0 [] vocabulary r) with
  | None => None
  | Some st => Some (s_words st, s_rand st)
  end.

(** ** main *)

(** The picture written to [output.png]: its size, the word list drawn
    on top and the letters drawn in the cells. *)
Record Image := mkImage {
  img_width : Z;
  img_height : Z;
  img_words : list string;
  img_grid : Grid;
  img_headerHeight : Z
}.

Inductive fatal :=
| FatalVocab (e : vocab_error)
| FatalNotEnough (available : Z)
| FatalCreate
| FatalEncode.

Inductive exit_status :=
| ExitOk
| ExitFatal (msg : fatal)
| ExitPanic.

(** A run of the program: what it printed, the grid and placements if
    generation was reached, the image if one was written, and how the
    process ended. *)
Record run := mkRun {
  r_out : list event;
  r_generated : option (Grid * list WordPlacement);
  r_image : option Image;
  r_exit : exit_status
}.

(** Lines 226-238. *)
Definition chooseVocabulary `{GoStrings} (vocabFile : string)
    (fs : string -> file_result) : list event * result (list string) :=
  if negb (String.eqb vocabFile EmptyString) then
    match loadCustomVocab fs vocabFile with
    | Err e => ([EvLoadingVocab vocabFile], Err e)
    | Ok customVocab =>
      ([EvLoadingVocab vocabFile; EvLoadedVocab (slice_len customVocab)],
       Ok customVocab)
    end
  else ([EvDefaultVocab (slice_len firstGradeVocab)], Ok firstGradeVocab).

(** [main], given the [-vocab] flag, the file system, whether
    [os.Create] and [png.Encode] succeed, and the seeded random source. *)
Definition main `{GoStrings} (vocabFile : string) (fs : string -> file_result)
    (createOk encodeOk : bool) (r : rng) : run :=
  match chooseVocabulary vocabFile fs with
  | (out1, Err e) =>
    mkRun (EvGenerating :: out1) None None (ExitFatal (FatalVocab e))
  | (out1, Ok vocabulary0) =>
    let '(vocabulary, outf) := filterWordsByLength vocabulary0 gridSize in
    let out2 := EvGenerating :: out1 ++ outf
                  ++ [EvAfterFiltering (slice_len vocabulary)] in
    if slice_len vocabulary <? 10 then
      mkRun out2 None None (ExitFatal (FatalNotEnough (slice_len vocabulary)))
    else
      match selectWords vocabulary r with
      | None => mkRun out2 None None ExitPanic
      | Some (words, r1) =>
        let headerHeight := calculateHeaderHeight (slice_len words) in
        let imgHeight := GoInt.add (GoInt.mul gridSize cellSize) headerHeight in
        match generateWordSearchGrid words r1 with
        | None => mkRun out2 None None ExitPanic
        | Some (letterGrid, placements, _, outg) =>
          let out3 := out2 ++ outg in
          let img := mkImage imgWidth imgHeight words letterGrid headerHeight in
          if negb createOk then
            mkRun out3 (Some (letterGrid, placements)) None
                  (ExitFatal FatalCreate)
          else if negb encodeOk then
            mkRun out3 (Some (letterGrid, placements)) None
                  (ExitFatal FatalEncode)
          else
            match verifyWordPlacements letterGrid placements with
            | None =>
              mkRun (out3 ++ [EvCreated imgWidth imgHeight; EvGrid letterGrid;
                              EvPlacements placements])
                    (Some (letterGrid, placements)) (Some img) ExitPanic
            | Some outv =>
              mkRun (out3 ++ [EvCreated imgWidth imgHeight; EvGrid letterGrid;
                              EvPlacements placements] ++ outv)
                    (Some (letterGrid, placements)) (Some img) ExitOk
            end
        end
      end
  end.

(** ** Drawing and printing *)

(** [fixed.I(i)]: the 26.6 fixed-point value of an [int], an [int32]. *)
Definition fixed_I (i : Z) : Z := wrap32 (GoInt.wrap (Z.shiftl i 6)).

(** One [DrawString] call of a [font.Drawer]: its dot and the text. *)
Record draw_op := mkDraw {
  d_x : Z;
  d_y : Z;
  d_text : list Z
}.

(** The body of the loop of [drawWordList]: lines 439-446. *)
Definition drawWord (i : Z) (word : string) : draw_op :=
  let wordsPerRow := 4 in
  let wordSpacing := 80 in
  let rowSpacing := 20 in
  let startX := 10 in
  let startY := 45 in
  let row := Z.quot i wordsPerRow in
  let col := Z.rem i wordsPerRow in
  let x := GoInt.add startX (GoInt.mul col wordSpacing) in
  let y := GoInt.add startY (GoInt.mul row rowSpacing) in
  mkDraw (fixed_I x) (fixed_I y) (bytes_of word).

(** The title of the word list, [Find these words:]. *)
Definition wordListTitle : string := "Find these words:".

Definition drawWordList (words : list string) : list draw_op :=
  let titleX := 10 in
  let titleY := 20 in
  mkDraw (fixed_I titleX) (fixed_I titleY) (bytes_of wordListTitle)
    :: imap (fun i word => drawWord (Z.of_nat i) word) words.

Definition drawLetterInCell (letter : rune) (row col headerHeight : Z)
    : draw_op :=
  let cellX := GoInt.mul col cellSize in
  let cellY := GoInt.add (GoInt.mul row cellSize) headerHeight in
  let letterWidth := 7 in
  let letterHeight := 13 in
  let x := GoInt.add cellX (Z.quot (GoInt.sub cellSize letterWidth) 2) in
  let y := GoInt.add (GoInt.add cellY
                        (Z.quot (GoInt.sub cellSize letterHeight) 2)) 10 in
  mkDraw (fixed_I x) (fixed_I y) (encodeRune letter).

(** The draw calls of [drawLetterGrid], in order. *)
Definition drawLetterGrid (grid : Grid) (headerHeight : Z)
    : option (list draw_op) :=
  foldM (fun ops row =>
           foldM (fun ops' col =>
                    match grid_get grid row col with
                    | None => None
                    | Some letter =>
                      Some (ops' ++ [drawLetterInCell letter row col
                                       headerHeight])
                    end) gridRange ops)
        gridRange [].

(** The lines [printWordSearchGrid] prints after its heading: for each
    row, each cell formatted with ["%c "]. *)
Definition printWordSearchGrid (grid : Grid) : option (list (list Z)) :=
  foldM (fun out row =>
           match foldM (fun line col =>
                          match grid_get grid row col with
                          | None => None
                          | Some v => Some (line ++ encodeRune v ++ [32])
                          end) gridRange [] with
           | None => None
           | Some line => Some (out ++ [line])
           end)
        gridRange [].

Definition directionNames : list string :=
  ["RIGHT"; "LEFT"; "DOWN"; "UP"; "DOWN_RIGHT"; "DOWN_LEFT"; "UP_RIGHT";
   "UP_LEFT"]%string.

(** What [printWordPlacements] prints: a heading, a line for each
    placement, the total. *)
Inductive report_line :=
| ReportHeading
| ReportPlacement (word : string) (row col : Z) (directionName : string)
| ReportTotal (n : Z).

(** Lines 506-509. *)
Definition directionNameOf (direction : Z) : string :=
  if (direction >=? 0) && (direction <? slice_len directionNames) then
    match slice_get directionNames direction with
    | Some name => name
    | None => "UNKNOWN"
    end
  else "UNKNOWN".

Definition printWordPlacements (placements : list WordPlacement)
    : list report_line :=
  ReportHeading
    :: map (fun placement =>
              ReportPlacement (Word placement) (Row placement)
                (Col placement) (directionNameOf (Direction placement)))
           placements
    ++ [ReportTotal (slice_len placements)].

(** * Vocabulary of the statements *)

(** A unit step along one axis. *)
Definition unit_delta (d : Z) : Prop := d = -1 \/ d = 0 \/ d = 1.

(** Every byte is an ASCII character. *)
Definition ascii_bytes (bs : list Z) : Prop :=
  Forall (fun b => 0 <= b < 128) bs.

(** The cell visited at byte offset [i], as the code computes it. *)
Definition cellAt (row col dRow dCol i : Z) : Z * Z :=
  (GoInt.add row (GoInt.mul dRow i), GoInt.add col (GoInt.mul dCol i)).

(** A coordinate or a length far from the limits of [int], where the
    coordinate arithmetic cannot wrap. *)
Definition moderate (z : Z) : Prop := - 2 ^ 62 < z < 2 ^ 62.

(** [grid_le g g']: [g'] keeps every letter already in [g]. *)
Definition grid_le (g g' : Grid) : Prop :=
  forall r c v, grid_get g r c = Some v -> v <> 0 -> grid_get g' r c = Some v.

(** [accepted g word p g']: placement [p] of [word] passed the check on
    [g] and writing it gave [g']. *)
Definition accepted (g : Grid) (word : string) (p : WordPlacement) (g' : Grid)
    : Prop :=
  Word p = word /\
  0 <= Row p < gridSize /\ 0 <= Col p < gridSize /\ 0 <= Direction p < 8 /\
  canPlaceWord g word (Row p) (Col p) (Direction p) = Some true /\
  placeWord g word (Row p) (Col p) (Direction p) = Some g'.

(** The random source after three more draws. *)
Definition after3 (r : rng) : rng := mkRng (draws r) (3 + pos r).

(** What the loop leaves behind, started with [placed = false] and
    [attempts = 0]. *)
Definition loop_result (word : string) (g : Grid) (pl : list WordPlacement)
    (r : rng) (a : attemptState) : Prop :=
  0 <= a_attempts a <= maxAttempts /\
  draws (a_rand a) = draws r /\
  Z.of_nat (pos (a_rand a)) = Z.of_nat (pos r) + 3 * a_attempts a /\
  ((a_placed a = false /\ a_grid a = g /\ a_placements a = pl)
   \/ (a_placed a = true /\ 1 <= a_attempts a /\
       exists p, accepted g word p (a_grid a) /\ a_placements a = pl ++ [p])).

(** The whole path of [p] lies on the grid. *)
Definition placement_fits (p : WordPlacement) : Prop :=
  0 <= Row p < gridSize /\ 0 <= Col p < gridSize /\
  len (Word p) <= gridSize /\
  endOutOfBounds (len (Word p)) (Row p) (Col p) (Direction p) = false.

(** The grid holds, at each offset that [range] visits, the letter of
    [p]'s word (the empty sentinel 0 is no letter). *)
Definition reads (g : Grid) (p : WordPlacement) : Prop :=
  forall i letter, (i, letter) ∈ rangeString (Word p) -> letter <> 0 ->
    grid_get g (Row p + (getDirectionDeltas (Direction p)).1 * i)
               (Col p + (getDirectionDeltas (Direction p)).2 * i) = Some letter.

(** Every cell is empty or holds a value satisfying [Q]. *)
Definition cells_in (Q : Z -> Prop) (g : Grid) : Prop :=
  forall r c v, grid_get g r c = Some v -> v = 0 \/ Q v.

(** [w] is a Go string and every letter that [range] yields on it
    satisfies [Q]. *)
Definition word_in (Q : Z -> Prop) (w : string) : Prop :=
  go_string w /\ forall i letter, (i, letter) ∈ rangeString w -> Q letter.

(** Invariant of the loop over the words, after the words [ws]. *)
Definition engine_inv (Q : Z -> Prop) (r0 : rng) (ws : list string)
    (st : engine) : Prop :=
  grid_ok (e_grid st) /\
  cells_in Q (e_grid st) /\
  Forall (fun p => placement_fits p /\ reads (e_grid st) p) (e_placements st) /\
  sublist (map Word (e_placements st)) ws /\
  sublist (e_out st) (map (fun w => EvWarnNotPlaced w maxAttempts) ws) /\
  (length (e_placements st) + length (e_out st) = length ws)%nat /\
  draws (e_rand st) = draws r0 /\
  (pos r0 <= pos (e_rand st) <= pos r0 + 300 * length ws)%nat.

(** [fill_rel g g']: [g'] is [g] with some empty cells replaced by
    letters A-Z. *)
Definition fill_rel (g g' : Grid) : Prop :=
  grid_ok g' /\
  forall r c v, grid_get g' r c = Some v ->
    grid_get g r c = Some v \/ (grid_get g r c = Some 0 /\ 65 <= v <= 90).

(** The cell, if on the grid, is not empty. *)
Definition nonzero_at (g : Grid) (r c : Z) : Prop :=
  forall v, grid_get g r c = Some v -> v <> 0.

(** The warning printed for a word that could not be placed. *)
Definition warning (w : string) : event := EvWarnNotPlaced w maxAttempts.

(** Every byte of [w] is one of the letters A-Z. *)
Definition upper_word (w : string) : Prop :=
  Forall (fun b => 65 <= b <= 90) (bytes_of w).

(** A checker for [upper_word], to evaluate it on concrete words. *)
Definition upper_wordb (w : string) : bool :=
  forallb (fun b => (65 <=? b) && (b <=? 90)) (bytes_of w).

(** The letters of [p]'s word are in the grid, offset by offset. *)
Definition spells (g : Grid) (p : WordPlacement) : Prop :=
  forall k b, bytes_of (Word p) !! k = Some b ->
    grid_get g (Row p + (getDirectionDeltas (Direction p)).1 * Z.of_nat k)
               (Col p + (getDirectionDeltas (Direction p)).2 * Z.of_nat k)
    = Some b.

(** The verifier's report of a placement that reads back. *)
Definition found (p : WordPlacement) : event :=
  EvFound (Word p) (Row p) (Col p).

(** The start cells as the claim words them: row or column 0 for the
    four axis-aligned directions, a corner cell for the diagonals. *)
Definition claimed_start_cells (direction row col : Z) : Prop :=
  ((direction = RIGHT \/ direction = LEFT \/
    direction = DOWN \/ direction = UP) ->
     row = 0 \/ col = 0) /\
  ((direction = DOWN_RIGHT \/ direction = DOWN_LEFT \/
    direction = UP_RIGHT \/ direction = UP_LEFT) ->
     (row = 0 \/ row = gridSize - 1) /\ (col = 0 \/ col = gridSize - 1)).

(** The start cells from which a word of length [gridSize] fits: the
    edge the direction leads away from. *)
Definition full_length_start (direction row col : Z) : Prop :=
  if direction =? RIGHT then col = 0
  else if direction =? LEFT then col = gridSize - 1
  else if direction =? DOWN then row = 0
  else if direction =? UP then row = gridSize - 1
  else if direction =? DOWN_RIGHT then row = 0 /\ col = 0
  else if direction =? DOWN_LEFT then row = 0 /\ col = gridSize - 1
  else if direction =? UP_RIGHT then row = gridSize - 1 /\ col = 0
  else if direction =? UP_LEFT then row = gridSize - 1 /\ col = gridSize - 1
  else col = 0.

(** The trimmed, non-blank lines, in order. *)
Definition nonblank_trimmed `{GoStrings} (lines : list string) : list string :=
  List.filter (fun w => negb (String.eqb w EmptyString)) (map TrimSpace lines).

(** The words that fit the grid, in order. *)
Definition fits_grid (words : list string) : list string :=
  List.filter (fun w => len w <=? gridSize) words.

(** Every file the scanner reads has an [int] number of lines. *)
Definition go_fs (fs : string -> file_result) : Prop :=
  forall f lines e, fs f = Scanned lines e -> slice_len lines <= GoInt.max_int.

(** The configuration errors: a vocabulary file was named and it cannot
    be opened, or reading it fails, or it has fewer than 10 non-blank
    lines, or fewer than 10 of them fit the grid. *)
Inductive config_error `{GoStrings} (vocabFile : string)
    (fs : string -> file_result) : Prop :=
| CfgOpen :
    vocabFile <> EmptyString -> fs vocabFile = OpenFails ->
    config_error vocabFile fs
| CfgRead lines :
    vocabFile <> EmptyString -> fs vocabFile = Scanned lines true ->
    config_error vocabFile fs
| CfgFewLines lines :
    vocabFile <> EmptyString -> fs vocabFile = Scanned lines false ->
    slice_len (nonblank_trimmed lines) < 10 ->
    config_error vocabFile fs
| CfgFewWords lines :
    vocabFile <> EmptyString -> fs vocabFile = Scanned lines false ->
    slice_len (fits_grid (nonblank_trimmed lines)) < 10 ->
    config_error vocabFile fs.

(** The run stopped with a fatal error and no grid was generated. *)
Definition aborted_before_grid (x : run) : Prop :=
  (exists msg, r_exit x = ExitFatal msg) /\ r_generated x = None /\
  r_image x = None.

(** The run generated a grid, and ended as the two file operations
    allow; with both succeeding the image shows that grid. *)
Definition generated_and_saved (createOk encodeOk : bool) (x : run) : Prop :=
  exists grid pls,
    r_generated x = Some (grid, pls) /\
    r_exit x = (if createOk then
                  if encodeOk then ExitOk else ExitFatal FatalEncode
                else ExitFatal FatalCreate) /\
    (createOk = true -> encodeOk = true ->
     exists img, r_image x = Some img /\ img_grid img = grid).

(** The rune of a cell, 0 off the grid. *)
Definition cellOr0 (grid : list (list Z)) (row col : Z) : Z :=
  default 0 (grid_get grid row col).


(** The line printed for a row: each rune formatted with ["%c "]. *)
Definition printedRow (line : list Z) : list Z :=
  flat_map (fun v => encodeRune v ++ [32]) line.


(** The elements of [l] whose flag is set, in order. *)
Fixpoint pick {A : Type} (flags : list bool) (l : list A) : list A :=
  match flags, l with
  | b :: flags', a :: l' => if b then a :: pick flags' l' else pick flags' l'
  | _, _ => []
  end.

(** What the loop over the words has recorded after the words [ws]:
    [flags] tells, word by word, whether the word was placed. *)
Definition accounted (ws : list string) (flags : list bool) (st : engine)
    : Prop :=
  grid_ok (e_grid st) /\
  length flags = length ws /\
  map Word (e_placements st) = pick flags ws /\
  e_out st = map warning (pick (map negb flags) ws) /\
  Forall (fun p => 0 <= Direction p < 8) (e_placements st) /\
  (forall i w, ws !! i = Some w -> gridSize < len w ->
     flags !! i = Some false).

(** The direction constant that a name spells: lines 32-41. *)
Definition directionOfName (name : string) : option Z :=
  if String.eqb name "RIGHT" then Some RIGHT
  else if String.eqb name "LEFT" then Some LEFT
  else if String.eqb name "DOWN" then Some DOWN
  else if String.eqb name "UP" then Some UP
  else if String.eqb name "DOWN_RIGHT" then Some DOWN_RIGHT
  else if String.eqb name "DOWN_LEFT" then Some DOWN_LEFT
  else if String.eqb name "UP_RIGHT" then Some UP_RIGHT
  else if String.eqb name "UP_LEFT" then Some UP_LEFT
  else None.

(** The runes on the path of [p], offset by offset. *)
Definition pathCells (g : list (list Z)) (p : WordPlacement) : list Z :=
  map (fun i => cellOr0 g (Row p + (getDirectionDeltas (Direction p)).1 * i)
                          (Col p + (getDirectionDeltas (Direction p)).2 * i))
      (seqZ 0 (len (Word p))).

(** A checker for duplicate-free lists of words. *)
Fixpoint nodupb (l : list string) : bool :=
  match l with
  | [] => true
  | w :: rest => negb (existsb (String.eqb w) rest) && nodupb rest
  end.

(** The [k]-th candidate of an attempt loop started on the random
    source [r]: the row, column and direction that attempt [k] (from 0)
    draws. *)
Definition candidate (r : rng) (k : nat) : Z * Z * Z :=
  (draws r (pos r + 3 * k)%nat `mod` gridSize,
   draws r (S (pos r + 3 * k)) `mod` gridSize,
   draws r (S (S (pos r + 3 * k))) `mod` 8).

(** The state of the attempt loop after [k] rejected attempts. *)
Definition afterRejected (g : list (list Z)) (pl : list WordPlacement)
    (r : rng) (k : nat) : attemptState :=
  mkAttempt g pl false (Z.of_nat k) (mkRng (draws r) (pos r + 3 * k)).

(** Every byte of [w] is a letter, A-Z or a-z. *)
Definition letters_word (w : string) : Prop :=
  Forall (fun b => 65 <= b <= 90 \/ 97 <= b <= 122) (bytes_of w).

(** A checker for [letters_word]. *)
Definition letters_wordb (w : string) : bool :=
  forallb (fun b => ((65 <=? b) && (b <=? 90)) || ((97 <=? b) && (b <=? 122)))
          (bytes_of w).

(** ** Data for the examples *)

(** A scripted random source for examples: the listed draws, then zeros. *)
Definition scripted (l : list Z) : rng := mkRng (fun k => nth k l 0) 0.

(** The grid after CAT has been written to the right from row 2,
    column 1. *)
Definition grid_with_CAT : list (list Z) :=
  Eval vm_compute in
    match placeWord zeroGrid "CAT" 2 1 RIGHT with
    | Some g => g
    | None => []
    end.

(** A vocabulary file for examples: thirteen lines, eleven of them
    words, one word too long for the grid. *)
Definition example_fs (f : string) : file_result :=
  Scanned ["  apple "; " "; "pear"; "plum"; EmptyString; "fig"; "kiwi";
           "lime"; "date"; "nut"; "yam"; "pea"; "watermelonseed"]%string
          false.

(** * Lemmas *)

(** ** Integer arithmetic *)

Lemma wrap_small (z : Z) : GoInt.in_range z -> GoInt.wrap z = z.
Proof.
  unfold GoInt.in_range, GoInt.min_int, GoInt.max_int, GoInt.wrap. intros Hz.
  rewrite Z.mod_small; lia.
Qed.

Lemma wrap32_small (z : Z) : - 2 ^ 31 <= z < 2 ^ 31 -> wrap32 z = z.
Proof. unfold wrap32. intros Hz. rewrite Z.mod_small; lia. Qed.

(** The direction deltas are unit steps, never both zero. *)
Lemma getDirectionDeltas_unit direction dRow dCol :
  getDirectionDeltas direction = (dRow, dCol) ->
  unit_delta dRow /\ unit_delta dCol /\ (dRow <> 0 \/ dCol <> 0).
Proof.
  unfold getDirectionDeltas, unit_delta.
  repeat case_match; intros [= <- <-]; lia.
Qed.

(** Within the sizes a program can reach, the coordinate arithmetic of
    [canPlaceWord], [placeWord] and the verifier does not wrap. *)
Lemma coord_exact (x d i : Z) :
  unit_delta d -> - 2 ^ 62 < x < 2 ^ 62 -> - 2 ^ 62 <= i <= 2 ^ 62 ->
  GoInt.add x (GoInt.mul d i) = x + d * i.
Proof.
  unfold unit_delta, GoInt.add, GoInt.mul. intros Hd Hx Hi.
  rewrite (wrap_small (d * i)).
  - apply wrap_small. unfold GoInt.in_range, GoInt.min_int, GoInt.max_int.
    destruct Hd as [-> | [-> | ->]]; lia.
  - unfold GoInt.in_range, GoInt.min_int, GoInt.max_int.
    destruct Hd as [-> | [-> | ->]]; lia.
Qed.

Lemma sub1_exact (n : Z) : 0 <= n <= 2 ^ 62 -> GoInt.sub n 1 = n - 1.
Proof.
  intros Hn. unfold GoInt.sub. apply wrap_small.
  unfold GoInt.in_range, GoInt.min_int, GoInt.max_int. lia.
Qed.

(** ** Strings *)

Lemma length_bytes_of (s : string) :
  Z.of_nat (length (bytes_of s)) = len s.
Proof.
  unfold bytes_of, len. rewrite length_map. f_equal.
  induction s as [|a s IH]; simpl; [reflexivity | now rewrite IH].
Qed.

Lemma len_nonneg (s : string) : 0 <= len s.
Proof. unfold len. lia. Qed.

Lemma bytes_of_range (s : string) :
  Forall (fun b => 0 <= b < 256) (bytes_of s).
Proof.
  unfold bytes_of. apply Forall_forall. intros b Hb.
  apply list_elem_of_In, in_map_iff in Hb as (a & <- & _).
  unfold byte_of_ascii. pose proof (nat_ascii_bounded a). lia.
Qed.

Lemma bytes_of_inj (s t : string) : bytes_of s = bytes_of t -> s = t.
Proof.
  unfold bytes_of. revert t.
  induction s as [|a s IH]; intros [|b t]; simpl; try discriminate; auto.
  intros [= Hab Hst]. f_equal; [|now apply IH].
  unfold byte_of_ascii in Hab. apply Nat2Z.inj in Hab.
  rewrite <- (ascii_nat_embedding a), <- (ascii_nat_embedding b).
  now rewrite Hab.
Qed.

(** The indices produced by [range] are byte offsets inside the string. *)
Lemma rangeFrom_index (bs : list Z) : forall k skip i r,
  (i, r) ∈ rangeFrom k skip bs -> k <= i < k + Z.of_nat (length bs).
Proof.
  induction bs as [|b bs IH]; intros k skip i r Hin; cbn [rangeFrom] in Hin.
  - inversion Hin.
  - destruct skip as [|skip].
    + destruct (decodeRune (b :: bs)) as [r0 w].
      apply elem_of_cons in Hin as [[= -> ->] | Hin].
      * simpl length. lia.
      * apply IH in Hin. simpl length. lia.
    + apply IH in Hin. simpl length. lia.
Qed.

Lemma rangeString_index (s : string) (i : Z) (r : rune) :
  (i, r) ∈ rangeString s -> 0 <= i < len s.
Proof.
  unfold rangeString. intros Hin. apply rangeFrom_index in Hin.
  rewrite length_bytes_of in Hin. lia.
Qed.

Example rangeString_ascii : rangeString "CAT" = [(0, 67); (1, 65); (2, 84)].
Proof. reflexivity. Qed.

(** A code point of two bytes takes two offsets: the offset after it is
    not visited. *)
Example rangeString_two_byte_letter :
  rangeString "NAÏVE" = [(0, 78); (1, 65); (2, 207); (4, 86); (5, 69)].
Proof. reflexivity. Qed.

(** No index is produced twice. *)
Lemma rangeFrom_NoDup (bs : list Z) : forall k skip,
  NoDup (map fst (rangeFrom k skip bs)).
Proof.
  induction bs as [|b bs IH]; intros k skip; cbn [rangeFrom].
  - constructor.
  - destruct skip as [|skip]; [|apply IH].
    destruct (decodeRune (b :: bs)) as [r0 w]. simpl.
    constructor; [|apply IH].
    intros Hj. apply list_elem_of_In, in_map_iff in Hj as ([j' r'] & Hk & Hj).
    apply list_elem_of_In, rangeFrom_index in Hj. simpl in Hk. lia.
Qed.

Lemma rangeString_NoDup (s : string) : NoDup (map fst (rangeString s)).
Proof. apply rangeFrom_NoDup. Qed.

(** On a string of ASCII bytes, [range] visits every byte: index [i]
    comes with the byte [s[i]]. *)
Lemma rangeFrom_ascii (bs : list Z) : forall k,
  ascii_bytes bs ->
  rangeFrom k 0 bs = zip (seqZ k (Z.of_nat (length bs))) bs.
Proof.
  induction bs as [|b bs IH]; intros k Hb.
  - reflexivity.
  - apply Forall_cons in Hb as [Hb0 Hbs].
    cbn [rangeFrom decodeRune].
    destruct (b <? 128) eqn:E; [|apply Z.ltb_ge in E; lia].
    cbn [Nat.pred]. rewrite IH by assumption.
    cbn [length]. rewrite Nat2Z.inj_succ, (seqZ_cons k) by lia.
    cbn [zip zip_with]. do 3 f_equal. lia.
Qed.

(** ** Grid access *)

Lemma in_grid_spec (i : Z) : in_grid i = true <-> 0 <= i < gridSize.
Proof. unfold in_grid. rewrite andb_true_iff, Z.leb_le, Z.ltb_lt. tauto. Qed.

Lemma grid_get_Some_in grid r c v :
  grid_get grid r c = Some v -> 0 <= r < gridSize /\ 0 <= c < gridSize.
Proof.
  unfold grid_get. destruct (in_grid r) eqn:Er; [|discriminate].
  destruct (in_grid c) eqn:Ec; [|discriminate].
  intros _. now rewrite <- !in_grid_spec.
Qed.

Lemma grid_set_Some_in grid r c v grid' :
  grid_set grid r c v = Some grid' -> 0 <= r < gridSize /\ 0 <= c < gridSize.
Proof.
  unfold grid_set. destruct (in_grid r) eqn:Er; [|discriminate].
  destruct (in_grid c) eqn:Ec; [|discriminate].
  intros _. now rewrite <- !in_grid_spec.
Qed.

Lemma grid_ok_row grid r :
  grid_ok grid -> 0 <= r < gridSize ->
  exists line, grid !! Z.to_nat r = Some line /\ length line = Z.to_nat gridSize.
Proof.
  intros [Hlen Hrows] Hr.
  destruct (lookup_lt_is_Some_2 grid (Z.to_nat r)) as [line Hline]; [lia|].
  exists line. split; [assumption|].
  rewrite Forall_forall in Hrows. apply Hrows.
  apply list_elem_of_lookup. eauto.
Qed.

Lemma grid_get_ok grid r c :
  grid_ok grid -> 0 <= r < gridSize -> 0 <= c < gridSize ->
  exists v, grid_get grid r c = Some v.
Proof.
  intros Hok Hr Hc. unfold grid_get.
  rewrite (proj2 (in_grid_spec r) Hr), (proj2 (in_grid_spec c) Hc). simpl.
  destruct (grid_ok_row grid r Hok Hr) as (line & -> & Hlen).
  apply lookup_lt_is_Some_2. lia.
Qed.

Lemma grid_set_ok grid r c v :
  grid_ok grid -> 0 <= r < gridSize -> 0 <= c < gridSize ->
  exists grid', grid_set grid r c v = Some grid'.
Proof.
  intros Hok Hr Hc. unfold grid_set.
  rewrite (proj2 (in_grid_spec r) Hr), (proj2 (in_grid_spec c) Hc). simpl.
  destruct (grid_ok_row grid r Hok Hr) as (line & -> & Hlen).
  destruct (decide _) as [|Hn]; [eauto|]. exfalso. apply Hn. lia.
Qed.

Lemma grid_set_preserves_ok grid r c v grid' :
  grid_set grid r c v = Some grid' -> grid_ok grid -> grid_ok grid'.
Proof.
  unfold grid_set. intros Hset [Hlen Hrows].
  destruct (in_grid r && in_grid c); [|discriminate].
  destruct (grid !! Z.to_nat r) as [line|] eqn:Hline; [|discriminate].
  destruct (decide _); [|discriminate]. injection Hset as <-.
  split; [now rewrite length_insert|].
  apply Forall_insert; [assumption|].
  rewrite length_insert. rewrite Forall_forall in Hrows. apply Hrows.
  apply list_elem_of_lookup. eauto.
Qed.

(** Reading after a write: the written cell holds the new value, every
    other cell its old one. *)
Lemma grid_get_set_eq grid r c v grid' :
  grid_set grid r c v = Some grid' -> grid_get grid' r c = Some v.
Proof.
  unfold grid_set, grid_get. intros Hset.
  destruct (in_grid r && in_grid c); [|discriminate].
  destruct (grid !! Z.to_nat r) as [line|] eqn:Hline; [|discriminate].
  destruct (decide _) as [Hlt|]; [|discriminate]. injection Hset as <-.
  rewrite list_lookup_insert_eq by (eapply lookup_lt_Some; eassumption).
  now apply list_lookup_insert_eq.
Qed.

Lemma grid_get_set_ne grid r c v grid' r' c' :
  grid_set grid r c v = Some grid' -> (r', c') <> (r, c) ->
  grid_get grid' r' c' = grid_get grid r' c'.
Proof.
  unfold grid_set, grid_get. intros Hset Hne.
  destruct (in_grid r && in_grid c) eqn:Hin; [|discriminate].
  apply andb_true_iff in Hin as [Hr Hc].
  apply in_grid_spec in Hr, Hc.
  destruct (grid !! Z.to_nat r) as [line|] eqn:Hline; [|discriminate].
  destruct (decide _) as [Hlt|]; [|discriminate]. injection Hset as <-.
  destruct (in_grid r' && in_grid c') eqn:Hin'; [|reflexivity].
  apply andb_true_iff in Hin' as [Hr' Hc'].
  apply in_grid_spec in Hr', Hc'.
  destruct (decide (r' = r)) as [->|Hrr].
  - rewrite list_lookup_insert_eq by (eapply lookup_lt_Some; eassumption).
    rewrite Hline. apply list_lookup_insert_ne.
    intros Heq. apply Hne. f_equal. lia.
  - rewrite list_lookup_insert_ne; [reflexivity|]. lia.
Qed.

(** ** The two loops over the letters of a word *)

Section Loops.

Variables row col dRow dCol : Z.

Local Abbreviation cell i := (cellAt row col dRow dCol i).

Lemma conflictLoop_true grid its :
  conflictLoop grid row col dRow dCol its = Some true ->
  forall i letter, (i, letter) ∈ its ->
    exists v, grid_get grid (cell i).1 (cell i).2 = Some v /\
              (v = 0 \/ v = letter).
Proof.
  induction its as [|[j l] its IH]; intros Hloop i letter Hin.
  - inversion Hin.
  - cbn [conflictLoop] in Hloop.
    destruct (grid_get grid _ _) as [v|] eqn:Hget; [|discriminate].
    destruct (negb (v =? 0) && negb (v =? l)) eqn:Hc; [discriminate|].
    apply elem_of_cons in Hin as [[= -> ->] | Hin]; [|now apply IH].
    exists v. split; [exact Hget|].
    apply andb_false_iff in Hc as [Hc | Hc];
      apply negb_false_iff, Z.eqb_eq in Hc; auto.
Qed.

Lemma conflictLoop_false grid its :
  conflictLoop grid row col dRow dCol its = Some false ->
  exists i letter v, (i, letter) ∈ its /\
    grid_get grid (cell i).1 (cell i).2 = Some v /\ v <> 0 /\ v <> letter.
Proof.
  induction its as [|[j l] its IH]; intros Hloop.
  - discriminate.
  - cbn [conflictLoop] in Hloop.
    destruct (grid_get grid _ _) as [v|] eqn:Hget; [|discriminate].
    destruct (negb (v =? 0) && negb (v =? l)) eqn:Hc.
    + apply andb_true_iff in Hc as [H0 Hl].
      apply negb_true_iff, Z.eqb_neq in H0, Hl.
      exists j, l, v. split; [left|]; auto.
    + destruct (IH Hloop) as (i & letter & w & Hin & Hw).
      exists i, letter, w. split; [now right | exact Hw].
Qed.

(** A conflict anywhere on the visited cells makes the check fail. *)
Lemma conflictLoop_conflict grid its i letter v :
  (i, letter) ∈ its ->
  grid_get grid (cell i).1 (cell i).2 = Some v ->
  v <> 0 -> v <> letter ->
  conflictLoop grid row col dRow dCol its <> Some true.
Proof.
  intros Hin Hget H0 Hl Htrue.
  destruct (conflictLoop_true _ _ Htrue _ _ Hin) as (w & Hw & Hcase).
  rewrite Hget in Hw. injection Hw as <-. tauto.
Qed.

Lemma conflictLoop_total grid its :
  grid_ok grid ->
  (forall i letter, (i, letter) ∈ its ->
     0 <= (cell i).1 < gridSize /\ 0 <= (cell i).2 < gridSize) ->
  exists b, conflictLoop grid row col dRow dCol its = Some b.
Proof.
  intros Hok. induction its as [|[j l] its IH]; intros Hin.
  - now exists true.
  - cbn [conflictLoop].
    destruct (Hin j l ltac:(left)) as [Hr Hc].
    destruct (grid_get_ok grid _ _ Hok Hr Hc) as [v Hv].
    unfold cellAt in Hv. simpl in Hv. rewrite Hv.
    destruct (negb (v =? 0) && negb (v =? l)); [now exists false|].
    apply IH. intros i letter Hi. apply (Hin i letter). now right.
Qed.

Lemma placeLoop_Some_in its : forall grid grid',
  placeLoop grid row col dRow dCol its = Some grid' ->
  forall i letter, (i, letter) ∈ its ->
    0 <= (cell i).1 < gridSize /\ 0 <= (cell i).2 < gridSize.
Proof.
  induction its as [|[j l] its IH]; intros grid grid' Hloop i letter Hin.
  - inversion Hin.
  - cbn [placeLoop] in Hloop.
    destruct (grid_set grid _ _ l) as [g1|] eqn:Hset; [|discriminate].
    apply elem_of_cons in Hin as [[= -> ->] | Hin].
    + eapply grid_set_Some_in. exact Hset.
    + eapply IH; eassumption.
Qed.

Lemma placeLoop_total its : forall grid,
  grid_ok grid ->
  (forall i letter, (i, letter) ∈ its ->
     0 <= (cell i).1 < gridSize /\ 0 <= (cell i).2 < gridSize) ->
  exists grid', placeLoop grid row col dRow dCol its = Some grid'.
Proof.
  induction its as [|[j l] its IH]; intros grid Hok Hin.
  - now exists grid.
  - cbn [placeLoop].
    destruct (Hin j l ltac:(left)) as [Hr Hc].
    destruct (grid_set_ok grid _ _ l Hok Hr Hc) as [g1 Hg1].
    unfold cellAt in Hg1. simpl in Hg1. rewrite Hg1.
    apply IH; [eapply grid_set_preserves_ok; eassumption|].
    intros i letter Hi. apply (Hin i letter). now right.
Qed.

Lemma placeLoop_preserves_ok its : forall grid grid',
  placeLoop grid row col dRow dCol its = Some grid' ->
  grid_ok grid -> grid_ok grid'.
Proof.
  induction its as [|[j l] its IH]; intros grid grid' Hloop Hok.
  - now injection Hloop as <-.
  - cbn [placeLoop] in Hloop.
    destruct (grid_set grid _ _ l) as [g1|] eqn:Hset; [|discriminate].
    eapply IH; [eassumption|]. eapply grid_set_preserves_ok; eassumption.
Qed.

(** Frame: a cell that is none of the visited cells is unchanged. *)
Lemma placeLoop_frame its : forall grid grid' r c,
  placeLoop grid row col dRow dCol its = Some grid' ->
  (forall i letter, (i, letter) ∈ its -> (r, c) <> cell i) ->
  grid_get grid' r c = grid_get grid r c.
Proof.
  induction its as [|[j l] its IH]; intros grid grid' r c Hloop Hoff.
  - now injection Hloop as <-.
  - cbn [placeLoop] in Hloop.
    destruct (grid_set grid _ _ l) as [g1|] eqn:Hset; [|discriminate].
    rewrite (IH g1 grid' r c Hloop).
    + eapply grid_get_set_ne; [exact Hset|]. apply (Hoff j l). now left.
    + intros i letter Hi. apply (Hoff i letter). now right.
Qed.

(** Each visited cell ends up holding its letter, provided distinct
    offsets are distinct cells. *)
Lemma placeLoop_written its : forall grid grid',
  placeLoop grid row col dRow dCol its = Some grid' ->
  NoDup (map fst its) ->
  (forall i j, i ∈ map fst its -> j ∈ map fst its ->
     cell i = cell j -> i = j) ->
  forall i letter, (i, letter) ∈ its ->
    grid_get grid' (cell i).1 (cell i).2 = Some letter.
Proof.
  induction its as [|[j l] its IH];
    intros grid grid' Hloop Hnd Hinj i letter Hin.
  - inversion Hin.
  - cbn [placeLoop] in Hloop.
    destruct (grid_set grid _ _ l) as [g1|] eqn:Hset; [|discriminate].
    simpl in Hnd. apply NoDup_cons in Hnd as [Hj Hnd].
    apply elem_of_cons in Hin as [[= -> ->] | Hin].
    + rewrite (placeLoop_frame its g1 grid' _ _ Hloop).
      * eapply grid_get_set_eq. exact Hset.
      * intros i letter Hi Heq. apply Hj.
        assert (Hfst : i ∈ map fst its)
          by (apply list_elem_of_fmap; exists (i, letter); auto).
        assert (Hji : j = i); [|now subst j].
        apply Hinj; [simpl; now left | simpl; now right |].
        exact Heq.
    + eapply IH; try eassumption.
      intros a b Ha Hb. apply Hinj; now right.
Qed.

End Loops.

(** ** Geometry of a path *)

Lemma in_grid_moderate (z : Z) : 0 <= z < gridSize -> moderate z.
Proof. unfold gridSize, moderate. lia. Qed.

Lemma cellAt_exact row col dRow dCol i :
  unit_delta dRow -> unit_delta dCol -> moderate row -> moderate col ->
  0 <= i < 2 ^ 62 ->
  cellAt row col dRow dCol i = (row + dRow * i, col + dCol * i).
Proof.
  intros HdR HdC Hr Hc Hi. unfold cellAt, moderate in *.
  rewrite !coord_exact by (assumption || lia). reflexivity.
Qed.

Lemma cellAt_inj row col dRow dCol i j :
  unit_delta dRow -> unit_delta dCol -> dRow <> 0 \/ dCol <> 0 ->
  moderate row -> moderate col ->
  0 <= i < 2 ^ 62 -> 0 <= j < 2 ^ 62 ->
  cellAt row col dRow dCol i = cellAt row col dRow dCol j -> i = j.
Proof.
  intros HdR HdC Hnz Hr Hc Hi Hj.
  rewrite !cellAt_exact by assumption. intros [= H1 H2].
  unfold unit_delta in *. nia.
Qed.

(** The bounds test, read on exact integers. *)
Lemma endOutOfBounds_false wordLen row col direction dRow dCol :
  getDirectionDeltas direction = (dRow, dCol) ->
  moderate row -> moderate col -> 0 <= wordLen < 2 ^ 62 ->
  endOutOfBounds wordLen row col direction = false <->
  0 <= row + dRow * (wordLen - 1) < gridSize /\
  0 <= col + dCol * (wordLen - 1) < gridSize.
Proof.
  intros Hd Hr Hc Hn. unfold endOutOfBounds. rewrite Hd.
  destruct (getDirectionDeltas_unit _ _ _ Hd) as (HdR & HdC & _).
  rewrite sub1_exact by lia.
  unfold moderate in *. rewrite !coord_exact by (assumption || lia).
  rewrite !orb_false_iff, !Z.ltb_ge, !Z.geb_leb, !Z.leb_gt. lia.
Qed.

(** If the end cell is on the grid, so is every cell of the path. *)
Lemma path_in_bounds wordLen row col direction dRow dCol i :
  getDirectionDeltas direction = (dRow, dCol) ->
  0 <= row < gridSize -> 0 <= col < gridSize -> 0 <= wordLen < 2 ^ 62 ->
  endOutOfBounds wordLen row col direction = false ->
  0 <= i < wordLen ->
  cellAt row col dRow dCol i = (row + dRow * i, col + dCol * i) /\
  0 <= row + dRow * i < gridSize /\ 0 <= col + dCol * i < gridSize.
Proof.
  intros Hd Hr Hc Hn Hend Hi.
  destruct (getDirectionDeltas_unit _ _ _ Hd) as (HdR & HdC & _).
  apply (endOutOfBounds_false _ _ _ _ _ _ Hd) in Hend;
    try (apply in_grid_moderate; assumption); [|assumption].
  split.
  - apply cellAt_exact; try assumption;
      try (apply in_grid_moderate; assumption). lia.
  - unfold unit_delta in *. nia.
Qed.

(** A word longer than the grid side never passes the bounds test. *)
Lemma too_long_rejected wordLen row col direction :
  0 <= row < gridSize -> 0 <= col < gridSize ->
  gridSize < wordLen < 2 ^ 62 ->
  endOutOfBounds wordLen row col direction = true.
Proof.
  intros Hr Hc Hn.
  destruct (getDirectionDeltas direction) as [dRow dCol] eqn:Hd.
  destruct (getDirectionDeltas_unit _ _ _ Hd) as (HdR & HdC & Hnz).
  destruct (endOutOfBounds wordLen row col direction) eqn:E; [reflexivity|].
  apply (endOutOfBounds_false _ _ _ _ _ _ Hd) in E;
    try (apply in_grid_moderate; assumption); [|lia].
  unfold unit_delta, gridSize in *. nia.
Qed.

Lemma wrap_high (z : Z) : 2 ^ 63 <= z < 2 ^ 64 -> GoInt.wrap z = z - 2 ^ 64.
Proof.
  intros Hz. unfold GoInt.wrap.
  replace (z + 2 ^ 63) with (z - 2 ^ 63 + 1 * 2 ^ 64) by lia.
  rewrite Z_mod_plus_full, Z.mod_small; lia.
Qed.

Lemma add_start_cases (x y : Z) :
  0 <= x < gridSize -> - 2 ^ 63 < y < 2 ^ 63 ->
  GoInt.add x y = x + y \/ GoInt.add x y < 0.
Proof.
  unfold gridSize, GoInt.add. intros Hx Hy.
  destruct (Z_lt_le_dec (x + y) (2 ^ 63)) as [Hlt | Hge].
  - left. apply wrap_small.
    unfold GoInt.in_range, GoInt.min_int, GoInt.max_int. lia.
  - right. rewrite wrap_high; lia.
Qed.

(** Whatever its length, a string that passes the bounds test from a
    start cell on the grid is no longer than the grid side. *)
Lemma fits_short wordLen row col direction :
  0 <= row < gridSize -> 0 <= col < gridSize ->
  0 <= wordLen <= GoInt.max_int ->
  endOutOfBounds wordLen row col direction = false ->
  wordLen <= gridSize.
Proof.
  intros Hr Hc Hn. unfold endOutOfBounds.
  destruct (getDirectionDeltas direction) as [dRow dCol] eqn:Hd.
  destruct (getDirectionDeltas_unit _ _ _ Hd) as (HdR & HdC & Hnz).
  unfold GoInt.max_int in Hn.
  assert (Hsub : GoInt.sub wordLen 1 = wordLen - 1).
  { apply wrap_small. unfold GoInt.in_range, GoInt.min_int, GoInt.max_int. lia. }
  assert (Hmul : forall d, unit_delta d ->
            GoInt.mul d (wordLen - 1) = d * (wordLen - 1) /\
            - 2 ^ 63 < d * (wordLen - 1) < 2 ^ 63).
  { intros d Hd'. split.
    - apply wrap_small. unfold GoInt.in_range, GoInt.min_int, GoInt.max_int.
      destruct Hd' as [-> | [-> | ->]]; lia.
    - destruct Hd' as [-> | [-> | ->]]; lia. }
  rewrite Hsub. destruct (Hmul dRow HdR) as [-> HbR].
  destruct (Hmul dCol HdC) as [-> HbC].
  rewrite !orb_false_iff, !Z.ltb_ge, !Z.geb_leb, !Z.leb_gt.
  intros [[[H1 H2] H3] H4].
  destruct (add_start_cases row (dRow * (wordLen - 1)) Hr HbR) as [E1 | E1];
    [|lia].
  destruct (add_start_cases col (dCol * (wordLen - 1)) Hc HbC) as [E2 | E2];
    [|lia].
  unfold unit_delta, gridSize in *. nia.
Qed.

(** ** canPlaceWord and placeWord on a well-formed grid *)

Lemma grid_le_refl g : grid_le g g.
Proof. intros r c v H _. exact H. Qed.

Lemma grid_le_trans g1 g2 g3 : grid_le g1 g2 -> grid_le g2 g3 -> grid_le g1 g3.
Proof. intros H12 H23 r c v H Hv. apply H23, Hv. apply H12, Hv. exact H. Qed.

Section Placement.

Variables (word : string) (row col direction dRow dCol : Z).
Hypothesis Hdelta : getDirectionDeltas direction = (dRow, dCol).

Lemma canPlaceWord_unfold grid :
  canPlaceWord grid word row col direction =
  if endOutOfBounds (len word) row col direction then Some false
  else conflictLoop grid row col dRow dCol (rangeString word).
Proof. unfold canPlaceWord. now rewrite Hdelta. Qed.

Lemma placeWord_unfold grid :
  placeWord grid word row col direction =
  placeLoop grid row col dRow dCol (rangeString word).
Proof. unfold placeWord. now rewrite Hdelta. Qed.

Lemma canPlaceWord_true grid :
  canPlaceWord grid word row col direction = Some true ->
  endOutOfBounds (len word) row col direction = false /\
  forall i letter, (i, letter) ∈ rangeString word ->
    exists v, grid_get grid (cellAt row col dRow dCol i).1
                            (cellAt row col dRow dCol i).2 = Some v /\
              (v = 0 \/ v = letter).
Proof.
  rewrite canPlaceWord_unfold.
  destruct (endOutOfBounds _ _ _ _); [discriminate|].
  intros H. split; [reflexivity|]. now apply conflictLoop_true.
Qed.

Hypothesis Hrow : 0 <= row < gridSize.
Hypothesis Hcol : 0 <= col < gridSize.
Hypothesis Hlen : len word < 2 ^ 62.

Lemma visited_in_bounds i letter :
  endOutOfBounds (len word) row col direction = false ->
  (i, letter) ∈ rangeString word ->
  cellAt row col dRow dCol i = (row + dRow * i, col + dCol * i) /\
  0 <= row + dRow * i < gridSize /\ 0 <= col + dCol * i < gridSize.
Proof.
  intros Hend Hin. apply rangeString_index in Hin.
  pose proof (len_nonneg word).
  eapply path_in_bounds; eauto; lia.
Qed.

Lemma canPlaceWord_total grid :
  grid_ok grid -> exists b, canPlaceWord grid word row col direction = Some b.
Proof.
  intros Hok. rewrite canPlaceWord_unfold.
  destruct (endOutOfBounds _ _ _ _) eqn:Hend; [now exists false|].
  apply conflictLoop_total; [assumption|].
  intros i letter Hin.
  destruct (visited_in_bounds i letter Hend Hin) as (-> & Hb). exact Hb.
Qed.

Lemma placeWord_total grid :
  grid_ok grid -> endOutOfBounds (len word) row col direction = false ->
  exists grid', placeWord grid word row col direction = Some grid' /\
                grid_ok grid'.
Proof.
  intros Hok Hend. rewrite placeWord_unfold.
  destruct (placeLoop_total row col dRow dCol (rangeString word) grid Hok)
    as [g' Hg'].
  - intros i letter Hin.
    destruct (visited_in_bounds i letter Hend Hin) as (-> & Hb). exact Hb.
  - exists g'. split; [exact Hg'|].
    eapply placeLoop_preserves_ok; eassumption.
Qed.

Lemma visited_inj i j :
  i ∈ map fst (rangeString word) -> j ∈ map fst (rangeString word) ->
  cellAt row col dRow dCol i = cellAt row col dRow dCol j -> i = j.
Proof.
  intros Hi Hj.
  apply list_elem_of_fmap in Hi as ([i' li] & -> & Hi).
  apply list_elem_of_fmap in Hj as ([j' lj] & -> & Hj).
  apply rangeString_index in Hi, Hj. simpl.
  destruct (getDirectionDeltas_unit _ _ _ Hdelta) as (HdR & HdC & Hnz).
  apply cellAt_inj; try assumption;
    try (apply in_grid_moderate; assumption); lia.
Qed.

(** After [placeWord], each visited cell holds its letter. *)
Lemma placeWord_written grid grid' i letter :
  placeWord grid word row col direction = Some grid' ->
  (i, letter) ∈ rangeString word ->
  grid_get grid' (cellAt row col dRow dCol i).1
                 (cellAt row col dRow dCol i).2 = Some letter.
Proof.
  rewrite placeWord_unfold. intros Hp Hin.
  eapply placeLoop_written; eauto using rangeString_NoDup, visited_inj.
Qed.

(** A placement that passed the check keeps every letter of the grid. *)
Lemma placeWord_grid_le grid grid' :
  canPlaceWord grid word row col direction = Some true ->
  placeWord grid word row col direction = Some grid' ->
  grid_le grid grid'.
Proof.
  intros Hcan Hp r c v Hget Hv.
  apply canPlaceWord_true in Hcan as [_ Hfree].
  destruct (decide (Exists (fun p => cellAt row col dRow dCol p.1 = (r, c))
                           (rangeString word))) as [Hex | Hex].
  - apply Exists_exists in Hex as ([i letter] & Hin & Hcell). simpl in Hcell.
    pose proof (placeWord_written grid grid' i letter Hp Hin) as Hw.
    destruct (Hfree i letter Hin) as (v' & Hv' & Hcase).
    rewrite Hcell in Hw, Hv'. simpl in Hw, Hv'.
    rewrite Hget in Hv'. injection Hv' as <-.
    destruct Hcase as [-> | ->]; [contradiction | exact Hw].
  - rewrite placeWord_unfold in Hp.
    rewrite (placeLoop_frame _ _ _ _ _ _ _ r c Hp); [exact Hget|].
    intros i letter Hin Heq. apply Hex. apply Exists_exists.
    exists (i, letter). split; [exact Hin | now simpl].
Qed.

End Placement.

(** ** Loop rules *)

Lemma wrap_ge (z : Z) : z < 2 ^ 63 -> z <= GoInt.wrap z.
Proof.
  intros Hz. unfold GoInt.wrap.
  pose proof (Z.mod_pos_bound (z + 2 ^ 63) (2 ^ 64) ltac:(lia)) as Hm.
  pose proof (Z.div_mod (z + 2 ^ 63) (2 ^ 64) ltac:(lia)) as Hd.
  assert ((z + 2 ^ 63) `div` 2 ^ 64 <= 0).
  { assert ((z + 2 ^ 63) `div` 2 ^ 64 < 1); [|lia].
    apply Z.div_lt_upper_bound; lia. }
  nia.
Qed.

Lemma attemptBody_attempts word st st' :
  attemptBody word st = Some st' ->
  a_attempts st' = GoInt.add (a_attempts st) 1.
Proof.
  unfold attemptBody. intros H.
  repeat match type of H with
         | match ?x with _ => _ end = _ => destruct x as [[]|]; try discriminate
         | match ?x with _ => _ end = _ => destruct x; try discriminate
         end; injection H as <-; reflexivity.
Qed.

Lemma attemptBody_decreases word st st' :
  attemptCond st = true ->
  attemptBody word st = Some st' ->
  (attemptMeasure st' < attemptMeasure st)%nat.
Proof.
  unfold attemptCond, attemptMeasure. intros Hc Hb.
  apply attemptBody_attempts in Hb. rewrite Hb.
  apply andb_true_iff in Hc as [_ Hlt]. apply Z.ltb_lt in Hlt.
  unfold maxAttempts in *. unfold GoInt.add.
  pose proof (wrap_ge (a_attempts st + 1) ltac:(lia)). lia.
Qed.


Lemma attemptLoop_eq word st :
  attemptLoop word st =
  if attemptCond st then
    match attemptBody word st with
    | Some st' => attemptLoop word st'
    | None => None
    end
  else Some st.
Proof.
  funelim (attemptLoop word st); rewrite Hc; try rewrite Hb; reflexivity.
Qed.

(** Total-correctness rule for the attempt loop: an invariant that every
    iteration re-establishes holds on exit, where the condition is false. *)
Lemma attemptLoop_inv (I : attemptState -> Prop) word :
  (forall st, I st -> attemptCond st = true ->
     exists st', attemptBody word st = Some st' /\ I st') ->
  forall st, I st ->
    exists st', attemptLoop word st = Some st' /\ I st' /\
                attemptCond st' = false.
Proof.
  intros Hstep st. remember (attemptMeasure st) as n eqn:Hn.
  revert st Hn. induction n as [n IH] using lt_wf_ind. intros st Hn HI.
  rewrite attemptLoop_eq. destruct (attemptCond st) eqn:Hc.
  - destruct (Hstep st HI Hc) as (st1 & Hb & HI1). rewrite Hb.
    apply (IH (attemptMeasure st1)); [|reflexivity|exact HI1].
    subst n. eapply attemptBody_decreases; eassumption.
  - exists st. auto.
Qed.

(** Rule for [foldM]: the invariant is indexed by the elements already
    processed. *)
Lemma foldM_inv {A S : Type} (I : list A -> S -> Prop) (f : S -> A -> option S)
    (l : list A) (s0 : S) :
  I [] s0 ->
  (forall pre a post s, l = pre ++ a :: post -> I pre s ->
     exists s', f s a = Some s' /\ I (pre ++ [a]) s') ->
  exists s', foldM f l s0 = Some s' /\ I l s'.
Proof.
  intros H0 Hstep.
  assert (Hgen : forall post pre s, l = pre ++ post -> I pre s ->
            exists s', foldM f post s = Some s' /\ I l s').
  { induction post as [|a post IH]; intros pre s Hl HI.
    - rewrite app_nil_r in Hl. subst pre. now exists s.
    - destruct (Hstep pre a post s Hl HI) as (s1 & Hf & HI1).
      cbn [foldM]. rewrite Hf.
      apply (IH (pre ++ [a])); [|exact HI1].
      now rewrite <- app_assoc. }
  now apply (Hgen l [] s0).
Qed.

(** ** The random source *)

Lemma Intn_spec n s :
  0 < n ->
  exists x, Intn n s = Some (x, mkRng (draws s) (S (pos s))) /\ 0 <= x < n.
Proof.
  intros Hn. unfold Intn. destruct (n <=? 0) eqn:E; [apply Z.leb_le in E; lia|].
  eexists. split; [reflexivity|]. apply Z.mod_pos_bound. lia.
Qed.

(** ** One attempt *)

(** An attempt never panics; it either leaves grid and placements alone
    or records one accepted placement.  Either way it consumes three
    draws and adds one to [attempts]. *)
Lemma attemptBody_cases word st :
  grid_ok (a_grid st) -> go_string word ->
  attemptBody word st =
    Some (mkAttempt (a_grid st) (a_placements st) (a_placed st)
            (GoInt.add (a_attempts st) 1) (after3 (a_rand st)))
  \/ exists p g', accepted (a_grid st) word p g' /\
       attemptBody word st =
         Some (mkAttempt g' (a_placements st ++ [p]) true
                 (GoInt.add (a_attempts st) 1) (after3 (a_rand st))).
Proof.
  intros Hok Hgo. unfold attemptBody.
  destruct (Intn_spec gridSize (a_rand st) ltac:(reflexivity))
    as (row & -> & Hrow).
  destruct (Intn_spec gridSize (mkRng (draws (a_rand st)) (S (pos (a_rand st))))
              ltac:(reflexivity)) as (col & -> & Hcol).
  cbn [draws pos].
  destruct (Intn_spec 8 (mkRng (draws (a_rand st)) (S (S (pos (a_rand st)))))
              ltac:(reflexivity)) as (direction & -> & Hdir).
  cbn [draws pos].
  destruct (getDirectionDeltas direction) as [dRow dCol] eqn:Hd.
  destruct (endOutOfBounds (len word) row col direction) eqn:Hend.
  { rewrite (canPlaceWord_unfold word row col direction dRow dCol Hd), Hend.
    left. reflexivity. }
  assert (Hlen : len word < 2 ^ 62).
  { pose proof (fits_short (len word) row col direction Hrow Hcol
                  (conj (len_nonneg word) Hgo) Hend).
    unfold gridSize in *. lia. }
  destruct (canPlaceWord_total word row col direction dRow dCol Hd
              Hrow Hcol Hlen (a_grid st) Hok) as [b Hb].
  rewrite Hb. destruct b; [right | left; reflexivity].
  destruct (placeWord_total word row col direction dRow dCol Hd
              Hrow Hcol Hlen (a_grid st) Hok Hend) as (g' & Hg' & _).
  rewrite Hg'. exists (mkPlacement word row col direction), g'.
  split; [|reflexivity]. unfold accepted. cbn. auto 10.
Qed.

(** An accepted word is no longer than the grid side. *)
Lemma accepted_short g word p g' :
  accepted g word p g' -> go_string word -> len word <= gridSize.
Proof.
  intros (_ & Hr & Hc & _ & Hcan & _) Hgo.
  destruct (getDirectionDeltas (Direction p)) as [dRow dCol] eqn:Hd.
  apply (canPlaceWord_true _ _ _ _ _ _ Hd) in Hcan as [Hend _].
  exact (fits_short _ _ _ _ Hr Hc (conj (len_nonneg word) Hgo) Hend).
Qed.

Lemma short_moderate (w : string) : len w <= gridSize -> len w < 2 ^ 62.
Proof. unfold gridSize. lia. Qed.

Lemma accepted_ok g word p g' :
  accepted g word p g' -> grid_ok g -> grid_ok g'.
Proof.
  intros (_ & Hr & Hc & _ & Hcan & Hp) Hok.
  destruct (getDirectionDeltas (Direction p)) as [dRow dCol] eqn:Hd.
  rewrite (placeWord_unfold _ _ _ _ _ _ Hd) in Hp.
  eapply placeLoop_preserves_ok; eassumption.
Qed.

(** ** The attempt loop for one word *)

Lemma add1_exact (z : Z) : 0 <= z < maxAttempts -> GoInt.add z 1 = z + 1.
Proof.
  unfold maxAttempts. intros Hz. apply wrap_small.
  unfold GoInt.in_range, GoInt.min_int, GoInt.max_int. lia.
Qed.

Lemma attemptLoop_outcome word g pl r :
  grid_ok g -> go_string word ->
  exists a, attemptLoop word (mkAttempt g pl false 0 r) = Some a /\
            loop_result word g pl r a /\
            (a_placed a = false -> a_attempts a = maxAttempts).
Proof.
  intros Hok Hlen.
  destruct (attemptLoop_inv (loop_result word g pl r) word) with
    (st := mkAttempt g pl false 0 r) as (a & Hrun & Hres & Hexit).
  - intros st (Hatt & Hdraws & Hpos & Hcase) Hcond.
    unfold attemptCond in Hcond. apply andb_true_iff in Hcond as [Hnp Hlt].
    apply negb_true_iff in Hnp. apply Z.ltb_lt in Hlt.
    destruct Hcase as [(_ & Hg & Hpl) | (Hpl & _)]; [|congruence].
    assert (Hokst : grid_ok (a_grid st)) by now rewrite Hg.
    destruct (attemptBody_cases word st Hokst Hlen)
      as [Hb | (p & g' & Hacc & Hb)];
      rewrite Hb; eexists; (split; [reflexivity|]);
      unfold loop_result; cbn [a_attempts a_rand a_placed a_grid a_placements
                               after3 draws pos];
      rewrite add1_exact by lia;
      (split; [lia|]); (split; [assumption|]); (split; [lia|]).
    + left. auto.
    + right. split; [reflexivity|]. split; [lia|].
      exists p. rewrite <- Hg, Hpl. auto.
  - unfold loop_result, maxAttempts. cbn. split; [lia|]. split; [reflexivity|].
    split; [lia|]. left. auto.
  - exists a. split; [exact Hrun|]. split; [exact Hres|].
    intros Hnp. unfold attemptCond in Hexit. rewrite Hnp in Hexit.
    simpl in Hexit. apply Z.ltb_ge in Hexit.
    destruct Hres as (Hatt & _). lia.
Qed.

(** After [placeWord], a cell holds either a letter of the word written
    at one of the visited offsets, or what it held before. *)
Lemma placeWord_cell_cases word row col direction dRow dCol grid grid' r c v :
  getDirectionDeltas direction = (dRow, dCol) ->
  0 <= row < gridSize -> 0 <= col < gridSize -> len word < 2 ^ 62 ->
  placeWord grid word row col direction = Some grid' ->
  grid_get grid' r c = Some v ->
  (exists i, (i, v) ∈ rangeString word /\ cellAt row col dRow dCol i = (r, c))
  \/ grid_get grid r c = Some v.
Proof.
  intros Hd Hrow Hcol Hlen Hp Hget.
  destruct (decide (Exists (fun p => cellAt row col dRow dCol p.1 = (r, c))
                           (rangeString word))) as [Hex | Hex].
  - left. apply Exists_exists in Hex as ([i letter] & Hin & Hcell).
    simpl in Hcell.
    pose proof (placeWord_written word row col direction dRow dCol Hd
                  Hrow Hcol Hlen grid grid' i letter Hp Hin) as Hw.
    rewrite Hcell in Hw. simpl in Hw. rewrite Hget in Hw.
    injection Hw as ->. eauto.
  - right. rewrite (placeWord_unfold _ _ _ _ _ _ Hd) in Hp.
    rewrite <- (placeLoop_frame _ _ _ _ _ _ _ r c Hp); [exact Hget|].
    intros i letter Hin Heq. apply Hex. apply Exists_exists.
    exists (i, letter). split; [exact Hin | now simpl].
Qed.

(** ** Placements and the grid *)

Lemma reads_le g g' p : grid_le g g' -> reads g p -> reads g' p.
Proof. intros Hle Hr i letter Hin Hnz. apply Hle; auto. Qed.

Lemma accepted_fits g word p g' :
  accepted g word p g' -> go_string word -> placement_fits p.
Proof.
  intros Hacc Hgo. pose proof (accepted_short _ _ _ _ Hacc Hgo) as Hlen.
  destruct Hacc as (Hw & Hr & Hc & _ & Hcan & _).
  destruct (getDirectionDeltas (Direction p)) as [dRow dCol] eqn:Hd.
  apply (canPlaceWord_true _ _ _ _ _ _ Hd) in Hcan as [Hend _].
  unfold placement_fits. rewrite Hw. auto.
Qed.

Lemma accepted_reads g word p g' :
  accepted g word p g' -> go_string word -> reads g' p.
Proof.
  intros Hacc Hgo. pose proof (accepted_fits _ _ _ _ Hacc Hgo) as Hfit.
  pose proof (short_moderate _ (accepted_short _ _ _ _ Hacc Hgo)) as Hlen.
  destruct Hacc as (Hw & Hr & Hc & _ & Hcan & Hp).
  destruct Hfit as (_ & _ & _ & Hend). rewrite Hw in Hend.
  intros i letter Hin _. rewrite Hw in Hin.
  destruct (getDirectionDeltas (Direction p)) as [dRow dCol] eqn:Hd.
  pose proof (placeWord_written word _ _ _ dRow dCol Hd Hr Hc Hlen g g'
                i letter Hp Hin) as Hwr.
  destruct (visited_in_bounds word _ _ _ dRow dCol Hd Hr Hc Hlen i letter
              Hend Hin) as (Hcell & _).
  rewrite Hcell in Hwr. exact Hwr.
Qed.

Lemma accepted_le g word p g' :
  accepted g word p g' -> go_string word -> grid_le g g'.
Proof.
  intros Hacc Hgo.
  pose proof (short_moderate _ (accepted_short _ _ _ _ Hacc Hgo)) as Hlen.
  destruct Hacc as (_ & Hr & Hc & _ & Hcan & Hp).
  destruct (getDirectionDeltas (Direction p)) as [dRow dCol] eqn:Hd.
  exact (placeWord_grid_le word _ _ _ dRow dCol Hd Hr Hc Hlen g g' Hcan Hp).
Qed.

Section Engine.

(** [Q] is any property of the letters of the words; with [fun _ => True]
    the invariant below holds for every list of words. *)
Variable Q : Z -> Prop.

Lemma accepted_cells g word p g' :
  accepted g word p g' -> word_in Q word -> cells_in Q g -> cells_in Q g'.
Proof.
  intros Hacc [Hgo HQ] Hcells r c v Hget.
  pose proof (short_moderate _ (accepted_short _ _ _ _ Hacc Hgo)) as Hlen.
  destruct Hacc as (_ & Hr & Hc & _ & _ & Hp).
  destruct (getDirectionDeltas (Direction p)) as [dRow dCol] eqn:Hd.
  destruct (placeWord_cell_cases _ _ _ _ _ _ _ _ _ _ _ Hd Hr Hc Hlen Hp Hget)
    as [(i & Hin & _) | Hold].
  - right. eapply HQ. exact Hin.
  - eapply Hcells. exact Hold.
Qed.

Lemma placeOneWord_inv r0 ws st word :
  word_in Q word -> engine_inv Q r0 ws st ->
  exists st', placeOneWord st word = Some st' /\
              engine_inv Q r0 (ws ++ [word]) st' /\
              grid_le (e_grid st) (e_grid st').
Proof.
  intros Hw (Hok & Hcells & Hpl & Hsub & Hout & Hcount & Hdr & Hpos).
  pose proof Hw as [Hlen _].
  destruct (attemptLoop_outcome word (e_grid st) (e_placements st) (e_rand st)
              Hok Hlen) as (a & Hrun & Hres & Hmax).
  unfold placeOneWord. rewrite Hrun. eexists. split; [reflexivity|].
  destruct Hres as (Hatt & Hdraws & Hp3 & Hcase).
  assert (Hposa : (pos r0 <= pos (a_rand a)
                   <= pos r0 + 300 * (length ws + 1))%nat).
  { unfold maxAttempts in Hatt. lia. }
  destruct Hcase as [(Hnp & Hg & Hp) | (Hpd & _ & p & Hacc & Hp)].
  - rewrite Hnp, Hg, Hp. unfold engine_inv.
    cbn [e_grid e_placements e_out e_rand].
    rewrite map_app, !length_app. simpl map. simpl length.
    split; [|apply grid_le_refl].
    split_and!; try assumption; try lia; try congruence.
    + now apply sublist_inserts_r.
    + apply sublist_app; [assumption | reflexivity].
  - rewrite Hpd, Hp. unfold engine_inv.
    cbn [e_grid e_placements e_out e_rand].
    rewrite !map_app, !length_app. simpl map. simpl length.
    pose proof (accepted_le _ _ _ _ Hacc Hlen) as Hle.
    split; [|exact Hle].
    split_and!; try lia; try congruence.
    + eapply accepted_ok; eassumption.
    + eapply accepted_cells; eassumption.
    + apply Forall_app. split.
      * eapply Forall_impl; [exact Hpl|]. intros q [Hfit Hrd].
        split; [exact Hfit | eapply reads_le; eassumption].
      * apply Forall_singleton. split.
        -- eapply accepted_fits; eassumption.
        -- eapply accepted_reads; eassumption.
    + destruct Hacc as (-> & _).
      apply sublist_app; [assumption | reflexivity].
    + now apply sublist_inserts_r.
Qed.

End Engine.

(** ** The fill pass *)

Lemma fill_rel_refl g : grid_ok g -> fill_rel g g.
Proof. intros Hok. split; [exact Hok | auto]. Qed.

Lemma fill_rel_trans g1 g2 g3 :
  fill_rel g1 g2 -> fill_rel g2 g3 -> fill_rel g1 g3.
Proof.
  intros [_ H12] [Hok H23]. split; [exact Hok|].
  intros r c v Hv. destruct (H23 r c v Hv) as [H2 | [H2 Hl]].
  - auto.
  - destruct (H12 r c 0 H2) as [H1 | [H1 ?]]; [auto | lia].
Qed.

Lemma fill_rel_le g g' : fill_rel g g' -> grid_le g g'.
Proof.
  intros [Hok H] r c v Hget Hv.
  destruct (grid_get_Some_in _ _ _ _ Hget) as [Hr Hc].
  destruct (grid_get_ok g' r c Hok Hr Hc) as [v' Hv'].
  destruct (H r c v' Hv') as [Hsame | [H0 _]]; congruence.
Qed.

Lemma fill_rel_nonzero g g' r c :
  fill_rel g g' -> nonzero_at g r c -> nonzero_at g' r c.
Proof.
  intros [_ H] Hnz v Hv. destruct (H r c v Hv) as [Hsame | [H0 _]].
  - now apply Hnz.
  - now apply Hnz in H0.
Qed.

Lemma gridRange_spec (i : Z) : i ∈ gridRange <-> 0 <= i < gridSize.
Proof. unfold gridRange. rewrite elem_of_seqZ. unfold gridSize. lia. Qed.

Lemma fillCell_spec row col g r :
  grid_ok g -> 0 <= row < gridSize -> 0 <= col < gridSize ->
  exists g' r', fillCell row (g, r) col = Some (g', r') /\
    fill_rel g g' /\ nonzero_at g' row col /\ draws r' = draws r.
Proof.
  intros Hok Hr Hc. unfold fillCell.
  destruct (grid_get_ok g row col Hok Hr Hc) as [v Hv]. rewrite Hv.
  destruct (v =? 0) eqn:E.
  - apply Z.eqb_eq in E. subst v.
    destruct (Intn_spec 26 r ltac:(reflexivity)) as (x & -> & Hx).
    destruct (grid_set_ok g row col (rune_add 65 (rune_of_int x)) Hok Hr Hc)
      as [g' Hset].
    rewrite Hset. do 2 eexists. split; [reflexivity|].
    assert (Hletter : rune_add 65 (rune_of_int x) = 65 + x).
    { unfold rune_add, rune_of_int.
      rewrite (wrap32_small x) by lia. apply wrap32_small. lia. }
    rewrite Hletter in Hset. split_and!.
    + split; [eapply grid_set_preserves_ok; eassumption|].
      intros r1 c1 v1 Hget.
      destruct (decide ((r1, c1) = (row, col))) as [[= -> ->]|Hne].
      * rewrite (grid_get_set_eq _ _ _ _ _ Hset) in Hget. injection Hget as <-.
        right. split; [exact Hv | lia].
      * rewrite (grid_get_set_ne _ _ _ _ _ _ _ Hset Hne) in Hget. auto.
    + intros v1 Hget. rewrite (grid_get_set_eq _ _ _ _ _ Hset) in Hget.
      injection Hget as <-. lia.
    + reflexivity.
  - apply Z.eqb_neq in E. do 2 eexists. split; [reflexivity|]. split_and!.
    + now apply fill_rel_refl.
    + intros v1 Hget. congruence.
    + reflexivity.
Qed.

Lemma fillGrid_spec g r :
  grid_ok g ->
  exists g' r', fillGrid (g, r) = Some (g', r') /\
    fill_rel g g' /\ (forall row col, nonzero_at g' row col) /\
    draws r' = draws r.
Proof.
  intros Hok. unfold fillGrid.
  destruct (foldM_inv
    (fun rows (s : list (list Z) * rng) =>
       fill_rel g s.1 /\ draws s.2 = draws r /\
       forall row col, row ∈ rows -> nonzero_at s.1 row col)
    (fun s row => foldM (fillCell row) gridRange s) gridRange (g, r))
    as ([g' r'] & Hrun & Hrel & Hdr & Hnz).
  - split_and!; [now apply fill_rel_refl | reflexivity |].
    intros row col Hin. inversion Hin.
  - intros rows row post [g1 r1] Hsplit (Hrel1 & Hdr1 & Hnz1). simpl in *.
    assert (Hrow : 0 <= row < gridSize).
    { apply gridRange_spec. rewrite Hsplit. apply elem_of_app. right. now left. }
    destruct (foldM_inv
      (fun cols (s : list (list Z) * rng) =>
         fill_rel g1 s.1 /\ draws s.2 = draws r /\
         forall col, col ∈ cols -> nonzero_at s.1 row col)
      (fillCell row) gridRange (g1, r1))
      as ([g2 r2] & Hrun2 & Hrel2 & Hdr2 & Hnz2).
    + split_and!; [apply fill_rel_refl, Hrel1 | exact Hdr1 |].
      intros col Hin. inversion Hin.
    + intros cols col post' [g3 r3] Hsplit' (Hrel3 & Hdr3 & Hnz3). simpl in *.
      assert (Hcol : 0 <= col < gridSize).
      { apply gridRange_spec. rewrite Hsplit'. apply elem_of_app. right. now left. }
      destruct (fillCell_spec row col g3 r3 (proj1 Hrel3) Hrow Hcol)
        as (g4 & r4 & Hcell & Hrel4 & Hnz4 & Hdr4).
      exists (g4, r4). split; [exact Hcell|]. simpl. split_and!.
      * eapply fill_rel_trans; eassumption.
      * congruence.
      * intros c Hin. apply elem_of_app in Hin as [Hin | Hin].
        -- eapply fill_rel_nonzero; [exact Hrel4 | now apply Hnz3].
        -- apply list_elem_of_singleton in Hin. now subst c.
    + exists (g2, r2). split; [exact Hrun2|]. simpl in *. split_and!.
      * eapply fill_rel_trans; eassumption.
      * exact Hdr2.
      * intros row' col Hin. apply elem_of_app in Hin as [Hin | Hin].
        -- eapply fill_rel_nonzero; [exact Hrel2 | now apply Hnz1].
        -- apply list_elem_of_singleton in Hin. subst row'.
           intros v Hv. apply (Hnz2 col); [|exact Hv].
           apply gridRange_spec. now apply grid_get_Some_in in Hv.
  - exists g', r'. simpl in *. split; [exact Hrun|]. split_and!; try assumption.
    intros row col v Hv. apply (Hnz row col); [|exact Hv].
    apply gridRange_spec. now apply grid_get_Some_in in Hv.
Qed.

(** ** The whole generation *)

Lemma zeroGrid_ok : grid_ok zeroGrid.
Proof.
  split; [reflexivity|]. unfold zeroGrid.
  apply Forall_forall. intros line Hin.
  apply elem_of_replicate in Hin as [-> _]. now rewrite length_replicate.
Qed.

Lemma zeroGrid_get r c v : grid_get zeroGrid r c = Some v -> v = 0.
Proof.
  unfold grid_get, zeroGrid. destruct (in_grid r && in_grid c); [|discriminate].
  destruct (replicate _ _ !! Z.to_nat r) as [line|] eqn:Hline; [|discriminate].
  apply lookup_replicate in Hline as [-> _].
  intros Hv. now apply lookup_replicate in Hv as [-> _].
Qed.

Lemma initGrid_zero : initGrid zeroGrid = Some zeroGrid.
Proof. reflexivity. Qed.

(** What a run returns.  [Q] is a property of the letters of all the
    words; the grid comes back full, each cell a letter of a word or a
    fill letter A-Z, and every recorded placement lies on the grid and
    reads back from it. *)
Lemma generate_spec (Q : Z -> Prop) (words : list string) (r : rng) :
  Forall (word_in Q) words ->
  exists grid pls r' out,
    generateWordSearchGrid words r = Some (grid, pls, r', out) /\
    grid_ok grid /\
    (forall row col v, grid_get grid row col = Some v ->
       v <> 0 /\ (Q v \/ 65 <= v <= 90)) /\
    Forall (fun p => placement_fits p /\ reads grid p) pls /\
    sublist (map Word pls) words /\
    sublist out (map warning words) /\
    (length pls + length out = length words)%nat /\
    draws r' = draws r.
Proof.
  intros Hwords. unfold generateWordSearchGrid. rewrite initGrid_zero.
  destruct (foldM_inv (engine_inv Q r) placeOneWord words
              (mkEngine zeroGrid [] r [])) as (st & Hrun & Hinv).
  - unfold engine_inv. cbn [e_grid e_placements e_out e_rand map length].
    split_and!; try lia; try reflexivity.
    + apply zeroGrid_ok.
    + intros row col v Hv. left. eapply zeroGrid_get. exact Hv.
    + constructor.
  - intros pre w post s Hsplit Hinv.
    assert (Hw : word_in Q w).
    { rewrite Forall_forall in Hwords. apply Hwords. rewrite Hsplit.
      apply elem_of_app. right. now left. }
    destruct (placeOneWord_inv Q r pre s w Hw Hinv) as (s' & Hs' & Hinv' & _).
    eauto.
  - rewrite Hrun.
    destruct Hinv as (Hok & Hcells & Hpl & Hsub & Hout & Hcount & Hdr & _).
    destruct (fillGrid_spec (e_grid st) (e_rand st) Hok)
      as (g' & r' & Hfill & Hrel & Hnz & Hdr').
    rewrite Hfill. exists g', (e_placements st), r', (e_out st).
    split; [reflexivity|]. split_and!; try assumption; try congruence.
    + exact (proj1 Hrel).
    + intros row col v Hv. split; [eapply Hnz; exact Hv|].
      destruct (proj2 Hrel row col v Hv) as [Hold | [_ Hl]]; [|now right].
      destruct (Hcells row col v Hold) as [-> | HQ]; [|now left].
      exfalso. now apply (Hnz row col 0 Hv).
    + eapply Forall_impl; [exact Hpl|]. intros p [Hfit Hrd].
      split; [exact Hfit|]. eapply reads_le; [|exact Hrd].
      now apply fill_rel_le.
Qed.

(** With no condition on the letters: any list of real strings. *)
Lemma any_word_in (w : string) : go_string w -> word_in (fun _ => True) w.
Proof. intros Hgo. split; auto. Qed.

Lemma short_go_string (w : string) : len w <= gridSize -> go_string w.
Proof. unfold go_string, gridSize, GoInt.max_int. lia. Qed.

(** ** Words of uppercase letters *)

Lemma upper_ascii w : upper_word w -> ascii_bytes (bytes_of w).
Proof.
  intros Hup. eapply Forall_impl; [exact Hup|]. intros b Hb. simpl in *. lia.
Qed.

(** On such a word [range] yields offset [k] with the byte [w[k]]. *)
Lemma ascii_range_lookup w k b :
  ascii_bytes (bytes_of w) ->
  bytes_of w !! k = Some b -> (Z.of_nat k, b) ∈ rangeString w.
Proof.
  intros Hascii Hk. unfold rangeString. rewrite rangeFrom_ascii by assumption.
  apply list_elem_of_lookup. exists k. apply lookup_zip_Some.
  split; [|exact Hk]. apply lookup_seqZ. split; [lia|].
  apply lookup_lt_Some in Hk. lia.
Qed.

Lemma ascii_range_elem w i b :
  ascii_bytes (bytes_of w) ->
  (i, b) ∈ rangeString w -> bytes_of w !! Z.to_nat i = Some b /\ 0 <= i.
Proof.
  intros Hascii Hin. unfold rangeString in Hin.
  rewrite rangeFrom_ascii in Hin by assumption.
  apply list_elem_of_lookup in Hin as [k Hk].
  apply lookup_zip_Some in Hk as [Hseq Hb].
  apply lookup_seqZ in Hseq as [-> _].
  rewrite Z.add_0_l, Nat2Z.id. split; [exact Hb | lia].
Qed.

Lemma upper_word_in w :
  upper_word w -> len w <= gridSize -> word_in (fun v => 65 <= v <= 90) w.
Proof.
  intros Hup Hlen. split; [unfold go_string, GoInt.max_int, gridSize in *; lia|].
  intros i letter Hin.
  apply ascii_range_elem in Hin as [Hb _]; [|now apply upper_ascii].
  unfold upper_word in Hup. rewrite Forall_lookup in Hup. eapply Hup, Hb.
Qed.

Lemma encodeRune_ascii b : 0 <= b <= 127 -> encodeRune b = [b].
Proof.
  intros Hb. unfold encodeRune.
  destruct ((0 <=? b) && (b <=? 127)) eqn:E; [reflexivity|].
  apply andb_false_iff in E as [E | E]; [apply Z.leb_gt in E | apply Z.leb_gt in E];
    lia.
Qed.

(** ** The verifier on a placement that reads back *)

Lemma reads_spells g p :
  upper_word (Word p) -> reads g p -> spells g p.
Proof.
  intros Hup Hrd k b Hk. apply Hrd.
  - apply ascii_range_lookup; [now apply upper_ascii | exact Hk].
  - unfold upper_word in Hup. rewrite Forall_lookup in Hup.
    specialize (Hup k b Hk). simpl in Hup. lia.
Qed.

Lemma extractWord_spells g p :
  upper_word (Word p) -> placement_fits p -> spells g p ->
  extractWord g p = Some (bytes_of (Word p)).
Proof.
  intros Hup (Hr & Hc & Hlen & Hend) Hsp. unfold extractWord.
  apply short_moderate in Hlen.
  destruct (getDirectionDeltas (Direction p)) as [dRow dCol] eqn:Hd.
  unfold spells in Hsp. rewrite Hd in Hsp. simpl in Hsp.
  destruct (foldM_inv
    (fun pre acc => acc = take (length pre) (bytes_of (Word p)))
    (extractStep g (Row p) (Col p) dRow dCol) (seqZ 0 (len (Word p))) [])
    as (acc & Hrun & Hacc).
  - reflexivity.
  - intros pre i post acc Hsplit ->.
    assert (Hi : seqZ 0 (len (Word p)) !! length pre = Some i).
    { rewrite Hsplit. apply list_lookup_middle. reflexivity. }
    apply lookup_seqZ in Hi as [Hi Hlt]. rewrite Z.add_0_l in Hi.
    destruct (path_in_bounds (len (Word p)) (Row p) (Col p) (Direction p)
                dRow dCol i Hd Hr Hc) as (Hcell & Hrb & Hcb);
      [pose proof (len_nonneg (Word p)); lia | exact Hend | lia |].
    unfold cellAt in Hcell. injection Hcell as HcR HcC.
    unfold extractStep. rewrite HcR, HcC.
    destruct (lookup_lt_is_Some_2 (bytes_of (Word p)) (length pre)) as [b Hb].
    { pose proof (length_bytes_of (Word p)). lia. }
    assert (Hcond : (Row p + dRow * i >=? 0) && (Row p + dRow * i <? gridSize)
                    && (Col p + dCol * i >=? 0) && (Col p + dCol * i <? gridSize)
                    = true).
    { rewrite !andb_true_iff, !Z.geb_leb, !Z.leb_le, !Z.ltb_lt. lia. }
    rewrite Hcond. subst i. rewrite (Hsp _ _ Hb).
    eexists. split; [reflexivity|].
    rewrite length_app. simpl length. rewrite Nat.add_1_r.
    rewrite (take_S_r _ _ _ Hb). f_equal. apply encodeRune_ascii.
    unfold upper_word in Hup. rewrite Forall_lookup in Hup.
    specialize (Hup _ _ Hb). simpl in Hup. lia.
  - rewrite Hrun, Hacc. f_equal. apply take_ge.
    rewrite length_seqZ. pose proof (length_bytes_of (Word p)). lia.
Qed.

Lemma verify_all_found g pls :
  Forall (fun p => upper_word (Word p) /\ placement_fits p /\ spells g p) pls ->
  verifyWordPlacements g pls = Some (EvVerifyHeader :: map found pls).
Proof.
  intros Hall. unfold verifyWordPlacements.
  destruct (foldM_inv
    (fun pre out => out = EvVerifyHeader :: map found pre)
    (fun out p => match verifyOne g p with
                  | None => None
                  | Some e => Some (out ++ [e])
                  end) pls [EvVerifyHeader]) as (out & Hrun & Hout).
  - reflexivity.
  - intros pre p post out Hsplit ->.
    assert (Hp : upper_word (Word p) /\ placement_fits p /\ spells g p).
    { rewrite Forall_forall in Hall. apply Hall. rewrite Hsplit.
      apply elem_of_app. right. now left. }
    destruct Hp as (Hup & Hfit & Hsp).
    unfold verifyOne. rewrite (extractWord_spells g p Hup Hfit Hsp).
    destruct (decide _) as [_|Hne]; [|contradiction].
    eexists. split; [reflexivity|]. now rewrite map_app.
  - now rewrite Hrun, Hout.
Qed.

(** ** Outside the letters A-Z *)

(** A NUL byte in a word is written as rune 0, which the grid reads as
    an empty cell: a later word may take that cell with any letter.  This
    is why [grid_le], [reads] and the crossing rule speak of letters other
    than 0. *)
Example nul_reads_as_empty :
  match placeWord zeroGrid (String "A" (String Ascii.zero (String "B" EmptyString)))
                  0 0 RIGHT with
  | Some g => canPlaceWord g "XY" 0 1 DOWN = Some true
  | None => False
  end.
Proof. reflexivity. Qed.

(** With a two-byte code point the write loop skips one cell of the path
    and the verifier, which steps byte by byte, does not read the word
    back: the statements on reading back are about A-Z words. *)
Example two_byte_letter_is_not_read_back :
  match generateWordSearchGrid ["NAÏVE"]%string (scripted [0; 0; 0]) with
  | Some (g, pls, _, _) =>
    verifyWordPlacements g pls
    = Some [EvVerifyHeader;
            EvNotFound "NAÏVE" 0 0 [78; 65; 195; 143; 65; 86; 69]]
  | None => False
  end.
Proof. vm_compute. reflexivity. Qed.

(** ** Cells of a grid, row by row *)

Lemma grid_cells_Forall (P : Z -> Prop) (g : list (list Z)) :
  grid_ok g ->
  (forall row col v, grid_get g row col = Some v -> P v) ->
  Forall (fun line => length line = Z.to_nat gridSize /\ Forall P line) g.
Proof.
  intros [Hlen Hrows] Hcells. apply Forall_lookup. intros i line Hline.
  pose proof (lookup_lt_Some _ _ _ Hline) as Hi.
  pose proof (Forall_lookup_1 _ _ _ _ Hrows Hline) as Hll. simpl in Hll.
  split; [exact Hll|]. apply Forall_lookup. intros j v Hv.
  pose proof (lookup_lt_Some _ _ _ Hv) as Hj.
  apply (Hcells (Z.of_nat i) (Z.of_nat j)). unfold grid_get.
  assert (Hin : forall k, (k < Z.to_nat gridSize)%nat -> in_grid (Z.of_nat k) = true)
    by (intros k Hk; apply in_grid_spec; lia).
  rewrite !Hin by lia. simpl. rewrite !Nat2Z.id, Hline. exact Hv.
Qed.

Lemma sublist_Forall_words (P : string -> Prop) (pls : list WordPlacement)
    words :
  sublist (map Word pls) words -> Forall P words ->
  Forall (fun p => P (Word p)) pls.
Proof.
  intros Hsub Hall. apply Forall_forall. intros p Hp.
  rewrite Forall_forall in Hall. apply Hall.
  eapply elem_of_sublist; [|exact Hsub].
  apply list_elem_of_fmap. exists p. auto.
Qed.

Lemma upper_wordb_spec (w : string) : upper_wordb w = true -> upper_word w.
Proof.
  unfold upper_wordb, upper_word. rewrite forallb_forall. intros H.
  apply Forall_forall. intros b Hb. apply list_elem_of_In, H in Hb.
  apply andb_true_iff in Hb as [H1 H2]. apply Z.leb_le in H1, H2. lia.
Qed.

(** On a placement that fits, the verifier's loop takes the in-bounds
    branch at every offset. *)
Lemma extractStep_on_grid g p i acc :
  grid_ok g -> placement_fits p -> 0 <= i < len (Word p) ->
  (0 <= Row p + (getDirectionDeltas (Direction p)).1 * i < gridSize /\
   0 <= Col p + (getDirectionDeltas (Direction p)).2 * i < gridSize) /\
  exists v,
    grid_get g (Row p + (getDirectionDeltas (Direction p)).1 * i)
               (Col p + (getDirectionDeltas (Direction p)).2 * i) = Some v /\
    extractStep g (Row p) (Col p) (getDirectionDeltas (Direction p)).1
                (getDirectionDeltas (Direction p)).2 acc i
    = Some (acc ++ encodeRune v).
Proof.
  intros Hok (Hr & Hc & Hlen & Hend) Hi. apply short_moderate in Hlen.
  destruct (getDirectionDeltas (Direction p)) as [dRow dCol] eqn:Hd. simpl.
  destruct (path_in_bounds (len (Word p)) (Row p) (Col p) (Direction p)
              dRow dCol i Hd Hr Hc) as (Hcell & Hrb & Hcb);
    [lia | exact Hend | exact Hi |].
  split; [auto|].
  destruct (grid_get_ok g _ _ Hok Hrb Hcb) as [v Hv]. exists v.
  split; [exact Hv|].
  unfold cellAt in Hcell. injection Hcell as HcR HcC.
  unfold extractStep. rewrite HcR, HcC, Hv.
  assert (Hcond : (Row p + dRow * i >=? 0) && (Row p + dRow * i <? gridSize)
                  && (Col p + dCol * i >=? 0) && (Col p + dCol * i <? gridSize)
                  = true).
  { rewrite !andb_true_iff, !Z.geb_leb, !Z.leb_le, !Z.ltb_lt. lia. }
  now rewrite Hcond.
Qed.

(** ** Attempts with given draws *)

Lemma Intn_range n s x s' : Intn n s = Some (x, s') -> 0 <= x < n.
Proof.
  unfold Intn. destruct (n <=? 0) eqn:E; [discriminate|].
  apply Z.leb_gt in E. intros [= <- _]. apply Z.mod_pos_bound. lia.
Qed.

Lemma canPlaceWord_returns grid word row col direction :
  grid_ok grid -> 0 <= row < gridSize -> 0 <= col < gridSize ->
  go_string word ->
  exists b, canPlaceWord grid word row col direction = Some b.
Proof.
  intros Hok Hr Hc Hgo.
  destruct (getDirectionDeltas direction) as [dRow dCol] eqn:Hd.
  destruct (endOutOfBounds (len word) row col direction) eqn:Hend.
  - exists false.
    now rewrite (canPlaceWord_unfold word row col direction dRow dCol Hd), Hend.
  - eapply canPlaceWord_total; eauto. apply short_moderate.
    exact (fits_short _ _ _ _ Hr Hc (conj (len_nonneg word) Hgo) Hend).
Qed.

(** An attempt whose check fails changes neither grid nor placements. *)
Lemma attemptBody_rejected word st row col direction r1 r2 r3 :
  Intn gridSize (a_rand st) = Some (row, r1) ->
  Intn gridSize r1 = Some (col, r2) ->
  Intn 8 r2 = Some (direction, r3) ->
  canPlaceWord (a_grid st) word row col direction = Some false ->
  attemptBody word st =
    Some (mkAttempt (a_grid st) (a_placements st) (a_placed st)
            (GoInt.add (a_attempts st) 1) r3).
Proof.
  intros H1 H2 H3 Hcan. unfold attemptBody. now rewrite H1, H2, H3, Hcan.
Qed.

(** ** Words as long as the grid side *)

(** ** placeWord started anywhere *)

Lemma rangeString_head word i letter :
  (i, letter) ∈ rangeString word -> exists r, (0, r) ∈ rangeString word.
Proof.
  unfold rangeString. destruct (bytes_of word) as [|b bs].
  - intros Hin. inversion Hin.
  - intros _. cbn [rangeFrom]. destruct (decodeRune (b :: bs)) as [r w].
    exists r. now left.
Qed.

Lemma cellAt_start row col dRow dCol :
  GoInt.in_range row -> GoInt.in_range col ->
  unit_delta dRow -> unit_delta dCol ->
  cellAt row col dRow dCol 0 = (row, col).
Proof.
  intros Hr Hc HdR HdC. unfold cellAt, GoInt.add, GoInt.mul.
  rewrite !Z.mul_0_r. change (GoInt.wrap 0) with 0. rewrite !Z.add_0_r.
  now rewrite !wrap_small.
Qed.

(** If [placeWord] returns, it started on the grid and every cell it
    wrote is the cell start + delta * offset, on the grid. *)
Lemma placeWord_success_exact grid word row col direction grid' i letter :
  GoInt.in_range row -> GoInt.in_range col -> go_string word ->
  placeWord grid word row col direction = Some grid' ->
  (i, letter) ∈ rangeString word ->
  cellAt row col (getDirectionDeltas direction).1
         (getDirectionDeltas direction).2 i
  = (row + (getDirectionDeltas direction).1 * i,
     col + (getDirectionDeltas direction).2 * i) /\
  0 <= row + (getDirectionDeltas direction).1 * i < gridSize /\
  0 <= col + (getDirectionDeltas direction).2 * i < gridSize.
Proof.
  intros Hr Hc Hgo Hp Hin.
  destruct (getDirectionDeltas direction) as [dRow dCol] eqn:Hd. simpl.
  destruct (getDirectionDeltas_unit _ _ _ Hd) as (HdR & HdC & _).
  rewrite (placeWord_unfold _ _ _ _ _ _ Hd) in Hp.
  destruct (rangeString_head _ _ _ Hin) as [r0 H0].
  pose proof (placeLoop_Some_in _ _ _ _ _ _ _ Hp 0 r0 H0) as Hstart.
  rewrite (cellAt_start _ _ _ _ Hr Hc HdR HdC) in Hstart. simpl in Hstart.
  destruct Hstart as [Hrow Hcol].
  pose proof (placeLoop_Some_in _ _ _ _ _ _ _ Hp i letter Hin) as [Hci Hcj].
  apply rangeString_index in Hin.
  unfold go_string, GoInt.max_int in Hgo.
  assert (Hmul : forall d, unit_delta d ->
            GoInt.mul d i = d * i /\ - 2 ^ 63 < d * i < 2 ^ 63).
  { intros d Hd'. split.
    - apply wrap_small. unfold GoInt.in_range, GoInt.min_int, GoInt.max_int.
      destruct Hd' as [-> | [-> | ->]]; lia.
    - destruct Hd' as [-> | [-> | ->]]; lia. }
  unfold cellAt in *. simpl in Hci, Hcj.
  destruct (Hmul dRow HdR) as [ER HbR]. destruct (Hmul dCol HdC) as [EC HbC].
  rewrite ER, EC in *.
  destruct (add_start_cases row (dRow * i) Hrow HbR) as [E1 | E1]; [|lia].
  destruct (add_start_cases col (dCol * i) Hcol HbC) as [E2 | E2]; [|lia].
  rewrite E1, E2 in *. auto.
Qed.

(** ** Filter *)

Lemma filter_fold (maxLength : Z) (words : list string) :
  forall kept removed,
    fold_left (filterStep maxLength) words (kept, removed) =
    (kept ++ List.filter (fun w => len w <=? maxLength) words,
     removed ++ List.filter (fun w => negb (len w <=? maxLength)) words).
Proof.
  induction words as [|w words IH]; intros kept removed; cbn [fold_left List.filter].
  - now rewrite !app_nil_r.
  - unfold filterStep at 2. destruct (len w <=? maxLength); cbn [negb];
      rewrite IH, <- app_assoc; reflexivity.
Qed.

Lemma filter_all_kept (maxLength : Z) (words : list string) :
  Forall (fun w => (len w <=? maxLength) = true) words ->
  List.filter (fun w => len w <=? maxLength) words = words /\
  List.filter (fun w => negb (len w <=? maxLength)) words = [].
Proof.
  induction 1 as [|w words Hw _ [IH1 IH2]]; [auto|].
  cbn [List.filter]. rewrite Hw. cbn [negb]. now rewrite IH1, IH2.
Qed.

Lemma filterWordsByLength_fst words maxLength :
  (filterWordsByLength words maxLength).1 =
  List.filter (fun w => len w <=? maxLength) words.
Proof. unfold filterWordsByLength. now rewrite filter_fold. Qed.

(** ** Selection *)

Section Selection.

Context `{GoStrings}.

Lemma selectLoop_eq st :
  selectLoop st =
  if selectCond st then
    match selectBody st with
    | Some st' => selectLoop st'
    | None => None
    end
  else Some st.
Proof.
  funelim (selectLoop st); rewrite Hc; try rewrite Hb; reflexivity.
Qed.

Lemma selectBody_i st st' :
  selectBody st = Some st' -> s_i st' = GoInt.add (s_i st) 1.
Proof.
  unfold selectBody. intros Hb.
  repeat match type of Hb with
         | match ?x with _ => _ end = _ => destruct x as [[]|]; try discriminate
         | match ?x with _ => _ end = _ => destruct x; try discriminate
         end; injection Hb as <-; reflexivity.
Qed.

(** Total-correctness rule for the selection loop. *)
Lemma selectLoop_inv (I : selectState -> Prop) :
  (forall st, I st -> selectCond st = true ->
     exists st', selectBody st = Some st' /\ I st') ->
  forall st, I st ->
    exists st', selectLoop st = Some st' /\ I st' /\ selectCond st' = false.
Proof.
  intros Hstep st. remember (selectMeasure st) as n eqn:Hn.
  revert st Hn. induction n as [n IH] using lt_wf_ind. intros st Hn HI.
  rewrite selectLoop_eq. destruct (selectCond st) eqn:Hc.
  - destruct (Hstep st HI Hc) as (st1 & Hb & HI1). rewrite Hb.
    apply (IH (selectMeasure st1)); [|reflexivity|exact HI1].
    subst n. unfold selectMeasure. rewrite (selectBody_i _ _ Hb).
    unfold selectCond in Hc. apply andb_true_iff in Hc as [Hlt _].
    apply Z.ltb_lt in Hlt. pose proof (wrap_ge (s_i st + 1) ltac:(lia)).
    unfold GoInt.add. lia.
  - exists st. auto.
Qed.

(** Removing the drawn element by overwriting it with the last one and
    dropping the last slot leaves the other elements, each once. *)
Lemma swap_remove_perm {A : Type} (temp : list A) (idx : nat) (x y : A) :
  temp !! idx = Some x ->
  temp !! (length temp - 1)%nat = Some y ->
  x :: take (length temp - 1) (<[idx := y]> temp) ≡ₚ temp.
Proof.
  intros Hx Hy.
  pose proof (lookup_lt_Some _ _ _ Hx) as Hidx.
  assert (Hsplit : temp = take (length temp - 1) temp ++ [y]).
  { transitivity (take (length temp - 1) temp ++ drop (length temp - 1) temp);
      [symmetry; apply take_drop|].
    f_equal. rewrite (drop_S _ _ _ Hy). f_equal. apply drop_ge. lia. }
  remember (take (length temp - 1) temp) as l eqn:El. clear El. subst temp.
  rewrite length_app in *. cbn [length] in *.
  replace (length l + 1 - 1)%nat with (length l) in * by lia.
  destruct (decide (idx = length l)) as [-> | Hne].
  - rewrite Hx in Hy. injection Hy as ->.
    rewrite list_insert_id by exact Hx.
    rewrite take_app_length. apply Permutation_cons_append.
  - rewrite insert_app_l by lia.
    rewrite take_app_length' by (rewrite length_insert; lia).
    rewrite lookup_app_l in Hx by lia.
    rewrite <- (take_drop_middle _ _ _ Hx) at 2.
    rewrite <- (take_drop_middle _ _ _ Hx) at 1.
    rewrite insert_app_r_alt by (rewrite length_take; lia).
    rewrite length_take, Nat.min_l by lia.
    rewrite Nat.sub_diag. cbn [insert list_insert].
    rewrite <- app_assoc. cbn [app].
    rewrite <- !Permutation_middle.
    now rewrite app_nil_r.
Qed.

(** One iteration on a non-empty working list. *)
Lemma selectBody_spec st :
  selectCond st = true -> slice_len (s_temp st) <= GoInt.max_int ->
  exists idx x y r',
    s_temp st !! idx = Some x /\
    s_temp st !! (length (s_temp st) - 1)%nat = Some y /\
    selectBody st =
      Some (mkSelect (GoInt.add (s_i st) 1) (s_words st ++ [ToUpper x])
              (take (length (s_temp st) - 1) (<[idx := y]> (s_temp st))) r').
Proof.
  unfold selectCond, slice_len. intros Hc Hmax.
  apply andb_true_iff in Hc as [_ Hpos]. apply Z.gtb_lt in Hpos.
  set (temp := s_temp st) in *.
  unfold selectBody. fold temp. unfold slice_len.
  destruct (Intn_spec (Z.of_nat (length temp)) (s_rand st) Hpos)
    as (k & -> & Hk).
  assert (Hsub : GoInt.sub (Z.of_nat (length temp)) 1 = Z.of_nat (length temp) - 1).
  { apply wrap_small. unfold GoInt.in_range, GoInt.min_int, GoInt.max_int in *.
    lia. }
  rewrite Hsub. unfold slice_get, slice_set, slice_to, slice_len.
  assert (Hb1 : (0 <=? k) && (k <? Z.of_nat (length temp)) = true)
    by (rewrite andb_true_iff, Z.leb_le, Z.ltb_lt; lia).
  rewrite Hb1.
  destruct (lookup_lt_is_Some_2 temp (Z.to_nat k)) as [x Hx]; [lia|].
  rewrite Hx.
  assert (Hb2 : (0 <=? Z.of_nat (length temp) - 1)
                && (Z.of_nat (length temp) - 1 <? Z.of_nat (length temp)) = true)
    by (rewrite andb_true_iff, Z.leb_le, Z.ltb_lt; lia).
  rewrite Hb2.
  replace (Z.to_nat (Z.of_nat (length temp) - 1)) with (length temp - 1)%nat by lia.
  destruct (lookup_lt_is_Some_2 temp (length temp - 1)) as [y Hy]; [lia|].
  rewrite Hy, length_insert.
  assert (Hb3 : (0 <=? Z.of_nat (length temp) - 1)
                && (Z.of_nat (length temp) - 1 <=? Z.of_nat (length temp)) = true)
    by (rewrite andb_true_iff, !Z.leb_le; lia).
  rewrite Hb3.
  exists (Z.to_nat k), x, y. eexists.
  split_and!; [exact Hx | reflexivity | reflexivity].
Qed.

(** What the selection loop returns. *)
Lemma selectWords_spec vocabulary r :
  slice_len vocabulary <= GoInt.max_int ->
  exists drawn rest r',
    selectWords vocabulary r = Some (map ToUpper drawn, r') /\
    drawn ++ rest ≡ₚ vocabulary /\
    Z.of_nat (length drawn) = Z.min 10 (slice_len vocabulary).
Proof.
  intros Hmax. unfold selectWords.
  destruct (selectLoop_inv
    (fun st => exists drawn,
       s_words st = map ToUpper drawn /\
       drawn ++ s_temp st ≡ₚ vocabulary /\
       s_i st = Z.of_nat (length drawn) /\ 0 <= s_i st <= 10))
    with (st := mkSelect 0 [] vocabulary r)
    as (st & Hrun & (drawn & Hw & Hperm & Hi & Hrange) & Hexit).
  - intros st (drawn & Hw & Hperm & Hi & Hrange) Hc.
    assert (Hlen : slice_len (s_temp st) <= GoInt.max_int).
    { apply Permutation_length in Hperm. rewrite length_app in Hperm.
      unfold slice_len in *. lia. }
    destruct (selectBody_spec st Hc Hlen) as (idx & x & y & r' & Hx & Hy & Hb).
    rewrite Hb. eexists. split; [reflexivity|].
    exists (drawn ++ [x]). cbn [s_words s_temp s_i].
    unfold selectCond in Hc. apply andb_true_iff in Hc as [Hlt _].
    apply Z.ltb_lt in Hlt.
    assert (Hadd : GoInt.add (s_i st) 1 = s_i st + 1).
    { apply wrap_small. unfold GoInt.in_range, GoInt.min_int, GoInt.max_int. lia. }
    rewrite Hadd. split_and!.
    + now rewrite map_app, Hw.
    + rewrite <- Hperm, <- app_assoc. apply Permutation_app_head. cbn [app].
      now apply swap_remove_perm.
    + rewrite length_app. simpl length. lia.
    + lia.
    + lia.
  - exists []. cbn. split_and!; try reflexivity; lia.
  - rewrite Hrun. exists drawn, (s_temp st), (s_rand st).
    split; [now rewrite Hw|]. split; [exact Hperm|].
    apply Permutation_length in Hperm. rewrite length_app in Hperm.
    unfold selectCond, slice_len in *.
    apply andb_false_iff in Hexit as [Hge | Hemp].
    + apply Z.ltb_ge in Hge. lia.
    + rewrite Z.gtb_ltb in Hemp. apply Z.ltb_ge in Hemp. lia.
Qed.

End Selection.

(** ** Loading the vocabulary and running main *)

Lemma len_string_of_bytes (bs : list Z) :
  len (string_of_bytes bs) = Z.of_nat (length bs).
Proof.
  unfold len, string_of_bytes. f_equal. rewrite <- (length_map
    (fun b => ascii_of_nat (Z.to_nat b)) bs).
  induction (map _ bs) as [|a l IH]; simpl; [reflexivity | now rewrite IH].
Qed.

(** The verifier never panics on placements that fit. *)
Lemma verify_total g pls :
  grid_ok g -> Forall placement_fits pls ->
  exists out, verifyWordPlacements g pls = Some out.
Proof.
  intros Hok Hfit. unfold verifyWordPlacements.
  destruct (foldM_inv (fun _ (_ : list event) => True)
    (fun out p => match verifyOne g p with
                  | None => None
                  | Some e => Some (out ++ [e])
                  end) pls [EvVerifyHeader]) as (out & Hrun & _);
    [exact I | | eauto].
  intros pre p post out Hsplit _.
  assert (Hp : placement_fits p).
  { rewrite Forall_forall in Hfit. apply Hfit. rewrite Hsplit.
    apply elem_of_app. right. now left. }
  assert (Hex : exists w, extractWord g p = Some w).
  { unfold extractWord.
    pose proof (fun i acc => extractStep_on_grid g p i acc Hok Hp) as Hstep.
    destruct (getDirectionDeltas (Direction p)) as [dRow dCol]. simpl in Hstep.
    destruct (foldM_inv (fun _ (_ : list Z) => True)
      (extractStep g (Row p) (Col p) dRow dCol) (seqZ 0 (len (Word p))) [])
      as (w & Hw & _); [exact I | | eauto].
    intros pre' i post' acc Hs _.
    assert (Hi : i ∈ seqZ 0 (len (Word p)))
      by (rewrite Hs; apply elem_of_app; right; now left).
    apply elem_of_seqZ in Hi.
    destruct (Hstep i acc ltac:(lia)) as (_ & v & _ & Hv). eauto. }
  destruct Hex as [w Hw]. unfold verifyOne. rewrite Hw.
  destruct (decide _); eauto.
Qed.

Section Main.

Context `{GoStrings}.

Lemma scan_fold (lines : list string) : forall words,
  fold_left scanStep lines words = words ++ nonblank_trimmed lines.
Proof.
  unfold nonblank_trimmed.
  induction lines as [|line lines IH]; intros words; cbn [fold_left map List.filter].
  - now rewrite app_nil_r.
  - rewrite IH. unfold scanStep.
    destruct (negb (String.eqb (TrimSpace line) EmptyString));
      [now rewrite <- app_assoc | reflexivity].
Qed.

Lemma loadCustomVocab_eq fs filename :
  loadCustomVocab fs filename =
  match fs filename with
  | OpenFails => Err ErrOpen
  | Scanned lines scanErr =>
    if scanErr then Err ErrRead
    else if slice_len (nonblank_trimmed lines) <? 10
         then Err (ErrTooFew (slice_len (nonblank_trimmed lines)))
         else Ok (nonblank_trimmed lines)
  end.
Proof.
  unfold loadCustomVocab. destruct (fs filename); [reflexivity|].
  now rewrite scan_fold.
Qed.

Lemma ToUpper_go_string (s : string) : go_string s -> go_string (ToUpper s).
Proof.
  intros Hs. unfold ToUpper. destruct (forallb _ _).
  - unfold go_string in *. rewrite len_string_of_bytes, length_map.
    now rewrite length_bytes_of.
  - now apply unicodeToUpper_go_string.
Qed.

Lemma filter_length_le {A : Type} (f : A -> bool) (l : list A) :
  (length (List.filter f l) <= length l)%nat.
Proof.
  induction l as [|a l IH]; cbn [List.filter length]; [lia|].
  destruct (f a); cbn [length]; lia.
Qed.

(** [main] once the vocabulary is chosen. *)
Lemma main_after_vocabulary vocabFile fs createOk encodeOk r out1 vocabulary0 :
  chooseVocabulary vocabFile fs = (out1, Ok vocabulary0) ->
  slice_len vocabulary0 <= GoInt.max_int ->
  (slice_len (fits_grid vocabulary0) < 10 /\
   aborted_before_grid (main vocabFile fs createOk encodeOk r))
  \/ (10 <= slice_len (fits_grid vocabulary0) /\
      generated_and_saved createOk encodeOk
        (main vocabFile fs createOk encodeOk r)).
Proof.
  intros Hchoose Hmax. unfold main. rewrite Hchoose.
  unfold filterWordsByLength. rewrite filter_fold. cbn [app].
  fold (fits_grid vocabulary0).
  destruct (slice_len (fits_grid vocabulary0) <? 10) eqn:Hfew.
  { left. apply Z.ltb_lt in Hfew. split; [exact Hfew|].
    unfold aborted_before_grid. cbn. eauto. }
  right. apply Z.ltb_ge in Hfew. split; [exact Hfew|].
  assert (Hmaxf : slice_len (fits_grid vocabulary0) <= GoInt.max_int).
  { pose proof (filter_length_le (fun w => len w <=? gridSize) vocabulary0).
    unfold slice_len, fits_grid in *. lia. }
  destruct (selectWords_spec (fits_grid vocabulary0) r Hmaxf)
    as (drawn & rest & r1 & -> & Hperm & _).
  assert (Hwords : Forall (word_in (fun _ => True)) (map ToUpper drawn)).
  { apply Forall_forall. intros w Hw.
    apply list_elem_of_fmap in Hw as (v & -> & Hv).
    apply any_word_in, ToUpper_go_string, short_go_string.
    assert (Hin : v ∈ fits_grid vocabulary0)
      by (rewrite <- Hperm; apply elem_of_app; now left).
    apply list_elem_of_In, filter_In in Hin as [_ Hle]. now apply Z.leb_le. }
  destruct (generate_spec _ (map ToUpper drawn) r1 Hwords)
    as (grid & pls & r2 & outg & -> & Hok & _ & Hpl & _).
  assert (Hfits : Forall placement_fits pls).
  { eapply Forall_impl; [exact Hpl|]. now intros p [Hp _]. }
  destruct (verify_total grid pls Hok Hfits) as [outv Hv].
  unfold generated_and_saved. exists grid, pls.
  destruct createOk, encodeOk; cbn [negb]; try rewrite Hv; cbn;
    split_and!; try reflexivity; try discriminate; eauto.
Qed.

Lemma main_vocabulary_error vocabFile fs createOk encodeOk r out1 e :
  chooseVocabulary vocabFile fs = (out1, Err e) ->
  aborted_before_grid (main vocabFile fs createOk encodeOk r).
Proof.
  intros Hchoose. unfold main. rewrite Hchoose.
  unfold aborted_before_grid. cbn. eauto.
Qed.

Lemma not_generated_and_aborted createOk encodeOk x :
  generated_and_saved createOk encodeOk x -> ~ aborted_before_grid x.
Proof. intros (grid & pls & Hg & _) (_ & Hn & _). congruence. Qed.

Lemma firstGradeVocab_enough : 10 <= slice_len (fits_grid firstGradeVocab).
Proof. apply Z.leb_le. vm_compute. reflexivity. Qed.

(** The two outcomes of [main]. *)
Lemma main_cases vocabFile fs createOk encodeOk r :
  go_fs fs ->
  (config_error vocabFile fs /\
   aborted_before_grid (main vocabFile fs createOk encodeOk r))
  \/ (~ config_error vocabFile fs /\
      generated_and_saved createOk encodeOk
        (main vocabFile fs createOk encodeOk r)).
Proof.
  intros Hfs.
  destruct (String.eqb vocabFile EmptyString) eqn:Ev.
  - (* the built-in vocabulary *)
    apply String.eqb_eq in Ev. right.
    split; [intros [Hne | ? Hne | ? Hne | ? Hne]; contradiction|].
    destruct (main_after_vocabulary vocabFile fs createOk encodeOk r
                [EvDefaultVocab (slice_len firstGradeVocab)] firstGradeVocab)
      as [[Hfew _] | [_ Hgen]].
    + unfold chooseVocabulary. subst vocabFile. reflexivity.
    + apply Z.leb_le. vm_compute. reflexivity.
    + pose proof firstGradeVocab_enough. lia.
    + exact Hgen.
  - apply String.eqb_neq in Ev.
    assert (Hchoose : chooseVocabulary vocabFile fs =
              match loadCustomVocab fs vocabFile with
              | Err e => ([EvLoadingVocab vocabFile], Err e)
              | Ok customVocab =>
                ([EvLoadingVocab vocabFile;
                  EvLoadedVocab (slice_len customVocab)], Ok customVocab)
              end).
    { unfold chooseVocabulary.
      now rewrite (proj2 (String.eqb_neq vocabFile EmptyString) Ev). }
    rewrite loadCustomVocab_eq in Hchoose.
    destruct (fs vocabFile) as [|lines scanErr] eqn:Hfile.
    { left. split; [now apply CfgOpen|].
      eapply main_vocabulary_error. exact Hchoose. }
    destruct scanErr.
    { left. split; [now apply (CfgRead _ _ lines)|].
      eapply main_vocabulary_error. exact Hchoose. }
    destruct (slice_len (nonblank_trimmed lines) <? 10) eqn:Hfew.
    { left. apply Z.ltb_lt in Hfew. split; [now apply (CfgFewLines _ _ lines)|].
      eapply main_vocabulary_error. exact Hchoose. }
    apply Z.ltb_ge in Hfew.
    destruct (main_after_vocabulary vocabFile fs createOk encodeOk r _ _ Hchoose)
      as [[Hfw Hab] | [Hfw Hgen]].
    + pose proof (Hfs _ _ _ Hfile).
      pose proof (filter_length_le
                    (fun w => negb (String.eqb w EmptyString))
                    (map TrimSpace lines)) as Hle.
      rewrite length_map in Hle. unfold slice_len, nonblank_trimmed in *. lia.
    + left. split; [now apply (CfgFewWords _ _ lines)|exact Hab].
    + right. split; [|exact Hgen].
      intros [Hne Ho | l Hne Ho | l Hne Ho Hl | l Hne Ho Hl];
        rewrite Hfile in Ho; try discriminate; injection Ho as <-; lia.
Qed.

End Main.

(** * The claims *)

(** Tactics that evaluate the side conditions on concrete inputs. *)

Ltac leb_bounds := split; apply Z.leb_le; reflexivity.

Ltac upper_words :=
  repeat first
    [ apply List.Forall_nil
    | apply List.Forall_cons;
      [ split; [apply upper_wordb_spec; reflexivity
               | first [leb_bounds | apply Z.leb_le; reflexivity]] | ] ].

Ltac go_strings :=
  repeat first
    [ apply List.Forall_nil
    | apply List.Forall_cons; [apply Z.leb_le; reflexivity | ] ].

Ltac not_in_list :=
  let Hin := fresh "Hin" in
  intros Hin;
  repeat (apply elem_of_cons in Hin as [Hin | Hin]; [discriminate Hin|]);
  inversion Hin.

Ltac nodup_list :=
  repeat (apply NoDup_cons_2; [not_in_list|]); apply NoDup_nil_2.

(** ** C1 *)

(** C1. For words of uppercase letters A-Z, non-empty and no longer
    than the grid side, generation returns, and every recorded placement
    reads back from the returned grid: the cell at offset [k] from the
    recorded start, stepping by the recorded direction's deltas, holds
    the word's [k]-th letter, the verifier's extraction gives the word,
    and [verifyWordPlacements] reports every placement as found. *)
Theorem placements_read_back (words : list string) (r : rng) :
  Forall (fun w => upper_word w /\ 1 <= len w <= gridSize) words ->
  exists grid pls r' out,
    generateWordSearchGrid words r = Some (grid, pls, r', out) /\
    Forall (fun p => spells grid p /\
                     extractWord grid p = Some (bytes_of (Word p))) pls /\
    verifyWordPlacements grid pls = Some (EvVerifyHeader :: map found pls).
Proof.
  intros Hwords.
  assert (Hin : Forall (word_in (fun v => 65 <= v <= 90)) words).
  { eapply Forall_impl; [exact Hwords|]. intros w [Hup Hlen].
    apply upper_word_in; [exact Hup | lia]. }
  destruct (generate_spec _ words r Hin)
    as (grid & pls & r' & out & Hrun & Hok & _ & Hpl & Hsub & _).
  exists grid, pls, r', out. split; [exact Hrun|].
  assert (Hup : Forall (fun p => upper_word (Word p)) pls).
  { apply (sublist_Forall_words upper_word _ _ Hsub).
    eapply Forall_impl; [exact Hwords|]. now intros w [Hw _]. }
  assert (Hall : Forall (fun p => upper_word (Word p) /\ placement_fits p /\
                                  spells grid p) pls).
  { apply Forall_forall. intros p Hp. rewrite Forall_forall in Hup, Hpl.
    destruct (Hpl p Hp) as [Hfit Hrd]. split_and!; auto.
    apply reads_spells; auto. }
  split.
  - eapply Forall_impl; [exact Hall|]. intros p (Hu & Hfit & Hsp).
    split; [exact Hsp | now apply extractWord_spells].
  - now apply verify_all_found.
Qed.

Lemma placements_read_back_witness :
  exists grid pls r' out,
    generateWordSearchGrid ["CAT"; "DOG"]%string
      (scripted [2; 1; 0; 1; 2; 2; 5; 5; 7]) = Some (grid, pls, r', out) /\
    Forall (fun p => spells grid p /\
                     extractWord grid p = Some (bytes_of (Word p))) pls /\
    verifyWordPlacements grid pls = Some (EvVerifyHeader :: map found pls).
Proof.
  apply (placements_read_back ["CAT"; "DOG"]%string
           (scripted [2; 1; 0; 1; 2; 2; 5; 5; 7])).
  upper_words.
Defined.

(** ** C2 *)

(** C2. For words of uppercase letters A-Z, each no longer than the
    grid side, generation returns a grid of [gridSize] rows of
    [gridSize] cells in which every cell holds a letter A-Z; none is left
    at the empty sentinel 0.  The list of words may be empty and no
    word need have been placed. *)
Theorem grid_fully_lettered (words : list string) (r : rng) :
  Forall (fun w => upper_word w /\ len w <= gridSize) words ->
  exists grid pls r' out,
    generateWordSearchGrid words r = Some (grid, pls, r', out) /\
    length grid = Z.to_nat gridSize /\
    Forall (fun line => length line = Z.to_nat gridSize /\
                        Forall (fun v => 65 <= v <= 90 /\ v <> 0) line) grid.
Proof.
  intros Hwords.
  assert (Hin : Forall (word_in (fun v => 65 <= v <= 90)) words).
  { eapply Forall_impl; [exact Hwords|]. intros w [Hup Hlen].
    now apply upper_word_in. }
  destruct (generate_spec _ words r Hin)
    as (grid & pls & r' & out & Hrun & Hok & Hcells & _).
  exists grid, pls, r', out. split; [exact Hrun|].
  split; [exact (proj1 Hok)|].
  apply grid_cells_Forall; [exact Hok|].
  intros row col v Hv. destruct (Hcells row col v Hv) as [Hnz Hl].
  split; [tauto | exact Hnz].
Qed.

Lemma grid_fully_lettered_witness :
  exists grid pls r' out,
    generateWordSearchGrid ["SUN"; "MOON"]%string
      (scripted [3; 1; 4; 1; 5; 9; 2; 6]) = Some (grid, pls, r', out) /\
    length grid = Z.to_nat gridSize /\
    Forall (fun line => length line = Z.to_nat gridSize /\
                        Forall (fun v => 65 <= v <= 90 /\ v <> 0) line) grid.
Proof.
  apply (grid_fully_lettered ["SUN"; "MOON"]%string
           (scripted [3; 1; 4; 1; 5; 9; 2; 6])).
  upper_words.
Defined.

(** With no words at all the grid is still filled. *)
Example empty_word_list_is_filled :
  match generateWordSearchGrid [] (scripted [3; 1; 4; 1; 5; 9; 2; 6]) with
  | Some (grid, pls, _, out) =>
    pls = [] /\ out = [] /\
    forallb (forallb (fun v => (65 <=? v) && (v <=? 90))) grid = true /\
    nth 0 grid [] = [68; 66; 69; 66; 70; 74; 67; 71; 65; 65]
  | None => False
  end.
Proof. vm_compute. auto. Qed.

(** ** C3 *)

(** C3. (1) Let a first word have been accepted and written (giving
    [g1]), and let [g] be any later grid that keeps the letters of [g1].
    If the path of a second word visits, at offset [j] with letter [b], a
    cell that the first word visited at offset [i] with letter [a] (a
    letter, not the empty sentinel 0), then the check for the second
    word on [g] succeeds only if [b = a].  (2) An attempt whose path
    visits a non-empty cell holding a different letter is rejected:
    [canPlaceWord] does not return true; inside the attempt loop it
    returns false and the attempt leaves grid and placements as they
    were. *)
Theorem crossing_rule :
  (forall g0 w1 p1 g1 g w2 row2 col2 direction2 i a j b,
     accepted g0 w1 p1 g1 -> go_string w1 -> grid_le g1 g ->
     (i, a) ∈ rangeString w1 -> a <> 0 ->
     (j, b) ∈ rangeString w2 ->
     cellAt (Row p1) (Col p1) (getDirectionDeltas (Direction p1)).1
            (getDirectionDeltas (Direction p1)).2 i
     = cellAt row2 col2 (getDirectionDeltas direction2).1
              (getDirectionDeltas direction2).2 j ->
     canPlaceWord g w2 row2 col2 direction2 = Some true ->
     b = a) /\
  (forall g word row col direction i letter v,
     (i, letter) ∈ rangeString word ->
     grid_get g (cellAt row col (getDirectionDeltas direction).1
                        (getDirectionDeltas direction).2 i).1
                (cellAt row col (getDirectionDeltas direction).1
                        (getDirectionDeltas direction).2 i).2 = Some v ->
     v <> 0 -> v <> letter ->
     canPlaceWord g word row col direction <> Some true /\
     forall st r1 r2 r3,
       a_grid st = g -> grid_ok g -> go_string word ->
       Intn gridSize (a_rand st) = Some (row, r1) ->
       Intn gridSize r1 = Some (col, r2) ->
       Intn 8 r2 = Some (direction, r3) ->
       canPlaceWord g word row col direction = Some false /\
       attemptBody word st =
         Some (mkAttempt g (a_placements st) (a_placed st)
                 (GoInt.add (a_attempts st) 1) r3)).
Proof.
  split.
  - intros g0 w1 p1 g1 g w2 row2 col2 direction2 i a j b
           Hacc Hgo Hle Hi Ha Hj Hcell Hcan.
    pose proof (accepted_fits _ _ _ _ Hacc Hgo) as (Hr & Hc & Hlen & Hend).
    pose proof (reads_le _ _ _ Hle (accepted_reads _ _ _ _ Hacc Hgo)) as Hrd.
    destruct Hacc as (Hw & _). unfold reads in Hrd. rewrite Hw in *.
    specialize (Hrd i a Hi Ha).
    destruct (getDirectionDeltas (Direction p1)) as [dR1 dC1] eqn:Hd1.
    destruct (getDirectionDeltas direction2) as [dR2 dC2] eqn:Hd2.
    simpl in *.
    destruct (visited_in_bounds w1 _ _ _ dR1 dC1 Hd1 Hr Hc
                (short_moderate _ Hlen) i a Hend Hi) as (Hexact & _).
    destruct (canPlaceWord_true w2 row2 col2 direction2 dR2 dC2 Hd2 g Hcan)
      as [_ Hfree].
    destruct (Hfree j b Hj) as (v & Hv & Hcase).
    rewrite <- Hcell, Hexact in Hv. simpl in Hv. rewrite Hrd in Hv.
    injection Hv as <-. destruct Hcase; congruence.
  - intros g word row col direction i letter v Hin Hget Hnz Hne.
    destruct (getDirectionDeltas direction) as [dRow dCol] eqn:Hd. simpl in *.
    assert (Hnot : canPlaceWord g word row col direction <> Some true).
    { intros Hcan.
      destruct (canPlaceWord_true word row col direction dRow dCol Hd g Hcan)
        as [_ Hfree].
      destruct (Hfree i letter Hin) as (w & Hw & Hcase).
      unfold cellAt in Hget, Hw. simpl in Hget, Hw.
      rewrite Hget in Hw. injection Hw as <-. tauto. }
    split; [exact Hnot|].
    intros st r1 r2 r3 Hg Hok Hgo H1 H2 H3.
    destruct (canPlaceWord_returns g word row col direction Hok
                (Intn_range _ _ _ _ H1) (Intn_range _ _ _ _ H2) Hgo)
      as [[|] Hb]; [contradiction|].
    split; [exact Hb|]. subst g.
    exact (attemptBody_rejected word st row col direction r1 r2 r3 H1 H2 H3 Hb).
Qed.

Lemma crossing_rule_witness :
  (65 = 65) /\
  (canPlaceWord grid_with_CAT "DOG" 1 2 DOWN <> Some true /\
   (canPlaceWord grid_with_CAT "DOG" 1 2 DOWN = Some false /\
    attemptBody "DOG"
      (mkAttempt grid_with_CAT [mkPlacement "CAT" 2 1 RIGHT] false 0
                 (scripted [1; 2; 2]))
    = Some (mkAttempt grid_with_CAT [mkPlacement "CAT" 2 1 RIGHT] false
              (GoInt.add 0 1) (mkRng (draws (scripted [1; 2; 2])) 3)))).
Proof.
  split.
  - apply (proj1 crossing_rule zeroGrid "CAT"%string
             (mkPlacement "CAT" 2 1 RIGHT) grid_with_CAT grid_with_CAT
             "TAP"%string 1 2 DOWN 1 65 1 65).
    + unfold accepted. cbn [Word Row Col Direction].
      split_and!; try reflexivity; try (apply Z.leb_le; reflexivity);
        try (apply Z.ltb_lt; reflexivity).
    + apply Z.leb_le. reflexivity.
    + apply grid_le_refl.
    + vm_compute. repeat constructor.
    + discriminate.
    + vm_compute. repeat constructor.
    + reflexivity.
    + reflexivity.
  - pose proof (proj2 crossing_rule grid_with_CAT "DOG"%string 1 2 DOWN
                  1 79 65) as H.
    destruct H as [Hnot Hatt].
    + vm_compute. repeat constructor.
    + reflexivity.
    + discriminate.
    + discriminate.
    + split; [exact Hnot|].
      apply (Hatt (mkAttempt grid_with_CAT [mkPlacement "CAT" 2 1 RIGHT] false 0
                     (scripted [1; 2; 2]))
                  (mkRng (draws (scripted [1; 2; 2])) 1)
                  (mkRng (draws (scripted [1; 2; 2])) 2)
                  (mkRng (draws (scripted [1; 2; 2])) 3)).
      * reflexivity.
      * split; [reflexivity | repeat constructor].
      * apply Z.leb_le. reflexivity.
      * reflexivity.
      * reflexivity.
      * reflexivity.
Defined.

(** ** C4 *)

(** C4, as stated, fails: a ten-letter word going LEFT is accepted from
    row 5, column 9, where neither the row nor the column is 0. *)
Lemma full_length_left_counterexample :
  ~ (forall grid word row col direction,
       len word = gridSize ->
       0 <= row < gridSize -> 0 <= col < gridSize ->
       canPlaceWord grid word row col direction = Some true ->
       claimed_start_cells direction row col).
Proof.
  intros H.
  destruct (H zeroGrid "ABCDEFGHIJ"%string 5 9 LEFT) as [Haxis _].
  - reflexivity.
  - unfold gridSize. lia.
  - unfold gridSize. lia.
  - reflexivity.
  - destruct Haxis as [E | E]; [auto | discriminate E | discriminate E].
Qed.

(** C4, amended.  For a word of length exactly [gridSize] and a start
    cell on the grid, the bounds test passes exactly from the start cells
    of [full_length_start]: column 0 for RIGHT, column [gridSize - 1] for
    LEFT, row 0 for DOWN, row [gridSize - 1] for UP, and for each
    diagonal the one corner it leads away from.  [canPlaceWord] accepts
    only from those cells; from any other start cell the bounds test
    fails, [canPlaceWord] returns false whatever the grid holds, and the
    attempt leaves grid and placements as they were. *)
Theorem full_length_start_cells (word : string) (row col direction : Z) :
  len word = gridSize ->
  0 <= row < gridSize -> 0 <= col < gridSize ->
  (endOutOfBounds (len word) row col direction = false <->
   full_length_start direction row col) /\
  (forall grid,
     (canPlaceWord grid word row col direction = Some true ->
      full_length_start direction row col) /\
     (~ full_length_start direction row col ->
      endOutOfBounds (len word) row col direction = true /\
      canPlaceWord grid word row col direction = Some false /\
      forall st r1 r2 r3,
        a_grid st = grid ->
        Intn gridSize (a_rand st) = Some (row, r1) ->
        Intn gridSize r1 = Some (col, r2) ->
        Intn 8 r2 = Some (direction, r3) ->
        attemptBody word st =
          Some (mkAttempt grid (a_placements st) (a_placed st)
                  (GoInt.add (a_attempts st) 1) r3))).
Proof.
  intros Hlen Hr Hc.
  destruct (getDirectionDeltas direction) as [dRow dCol] eqn:Hd.
  assert (Hiff : endOutOfBounds (len word) row col direction = false <->
                 full_length_start direction row col).
  { rewrite (endOutOfBounds_false _ _ _ _ _ _ Hd)
      by (try apply in_grid_moderate; try assumption;
          rewrite Hlen; unfold gridSize; lia).
    rewrite Hlen. revert Hd. unfold getDirectionDeltas, full_length_start.
    unfold gridSize in *.
    repeat case_match; intros [= <- <-]; lia. }
  split; [exact Hiff|]. intros grid. split.
  - intros Hcan. apply Hiff.
    now apply (canPlaceWord_true _ _ _ _ _ _ Hd) in Hcan as [Hend _].
  - intros Hnot.
    assert (Hend : endOutOfBounds (len word) row col direction = true).
    { destruct (endOutOfBounds _ _ _ _) eqn:E; [reflexivity|].
      exfalso. now apply Hnot, Hiff. }
    assert (Hcan : canPlaceWord grid word row col direction = Some false).
    { now rewrite (canPlaceWord_unfold _ _ _ _ _ _ Hd), Hend. }
    split; [exact Hend|]. split; [exact Hcan|].
    intros st r1 r2 r3 Hg H1 H2 H3. subst grid.
    exact (attemptBody_rejected word st row col direction r1 r2 r3 H1 H2 H3 Hcan).
Qed.

Lemma full_length_start_cells_witness :
  (endOutOfBounds (len "ABCDEFGHIJ") 5 9 LEFT = false <->
   full_length_start LEFT 5 9) /\
  (forall grid,
     (canPlaceWord grid "ABCDEFGHIJ" 5 9 LEFT = Some true ->
      full_length_start LEFT 5 9) /\
     (~ full_length_start LEFT 5 9 ->
      endOutOfBounds (len "ABCDEFGHIJ") 5 9 LEFT = true /\
      canPlaceWord grid "ABCDEFGHIJ" 5 9 LEFT = Some false /\
      forall st r1 r2 r3,
        a_grid st = grid ->
        Intn gridSize (a_rand st) = Some (5, r1) ->
        Intn gridSize r1 = Some (9, r2) ->
        Intn 8 r2 = Some (LEFT, r3) ->
        attemptBody "ABCDEFGHIJ" st =
          Some (mkAttempt grid (a_placements st) (a_placed st)
                  (GoInt.add (a_attempts st) 1) r3))).
Proof.
  apply (full_length_start_cells "ABCDEFGHIJ"%string 5 9 LEFT).
  - reflexivity.
  - unfold gridSize. lia.
  - unfold gridSize. lia.
Defined.

(** ** C5 *)

(** C5. (1) One iteration of the attempt loop never panics and adds
    exactly one to [attempts], whether or not the word was placed.
    (2) Started with [placed = false] and [attempts = 0], the loop for
    one word returns after [attempts] iterations, [attempts <= 100], each
    having consumed three draws; it stops with the word placed (exactly
    one placement of this word appended) or with [attempts = 100] (grid
    and placements untouched), and in the second case only a warning is
    printed and the engine state goes on to the next word.  (3) The whole
    generation returns for every list of strings: the words of the
    placements are a sublist of the words in order, the warnings a sublist
    of the words' warnings, and each word gave one or the other. *)
Theorem attempts_bounded :
  (forall word st,
     grid_ok (a_grid st) -> go_string word -> a_attempts st < maxAttempts ->
     GoInt.in_range (a_attempts st) ->
     exists st', attemptBody word st = Some st' /\
                 a_attempts st' = a_attempts st + 1) /\
  (forall word st,
     grid_ok (e_grid st) -> go_string word ->
     exists a,
       attemptLoop word
         (mkAttempt (e_grid st) (e_placements st) false 0 (e_rand st))
       = Some a /\
       0 <= a_attempts a <= maxAttempts /\
       Z.of_nat (pos (a_rand a))
       = Z.of_nat (pos (e_rand st)) + 3 * a_attempts a /\
       (a_placed a = true \/ a_attempts a = maxAttempts) /\
       (a_placed a = true ->
          exists p, Word p = word /\ a_placements a = e_placements st ++ [p]) /\
       (a_placed a = false ->
          a_attempts a = maxAttempts /\
          a_grid a = e_grid st /\ a_placements a = e_placements st) /\
       placeOneWord st word =
         Some (mkEngine (a_grid a) (a_placements a) (a_rand a)
                 (if a_placed a then e_out st
                  else e_out st ++ [EvWarnNotPlaced word maxAttempts]))) /\
  (forall words r,
     Forall go_string words ->
     exists grid pls r' out,
       generateWordSearchGrid words r = Some (grid, pls, r', out) /\
       sublist (map Word pls) words /\
       sublist out (map warning words) /\
       (length pls + length out = length words)%nat).
Proof.
  split_and!.
  - intros word st Hok Hgo Hlt Hrange.
    assert (Hadd : GoInt.add (a_attempts st) 1 = a_attempts st + 1).
    { apply wrap_small. unfold GoInt.in_range, GoInt.min_int, GoInt.max_int,
        maxAttempts in *. lia. }
    destruct (attemptBody_cases word st Hok Hgo) as [Hb | (p & g' & _ & Hb)];
      rewrite Hb; eexists; (split; [reflexivity|]); exact Hadd.
  - intros word st Hok Hgo.
    destruct (attemptLoop_outcome word (e_grid st) (e_placements st) (e_rand st)
                Hok Hgo) as (a & Hrun & (Hatt & _ & Hpos & Hcase) & Hmax).
    exists a. split; [exact Hrun|]. split; [exact Hatt|]. split; [exact Hpos|].
    split_and!.
    + destruct (a_placed a); [now left | right; now apply Hmax].
    + intros Hp. destruct Hcase as [(Hnp & _) | (_ & _ & p & Hacc & Hpl)];
        [congruence|]. exists p. split; [apply Hacc | exact Hpl].
    + intros Hnp. destruct Hcase as [(_ & Hg & Hpl) | (Hp & _)];
        [|congruence]. auto.
    + unfold placeOneWord. now rewrite Hrun.
  - intros words r Hwords.
    assert (Hin : Forall (word_in (fun _ => True)) words).
    { eapply Forall_impl; [exact Hwords|]. intros w Hw. now apply any_word_in. }
    destruct (generate_spec _ words r Hin)
      as (grid & pls & r' & out & Hrun & _ & _ & _ & Hsub & Hout & Hcount & _).
    exists grid, pls, r', out. auto.
Qed.

Lemma attempts_bounded_witness :
  (exists st',
     attemptBody "CAT" (mkAttempt zeroGrid [] false 0 (scripted [2; 1; 0]))
       = Some st' /\
     a_attempts st' = 0 + 1) /\
  (exists a,
     attemptLoop "transportation"
       (mkAttempt zeroGrid [] false 0 (scripted [])) = Some a /\
     0 <= a_attempts a <= maxAttempts /\
     Z.of_nat (pos (a_rand a)) = Z.of_nat 0 + 3 * a_attempts a /\
     (a_placed a = true \/ a_attempts a = maxAttempts) /\
     (a_placed a = true ->
        exists p, Word p = "transportation"%string /\
                  a_placements a = [] ++ [p]) /\
     (a_placed a = false ->
        a_attempts a = maxAttempts /\ a_grid a = zeroGrid /\
        a_placements a = []) /\
     placeOneWord (mkEngine zeroGrid [] (scripted []) []) "transportation" =
       Some (mkEngine (a_grid a) (a_placements a) (a_rand a)
               (if a_placed a then []
                else [] ++ [EvWarnNotPlaced "transportation" maxAttempts]))) /\
  (exists grid pls r' out,
     generateWordSearchGrid ["transportation"; "CAT"]%string
       (scripted []) = Some (grid, pls, r', out) /\
     sublist (map Word pls) ["transportation"; "CAT"]%string /\
     sublist out (map warning ["transportation"; "CAT"]%string) /\
     (length pls + length out = 2)%nat).
Proof.
  split_and!.
  - apply (proj1 attempts_bounded "CAT"%string
             (mkAttempt zeroGrid [] false 0 (scripted [2; 1; 0]))).
    + split; [reflexivity | repeat constructor].
    + apply Z.leb_le. reflexivity.
    + reflexivity.
    + split; apply Z.leb_le; reflexivity.
  - apply (proj1 (proj2 attempts_bounded) "transportation"%string
             (mkEngine zeroGrid [] (scripted []) [])).
    + split; [reflexivity | repeat constructor].
    + apply Z.leb_le. reflexivity.
  - apply (proj2 (proj2 attempts_bounded) ["transportation"; "CAT"]%string
             (scripted [])).
    go_strings.
Defined.

(** A word longer than the grid side uses up its 100 attempts (300
    draws) and is reported; the next word is still placed. *)
Example too_long_word_is_skipped :
  match generateWordSearchGrid ["transportation"; "CAT"]%string
          (scripted []) with
  | Some (_, pls, r', out) =>
    pls = [mkPlacement "CAT" 0 0 RIGHT] /\
    out = [EvWarnNotPlaced "transportation" 100] /\
    pos r' = 400%nat
  | None => False
  end.
Proof. vm_compute. auto. Qed.

(** ** C6 *)

(** C6. [loadCustomVocab] returns the trimmed non-blank lines of the
    file in order, and returns an error exactly when the file cannot be
    opened, reading fails, or there are fewer than 10 such lines.  [main]
    stops with a fatal error before any grid is generated exactly on a
    configuration error (file cannot be opened or read, fewer than 10
    non-blank lines, fewer than 10 words left by the length filter).  In
    every other case a grid is generated, however many words were placed,
    and the process ends as writing the image allows: with [os.Create] and
    [png.Encode] succeeding it exits normally with the image written. *)
Theorem fatal_exactly_on_config_error `{GoStrings} (vocabFile : string)
    (fs : string -> file_result) (createOk encodeOk : bool) (r : rng) :
  go_fs fs ->
  (forall filename,
     loadCustomVocab fs filename =
     match fs filename with
     | OpenFails => Err ErrOpen
     | Scanned lines scanErr =>
       if scanErr then Err ErrRead
       else if slice_len (nonblank_trimmed lines) <? 10
            then Err (ErrTooFew (slice_len (nonblank_trimmed lines)))
            else Ok (nonblank_trimmed lines)
     end) /\
  (forall filename,
     (exists e, loadCustomVocab fs filename = Err e) <->
     (fs filename = OpenFails \/
      exists lines scanErr,
        fs filename = Scanned lines scanErr /\
        (scanErr = true \/ slice_len (nonblank_trimmed lines) < 10))) /\
  (aborted_before_grid (main vocabFile fs createOk encodeOk r) <->
   config_error vocabFile fs) /\
  (~ config_error vocabFile fs ->
   generated_and_saved createOk encodeOk
     (main vocabFile fs createOk encodeOk r)).
Proof.
  intros Hfs. split_and!.
  - apply loadCustomVocab_eq.
  - intros filename. rewrite loadCustomVocab_eq.
    destruct (fs filename) as [|lines scanErr].
    + split; [auto | eauto].
    + split.
      * intros [e He]. right. exists lines, scanErr. split; [reflexivity|].
        destruct scanErr; [auto|].
        destruct (slice_len (nonblank_trimmed lines) <? 10) eqn:E;
          [apply Z.ltb_lt in E; auto | discriminate].
      * intros [Ho | (l & e & [= <- <-] & Hcase)]; [discriminate|].
        destruct scanErr; [eauto|]. destruct Hcase as [? | Hlt]; [discriminate|].
        apply Z.ltb_lt in Hlt. rewrite Hlt. eauto.
  - destruct (main_cases vocabFile fs createOk encodeOk r Hfs)
      as [[Hcfg Hab] | [Hcfg Hgen]].
    + tauto.
    + split; [|contradiction].
      intros Hab. exfalso.
      eapply not_generated_and_aborted; eassumption.
  - intros Hcfg.
    destruct (main_cases vocabFile fs createOk encodeOk r Hfs)
      as [[Hcfg' _] | [_ Hgen]]; [contradiction | exact Hgen].
Qed.

Lemma fatal_exactly_on_config_error_witness :
  (forall filename,
     @loadCustomVocab ascii_strings example_fs filename =
     match example_fs filename with
     | OpenFails => Err ErrOpen
     | Scanned lines scanErr =>
       if scanErr then Err ErrRead
       else if slice_len (@nonblank_trimmed ascii_strings lines) <? 10
            then Err (ErrTooFew
                        (slice_len (@nonblank_trimmed ascii_strings lines)))
            else Ok (@nonblank_trimmed ascii_strings lines)
     end) /\
  (forall filename,
     (exists e, @loadCustomVocab ascii_strings example_fs filename = Err e) <->
     (example_fs filename = OpenFails \/
      exists lines scanErr,
        example_fs filename = Scanned lines scanErr /\
        (scanErr = true \/
         slice_len (@nonblank_trimmed ascii_strings lines) < 10))) /\
  (aborted_before_grid
     (@main ascii_strings "words.txt" example_fs true true (scripted [])) <->
   @config_error ascii_strings "words.txt" example_fs) /\
  (~ @config_error ascii_strings "words.txt" example_fs ->
   generated_and_saved true true
     (@main ascii_strings "words.txt" example_fs true true (scripted []))).
Proof.
  apply (@fatal_exactly_on_config_error ascii_strings "words.txt"%string
           example_fs true true (scripted [])).
  intros f lines e [= <- _]. apply Z.leb_le. reflexivity.
Defined.

(** With ten usable words the run ends normally although nine of them
    could not be placed; with nine usable words it is fatal. *)
Example run_with_warnings :
  let x := @main ascii_strings "words.txt" example_fs true true (scripted []) in
  r_exit x = ExitOk /\
  length (List.filter (fun e => match e with
                                | EvWarnNotPlaced _ _ => true
                                | _ => false
                                end) (r_out x)) = 9%nat /\
  (exists img, r_image x = Some img).
Proof. vm_compute. eauto. Qed.

Example nine_words_is_fatal :
  let fs := fun _ : string =>
    Scanned ["apple"; "pear"; "plum"; "fig"; "kiwi"; "lime"; "date"; "nut";
             "yam"]%string false in
  @main ascii_strings "words.txt" fs true true (scripted [])
  = mkRun [EvGenerating; EvLoadingVocab "words.txt"] None None
          (ExitFatal (FatalVocab (ErrTooFew 9))).
Proof. vm_compute. reflexivity. Qed.

(** ** C7 *)

(** C7, as stated, fails: ten distinct words, two of which differ only
    in letter case, are all selected and come back with a duplicate. *)
Lemma selection_case_counterexample :
  ~ (forall (S : GoStrings) vocabulary r words r',
       NoDup vocabulary ->
       @selectWords S vocabulary r = Some (words, r') ->
       NoDup words).
Proof.
  intros Hall.
  specialize (Hall ascii_strings
    ["cat"; "CAT"; "dog"; "sun"; "hat"; "pen"; "cup"; "box"; "map"; "key"]%string
    (scripted [])
    ["CAT"; "KEY"; "MAP"; "BOX"; "CUP"; "PEN"; "HAT"; "SUN"; "DOG"; "CAT"]%string
    (mkRng (draws (scripted [])) 10)).
  assert (Hdup : NoDup ["CAT"; "KEY"; "MAP"; "BOX"; "CUP"; "PEN"; "HAT"; "SUN";
                        "DOG"; "CAT"]%string).
  { apply Hall; [nodup_list | reflexivity]. }
  apply NoDup_cons_1_1 in Hdup. apply Hdup.
  do 8 right. left.
Qed.

(** C7, amended.  The selection loop returns (for a vocabulary that is
    a Go slice); it returns exactly min(10, length) words, hence at most
    that many; each is the uppercase conversion of an element of the
    vocabulary; and when no two elements of the vocabulary have the same
    uppercase conversion, the returned list has no duplicates. *)
Theorem selection_properties `{GoStrings} (vocabulary : list string) (r : rng) :
  slice_len vocabulary <= GoInt.max_int ->
  exists words r',
    selectWords vocabulary r = Some (words, r') /\
    Z.of_nat (length words) = Z.min 10 (slice_len vocabulary) /\
    Z.of_nat (length words) <= Z.min 10 (slice_len vocabulary) /\
    Forall (fun w => exists v, v ∈ vocabulary /\ w = ToUpper v) words /\
    (NoDup (map ToUpper vocabulary) -> NoDup words).
Proof.
  intros Hmax.
  destruct (selectWords_spec vocabulary r Hmax)
    as (drawn & rest & r' & Hrun & Hperm & Hlen).
  exists (map ToUpper drawn), r'. rewrite length_map.
  split_and!; [exact Hrun | exact Hlen | lia | |].
  - apply Forall_forall. intros w Hw.
    apply list_elem_of_fmap in Hw as (v & -> & Hv). exists v.
    split; [|reflexivity]. rewrite <- Hperm. apply elem_of_app. now left.
  - intros Hnd. rewrite <- Hperm, map_app in Hnd.
    now apply NoDup_app in Hnd as [Hnd _].
Qed.

Lemma selection_properties_witness :
  exists words r',
    @selectWords ascii_strings
      ["cat"; "dog"; "sun"; "hat"; "pen"; "cup"; "box"; "map"; "key"; "owl";
       "fox"; "bee"]%string (scripted [3; 1; 4; 1; 5; 9; 2; 6; 5; 3])
      = Some (words, r') /\
    Z.of_nat (length words) = Z.min 10 (slice_len
      ["cat"; "dog"; "sun"; "hat"; "pen"; "cup"; "box"; "map"; "key"; "owl";
       "fox"; "bee"]%string) /\
    Z.of_nat (length words) <= Z.min 10 (slice_len
      ["cat"; "dog"; "sun"; "hat"; "pen"; "cup"; "box"; "map"; "key"; "owl";
       "fox"; "bee"]%string) /\
    Forall (fun w => exists v,
              v ∈ ["cat"; "dog"; "sun"; "hat"; "pen"; "cup"; "box"; "map";
                   "key"; "owl"; "fox"; "bee"]%string /\
              w = @ToUpper ascii_strings v) words /\
    (NoDup (map (@ToUpper ascii_strings)
              ["cat"; "dog"; "sun"; "hat"; "pen"; "cup"; "box"; "map"; "key";
               "owl"; "fox"; "bee"]%string) -> NoDup words).
Proof.
  apply (@selection_properties ascii_strings
           ["cat"; "dog"; "sun"; "hat"; "pen"; "cup"; "box"; "map"; "key";
            "owl"; "fox"; "bee"]%string
           (scripted [3; 1; 4; 1; 5; 9; 2; 6; 5; 3])).
  apply Z.leb_le. reflexivity.
Defined.

Example selection_example :
  @selectWords ascii_strings
    ["cat"; "dog"; "sun"; "hat"; "pen"; "cup"; "box"; "map"; "key"; "owl";
     "fox"; "bee"]%string (scripted [3; 1; 4; 1; 5; 9; 2; 6; 5; 3])
  = Some (["HAT"; "DOG"; "PEN"; "FOX"; "CUP"; "SUN"; "BOX"; "KEY"; "OWL";
           "CAT"]%string,
          mkRng (draws (scripted [3; 1; 4; 1; 5; 9; 2; 6; 5; 3])) 10).
Proof. vm_compute. reflexivity. Qed.

(** ** C8 *)

(** C8. [filterWordsByLength] returns exactly the words of length at
    most [maxLength], in input order (a sublist of the input); what it
    prints is only the report of the removed words; and filtering its
    result again with the same maximum returns the same list and reports
    nothing. *)
Theorem filter_exact_and_idempotent (words : list string) (maxLength : Z) :
  (filterWordsByLength words maxLength).1 =
    List.filter (fun w => len w <=? maxLength) words /\
  sublist (filterWordsByLength words maxLength).1 words /\
  (forall w, w ∈ (filterWordsByLength words maxLength).1 <->
             w ∈ words /\ len w <= maxLength) /\
  (filterWordsByLength words maxLength).2 =
    (let removedWords :=
       List.filter (fun w => negb (len w <=? maxLength)) words in
     if slice_len removedWords >? 0 then
       EvRemovedHeader (slice_len removedWords) maxLength
         :: map (fun word => EvRemovedWord word (len word)) removedWords
     else []) /\
  filterWordsByLength (filterWordsByLength words maxLength).1 maxLength =
    ((filterWordsByLength words maxLength).1, []).
Proof.
  rewrite filterWordsByLength_fst. split_and!.
  - reflexivity.
  - induction words as [|w words IH]; cbn [List.filter]; [constructor|].
    destruct (len w <=? maxLength); now constructor.
  - intros w. rewrite list_elem_of_In, filter_In, Z.leb_le, <- list_elem_of_In.
    reflexivity.
  - unfold filterWordsByLength. now rewrite filter_fold.
  - unfold filterWordsByLength. rewrite filter_fold. cbn [app].
    destruct (filter_all_kept maxLength
                (List.filter (fun w => len w <=? maxLength) words)) as [-> ->].
    + apply Forall_forall. intros w Hw.
      now apply list_elem_of_In, filter_In in Hw as [_ Hw].
    + reflexivity.
Qed.

Example filter_example :
  filterWordsByLength ["ache"; "transportation"; "fog"; "illustrator"]%string 10
  = (["ache"; "fog"]%string,
     [EvRemovedHeader 2 10; EvRemovedWord "transportation" 14;
      EvRemovedWord "illustrator" 11]).
Proof. reflexivity. Qed.

(** ** C9 *)

(** C9. For a word of length between 1 and [gridSize], a start cell on
    the grid and any direction: if the bounds test of [canPlaceWord]
    passes, every cell of the path (offsets 0 to length - 1) is on the
    grid, the coordinates the code computes are exactly start plus delta
    times offset, and neither [canPlaceWord] nor [placeWord] indexes off
    the grid (both return).  Consequently, for any list of strings, each
    placement the engine records has its whole path on the grid, and the
    verifier reads a grid cell (never the out-of-bounds mark) at every
    offset of it. *)
Theorem path_on_grid :
  (forall word row col direction,
     1 <= len word <= gridSize ->
     0 <= row < gridSize -> 0 <= col < gridSize ->
     endOutOfBounds (len word) row col direction = false ->
     (forall i, 0 <= i < len word ->
        cellAt row col (getDirectionDeltas direction).1
               (getDirectionDeltas direction).2 i
        = (row + (getDirectionDeltas direction).1 * i,
           col + (getDirectionDeltas direction).2 * i) /\
        0 <= row + (getDirectionDeltas direction).1 * i < gridSize /\
        0 <= col + (getDirectionDeltas direction).2 * i < gridSize) /\
     (forall grid, grid_ok grid ->
        (exists b, canPlaceWord grid word row col direction = Some b) /\
        (exists grid', placeWord grid word row col direction = Some grid'))) /\
  (forall words r,
     Forall go_string words ->
     exists grid pls r' out,
       generateWordSearchGrid words r = Some (grid, pls, r', out) /\
       Forall (fun p => forall i, 0 <= i < len (Word p) ->
         (0 <= Row p + (getDirectionDeltas (Direction p)).1 * i < gridSize /\
          0 <= Col p + (getDirectionDeltas (Direction p)).2 * i < gridSize) /\
         forall acc, exists v,
           grid_get grid (Row p + (getDirectionDeltas (Direction p)).1 * i)
                         (Col p + (getDirectionDeltas (Direction p)).2 * i)
             = Some v /\
           extractStep grid (Row p) (Col p)
             (getDirectionDeltas (Direction p)).1
             (getDirectionDeltas (Direction p)).2 acc i
             = Some (acc ++ encodeRune v)) pls).
Proof.
  split.
  - intros word row col direction Hlen Hr Hc Hend.
    destruct (getDirectionDeltas direction) as [dRow dCol] eqn:Hd. simpl.
    assert (Hmod : len word < 2 ^ 62) by (apply short_moderate; lia).
    split.
    + intros i Hi. eapply path_in_bounds; eauto; lia.
    + intros grid Hok. split.
      * eapply canPlaceWord_total; eauto.
      * destruct (placeWord_total word row col direction dRow dCol Hd
                    Hr Hc Hmod grid Hok Hend) as (g' & Hg' & _). eauto.
  - intros words r Hwords.
    assert (Hin : Forall (word_in (fun _ => True)) words).
    { eapply Forall_impl; [exact Hwords|]. intros w Hw. now apply any_word_in. }
    destruct (generate_spec _ words r Hin)
      as (grid & pls & r' & out & Hrun & Hok & _ & Hpl & _).
    exists grid, pls, r', out. split; [exact Hrun|].
    eapply Forall_impl; [exact Hpl|]. intros p [Hfit _] i Hi.
    split.
    + exact (proj1 (extractStep_on_grid grid p i [] Hok Hfit Hi)).
    + intros acc.
      exact (proj2 (extractStep_on_grid grid p i acc Hok Hfit Hi)).
Qed.

Lemma path_on_grid_witness :
  ((forall i, 0 <= i < len "FOREST" ->
      cellAt 6 7 (getDirectionDeltas UP_LEFT).1 (getDirectionDeltas UP_LEFT).2 i
      = (6 + (getDirectionDeltas UP_LEFT).1 * i,
         7 + (getDirectionDeltas UP_LEFT).2 * i) /\
      0 <= 6 + (getDirectionDeltas UP_LEFT).1 * i < gridSize /\
      0 <= 7 + (getDirectionDeltas UP_LEFT).2 * i < gridSize) /\
   (forall grid, grid_ok grid ->
      (exists b, canPlaceWord grid "FOREST" 6 7 UP_LEFT = Some b) /\
      (exists grid', placeWord grid "FOREST" 6 7 UP_LEFT = Some grid'))) /\
  (exists grid pls r' out,
     generateWordSearchGrid ["FOREST"; "transportation"]%string
       (scripted [6; 7; 7]) = Some (grid, pls, r', out) /\
     Forall (fun p => forall i, 0 <= i < len (Word p) ->
       (0 <= Row p + (getDirectionDeltas (Direction p)).1 * i < gridSize /\
        0 <= Col p + (getDirectionDeltas (Direction p)).2 * i < gridSize) /\
       forall acc, exists v,
         grid_get grid (Row p + (getDirectionDeltas (Direction p)).1 * i)
                       (Col p + (getDirectionDeltas (Direction p)).2 * i)
           = Some v /\
         extractStep grid (Row p) (Col p)
           (getDirectionDeltas (Direction p)).1
           (getDirectionDeltas (Direction p)).2 acc i
           = Some (acc ++ encodeRune v)) pls).
Proof.
  split.
  - apply (proj1 path_on_grid "FOREST"%string 6 7 UP_LEFT).
    + leb_bounds.
    + unfold gridSize. lia.
    + unfold gridSize. lia.
    + reflexivity.
  - apply (proj2 path_on_grid ["FOREST"; "transportation"]%string
             (scripted [6; 7; 7])).
    go_strings.
Defined.

(** ** C10 *)

(** C10. When [placeWord] returns (start coordinates are [int]s, the
    word a Go string), it has modified only cells of the word's path:
    every cell that is not start + delta * i for some offset
    0 <= i < length holds what it held before, and a path cell that
    already held the word's letter at that offset still holds it. *)
Theorem placeWord_frame (grid : list (list Z)) (word : string)
    (row col direction : Z) (grid' : list (list Z)) :
  GoInt.in_range row -> GoInt.in_range col -> go_string word ->
  placeWord grid word row col direction = Some grid' ->
  (forall r c,
     (forall i, 0 <= i < len word ->
        (r, c) <> (row + (getDirectionDeltas direction).1 * i,
                   col + (getDirectionDeltas direction).2 * i)) ->
     grid_get grid' r c = grid_get grid r c) /\
  (forall i letter,
     (i, letter) ∈ rangeString word ->
     grid_get grid (row + (getDirectionDeltas direction).1 * i)
                   (col + (getDirectionDeltas direction).2 * i) = Some letter ->
     grid_get grid' (row + (getDirectionDeltas direction).1 * i)
                    (col + (getDirectionDeltas direction).2 * i) = Some letter).
Proof.
  intros Hr Hc Hgo Hp.
  pose proof (fun i letter => placeWord_success_exact grid word row col
                direction grid' i letter Hr Hc Hgo Hp) as Hexact.
  destruct (getDirectionDeltas direction) as [dRow dCol] eqn:Hd. simpl in *.
  destruct (getDirectionDeltas_unit _ _ _ Hd) as (HdR & HdC & Hnz).
  rewrite (placeWord_unfold _ _ _ _ _ _ Hd) in Hp.
  split.
  - intros r c Hoff. apply (placeLoop_frame _ _ _ _ _ _ _ r c Hp).
    intros i letter Hin. destruct (Hexact i letter Hin) as (-> & _).
    apply Hoff. eapply rangeString_index. exact Hin.
  - intros i letter Hin _.
    pose proof (placeLoop_written _ _ _ _ _ _ _ Hp (rangeString_NoDup word))
      as Hw.
    destruct (Hexact i letter Hin) as (Hcell & _).
    assert (Hwi : grid_get grid' (cellAt row col dRow dCol i).1
                           (cellAt row col dRow dCol i).2 = Some letter);
      [|now rewrite Hcell in Hwi].
    apply Hw; [|exact Hin].
    intros a b Ha Hb.
    apply list_elem_of_fmap in Ha as ([a' la] & -> & Ha).
    apply list_elem_of_fmap in Hb as ([b' lb] & -> & Hb). simpl.
    destruct (Hexact _ _ Ha) as (-> & _). destruct (Hexact _ _ Hb) as (-> & _).
    intros [= H1 H2]. unfold unit_delta in *. nia.
Qed.

Lemma placeWord_frame_witness :
  (forall r c,
     (forall i, 0 <= i < len "TAP" ->
        (r, c) <> (1 + (getDirectionDeltas DOWN).1 * i,
                   2 + (getDirectionDeltas DOWN).2 * i)) ->
     grid_get
       [[0; 0; 0; 0; 0; 0; 0; 0; 0; 0]; [0; 0; 84; 0; 0; 0; 0; 0; 0; 0];
        [0; 67; 65; 84; 0; 0; 0; 0; 0; 0]; [0; 0; 80; 0; 0; 0; 0; 0; 0; 0];
        [0; 0; 0; 0; 0; 0; 0; 0; 0; 0]; [0; 0; 0; 0; 0; 0; 0; 0; 0; 0];
        [0; 0; 0; 0; 0; 0; 0; 0; 0; 0]; [0; 0; 0; 0; 0; 0; 0; 0; 0; 0];
        [0; 0; 0; 0; 0; 0; 0; 0; 0; 0]; [0; 0; 0; 0; 0; 0; 0; 0; 0; 0]] r c
     = grid_get grid_with_CAT r c) /\
  (forall i letter,
     (i, letter) ∈ rangeString "TAP" ->
     grid_get grid_with_CAT (1 + (getDirectionDeltas DOWN).1 * i)
                            (2 + (getDirectionDeltas DOWN).2 * i) = Some letter ->
     grid_get
       [[0; 0; 0; 0; 0; 0; 0; 0; 0; 0]; [0; 0; 84; 0; 0; 0; 0; 0; 0; 0];
        [0; 67; 65; 84; 0; 0; 0; 0; 0; 0]; [0; 0; 80; 0; 0; 0; 0; 0; 0; 0];
        [0; 0; 0; 0; 0; 0; 0; 0; 0; 0]; [0; 0; 0; 0; 0; 0; 0; 0; 0; 0];
        [0; 0; 0; 0; 0; 0; 0; 0; 0; 0]; [0; 0; 0; 0; 0; 0; 0; 0; 0; 0];
        [0; 0; 0; 0; 0; 0; 0; 0; 0; 0]; [0; 0; 0; 0; 0; 0; 0; 0; 0; 0]]
       (1 + (getDirectionDeltas DOWN).1 * i)
       (2 + (getDirectionDeltas DOWN).2 * i) = Some letter).
Proof.
  apply (placeWord_frame grid_with_CAT "TAP"%string 1 2 DOWN).
  - split; apply Z.leb_le; reflexivity.
  - split; apply Z.leb_le; reflexivity.
  - apply Z.leb_le. reflexivity.
  - reflexivity.
Defined.

(** * Further properties *)

(** ** Arithmetic of the layout *)

Lemma fixed_I_exact (i : Z) : - 2 ^ 25 <= i < 2 ^ 25 -> fixed_I i = 64 * i.
Proof.
  intros Hi. unfold fixed_I. rewrite Z.shiftl_mul_pow2 by lia.
  rewrite wrap_small by (unfold GoInt.in_range, GoInt.min_int, GoInt.max_int; lia).
  rewrite wrap32_small by lia. lia.
Qed.

Lemma add_exact (a b : Z) :
  - 2 ^ 62 <= a < 2 ^ 62 -> - 2 ^ 62 <= b < 2 ^ 62 -> GoInt.add a b = a + b.
Proof.
  intros Ha Hb. apply wrap_small.
  unfold GoInt.in_range, GoInt.min_int, GoInt.max_int. lia.
Qed.

Lemma mul_exact (a b : Z) :
  - 2 ^ 31 <= a <= 2 ^ 31 -> - 2 ^ 31 <= b <= 2 ^ 31 -> GoInt.mul a b = a * b.
Proof.
  intros Ha Hb. apply wrap_small.
  unfold GoInt.in_range, GoInt.min_int, GoInt.max_int. nia.
Qed.

Lemma sub_exact (a b : Z) :
  - 2 ^ 62 <= a < 2 ^ 62 -> - 2 ^ 62 <= b < 2 ^ 62 -> GoInt.sub a b = a - b.
Proof.
  intros Ha Hb. apply wrap_small.
  unfold GoInt.in_range, GoInt.min_int, GoInt.max_int. lia.
Qed.

Lemma calculateHeaderHeight_exact (wordCount : Z) :
  0 <= wordCount <= 2 ^ 31 ->
  calculateHeaderHeight wordCount = 40 + 20 * ((wordCount + 3) / 4).
Proof.
  intros Hn. unfold calculateHeaderHeight, wordsPerRow, titleHeight,
    wordRowSpacing, headerPadding.
  rewrite (add_exact wordCount 4) by lia.
  rewrite (sub_exact (wordCount + 4) 1) by lia.
  rewrite Z.quot_div_nonneg by lia.
  replace (wordCount + 4 - 1) with (wordCount + 3) by lia.
  assert (0 <= (wordCount + 3) / 4 <= 2 ^ 30).
  { split; [apply Z.div_pos; lia|].
    apply Z.div_le_upper_bound; lia. }
  rewrite mul_exact by lia.
  rewrite (add_exact 25) by lia. rewrite add_exact by lia. lia.
Qed.

(** ** The direction table *)

(** X1. The eight direction constants are the eight steps to a
    neighbouring cell, each exactly once: every direction in [0, 8) has
    unit deltas that are not both zero, two different directions have
    different deltas, every such step is the delta of some direction; a
    value outside [0, 8) is treated as RIGHT. *)
Theorem direction_table :
  (forall d, 0 <= d < 8 ->
     unit_delta (getDirectionDeltas d).1 /\
     unit_delta (getDirectionDeltas d).2 /\
     getDirectionDeltas d <> (0, 0)) /\
  (forall d1 d2, 0 <= d1 < 8 -> 0 <= d2 < 8 ->
     getDirectionDeltas d1 = getDirectionDeltas d2 -> d1 = d2) /\
  (forall dRow dCol, unit_delta dRow -> unit_delta dCol ->
     (dRow, dCol) <> (0, 0) ->
     exists d, 0 <= d < 8 /\ getDirectionDeltas d = (dRow, dCol)) /\
  (forall d, ~ 0 <= d < 8 -> getDirectionDeltas d = getDirectionDeltas RIGHT).
Proof.
  split_and!.
  - intros d Hd.
    assert (Hc : d = 0 \/ d = 1 \/ d = 2 \/ d = 3 \/ d = 4 \/ d = 5 \/ d = 6
                 \/ d = 7) by lia.
    unfold unit_delta.
    destruct_or!; subst d; cbn; split_and!; try lia; discriminate.
  - intros d1 d2 H1 H2.
    assert (Hc1 : d1 = 0 \/ d1 = 1 \/ d1 = 2 \/ d1 = 3 \/ d1 = 4 \/ d1 = 5
                  \/ d1 = 6 \/ d1 = 7) by lia.
    assert (Hc2 : d2 = 0 \/ d2 = 1 \/ d2 = 2 \/ d2 = 3 \/ d2 = 4 \/ d2 = 5
                  \/ d2 = 6 \/ d2 = 7) by lia.
    destruct_or!; subst d1 d2; cbn; intros Heq; try reflexivity;
      discriminate Heq.
  - unfold unit_delta. intros dRow dCol HR HC Hnz.
    destruct_or!; subst dRow dCol; try (now destruct Hnz);
      first [ exists RIGHT; split; [cbv; intuition discriminate | reflexivity]
            | exists LEFT; split; [cbv; intuition discriminate | reflexivity]
            | exists DOWN; split; [cbv; intuition discriminate | reflexivity]
            | exists UP; split; [cbv; intuition discriminate | reflexivity]
            | exists DOWN_RIGHT; split;
              [cbv; intuition discriminate | reflexivity]
            | exists DOWN_LEFT; split;
              [cbv; intuition discriminate | reflexivity]
            | exists UP_RIGHT; split;
              [cbv; intuition discriminate | reflexivity]
            | exists UP_LEFT; split;
              [cbv; intuition discriminate | reflexivity] ].
  - intros d Hd. unfold getDirectionDeltas, RIGHT, LEFT, DOWN, UP, DOWN_RIGHT,
      DOWN_LEFT, UP_RIGHT, UP_LEFT.
    repeat match goal with
           | |- context [?a =? ?b] =>
             destruct (Z.eqb_spec a b); [lia|]
           end.
    reflexivity.
Qed.

Lemma direction_table_witness :
  (unit_delta (getDirectionDeltas DOWN_LEFT).1 /\
   unit_delta (getDirectionDeltas DOWN_LEFT).2 /\
   getDirectionDeltas DOWN_LEFT <> (0, 0)) /\
  (getDirectionDeltas UP = getDirectionDeltas UP -> UP = UP) /\
  (exists d, 0 <= d < 8 /\ getDirectionDeltas d = (-1, 1)) /\
  getDirectionDeltas 8 = getDirectionDeltas RIGHT.
Proof.
  destruct direction_table as (Hunit & Hinj & Hsurj & Hdefault).
  split; [|split; [|split]].
  - apply Hunit. unfold DOWN_LEFT. lia.
  - apply Hinj; unfold UP; lia.
  - apply Hsurj; [left; reflexivity | right; right; reflexivity | discriminate].
  - apply Hdefault. lia.
Defined.

(** ** The header *)

(** X2. For a word count in [0, 2^31], [calculateHeaderHeight] is the
    title height plus one row spacing for each row of [wordsPerRow] words,
    plus the padding, where the number of rows is the least one that
    holds all the words (ceiling division). *)
Theorem header_height_rows (wordCount : Z) :
  0 <= wordCount <= 2 ^ 31 ->
  exists wordRows,
    calculateHeaderHeight wordCount
    = titleHeight + wordRows * wordRowSpacing + headerPadding /\
    wordsPerRow * (wordRows - 1) < wordCount <= wordsPerRow * wordRows.
Proof.
  intros Hn. exists ((wordCount + 3) / 4).
  rewrite calculateHeaderHeight_exact by exact Hn.
  unfold titleHeight, wordRowSpacing, headerPadding, wordsPerRow.
  pose proof (Z.div_mod (wordCount + 3) 4 ltac:(lia)).
  pose proof (Z.mod_pos_bound (wordCount + 3) 4 ltac:(lia)).
  lia.
Qed.

Lemma header_height_rows_witness :
  exists wordRows,
    calculateHeaderHeight 10
    = titleHeight + wordRows * wordRowSpacing + headerPadding /\
    wordsPerRow * (wordRows - 1) < 10 <= wordsPerRow * wordRows.
Proof. apply (header_height_rows 10). lia. Defined.

(** ** The word list *)

(** X3. [drawWordList] draws the title and then one text for each word.
    Word number [i] (from 0) is drawn with its own bytes at pixel
    x = 10 + 80 * (i mod 4), y = 45 + 20 * (i / 4), given to the drawer in
    26.6 fixed point without wrap-around; its 80 pixel wide slot lies
    inside the image width, below the title line, and its baseline plus
    the padding is within the header height that [calculateHeaderHeight]
    gives for this number of words. *)
Theorem word_list_layout (words : list string) (i : nat) (word : string) :
  slice_len words <= 2 ^ 20 ->
  words !! i = Some word ->
  length (drawWordList words) = S (length words) /\
  exists op x y,
    drawWordList words !! S i = Some op /\
    d_text op = bytes_of word /\
    d_x op = fixed_I x /\ d_x op = 64 * x /\
    d_y op = fixed_I y /\ d_y op = 64 * y /\
    x = 10 + 80 * (Z.of_nat i `mod` wordsPerRow) /\
    y = 45 + wordRowSpacing * (Z.of_nat i / wordsPerRow) /\
    0 <= x /\ x + 80 <= imgWidth /\
    titleHeight <= y /\
    y + headerPadding <= calculateHeaderHeight (slice_len words).
Proof.
  intros Hn Hi. split.
  { unfold drawWordList. cbn [length]. now rewrite length_imap. }
  apply lookup_lt_Some in Hi as Hlt. unfold slice_len in Hn.
  assert (Hi0 : 0 <= Z.of_nat i < 2 ^ 20) by lia.
  pose proof (Z.mod_pos_bound (Z.of_nat i) 4 ltac:(lia)) as Hm.
  assert (Hq : 0 <= Z.of_nat i / 4 < 2 ^ 20).
  { split; [apply Z.div_pos; lia|]. apply Z.div_lt_upper_bound; lia. }
  assert (Hrows : Z.of_nat i / 4 + 1 <= (Z.of_nat (length words) + 3) / 4).
  { apply Z.div_le_lower_bound; [lia|].
    pose proof (Z.div_mod (Z.of_nat i) 4 ltac:(lia)). lia. }
  assert (Hop : drawWordList words !! S i
                = Some (drawWord (Z.of_nat i) word)).
  { etrans; [apply (list_lookup_imap
                      (fun i word => drawWord (Z.of_nat i) word) words i)|].
    rewrite Hi. reflexivity. }
  rewrite Hop. clear Hop.
  exists (drawWord (Z.of_nat i) word),
         (10 + 80 * (Z.of_nat i `mod` wordsPerRow)),
         (45 + wordRowSpacing * (Z.of_nat i / wordsPerRow)).
  assert (Hx : GoInt.add 10 (GoInt.mul (Z.rem (Z.of_nat i) 4) 80)
               = 10 + 80 * (Z.of_nat i `mod` 4)).
  { rewrite Z.rem_mod_nonneg by lia. rewrite mul_exact by lia.
    rewrite add_exact by lia. lia. }
  assert (Hy : GoInt.add 45 (GoInt.mul (Z.quot (Z.of_nat i) 4) 20)
               = 45 + 20 * (Z.of_nat i / 4)).
  { rewrite Z.quot_div_nonneg by lia. rewrite mul_exact by lia.
    rewrite add_exact by lia. lia. }
  rewrite calculateHeaderHeight_exact by (unfold slice_len; lia).
  unfold drawWord. cbn [d_x d_y d_text]. rewrite Hx, Hy.
  unfold wordsPerRow, wordRowSpacing, imgWidth, gridSize, cellSize,
    titleHeight, headerPadding, slice_len.
  split_and!; try reflexivity; try (apply fixed_I_exact; lia); lia.
Qed.

Lemma word_list_layout_witness :
  length (drawWordList ["CAT"; "DOG"; "SUN"; "HAT"; "PEN"; "OWL"]%string) = 7%nat /\
  exists op x y,
    drawWordList ["CAT"; "DOG"; "SUN"; "HAT"; "PEN"; "OWL"]%string !! 6%nat
    = Some op /\
    d_text op = bytes_of "OWL" /\
    d_x op = fixed_I x /\ d_x op = 64 * x /\
    d_y op = fixed_I y /\ d_y op = 64 * y /\
    x = 10 + 80 * (Z.of_nat 5 `mod` wordsPerRow) /\
    y = 45 + wordRowSpacing * (Z.of_nat 5 / wordsPerRow) /\
    0 <= x /\ x + 80 <= imgWidth /\
    titleHeight <= y /\
    y + headerPadding <= calculateHeaderHeight
                           (slice_len ["CAT"; "DOG"; "SUN"; "HAT"; "PEN"; "OWL"]%string).
Proof.
  apply (word_list_layout ["CAT"; "DOG"; "SUN"; "HAT"; "PEN"; "OWL"]%string
           5 "OWL"%string).
  - apply Z.leb_le. reflexivity.
  - reflexivity.
Defined.

(** ** The letters of the grid *)

(** The cells of the grid, row by row, are the elements of the
    enumeration at index [row * gridSize + col]. *)
Lemma lookup_grid_enum {A : Type} (f : Z -> Z -> A) (row col : Z) :
  0 <= row < gridSize -> 0 <= col < gridSize ->
  flat_map (fun r => map (f r) gridRange) gridRange
    !! Z.to_nat (row * gridSize + col) = Some (f row col).
Proof.
  unfold gridSize. intros Hr Hc.
  assert (Hrow : row = 0 \/ row = 1 \/ row = 2 \/ row = 3 \/ row = 4
                 \/ row = 5 \/ row = 6 \/ row = 7 \/ row = 8 \/ row = 9) by lia.
  assert (Hcol : col = 0 \/ col = 1 \/ col = 2 \/ col = 3 \/ col = 4
                 \/ col = 5 \/ col = 6 \/ col = 7 \/ col = 8 \/ col = 9) by lia.
  destruct_or!; subst row col; reflexivity.
Qed.

(** Two loop bodies that agree on the elements give the same loop. *)
Lemma foldM_ext_in {A S : Type} (f f' : S -> A -> option S) (l : list A) :
  (forall s a, a ∈ l -> f s a = f' s a) ->
  forall s, foldM f l s = foldM f' l s.
Proof.
  induction l as [|a l IH]; intros Hf s; cbn [foldM]; [reflexivity|].
  rewrite (Hf s a) by left. destruct (f' s a); [|reflexivity].
  apply IH. intros; apply Hf; now right.
Qed.

(** A loop that appends a value for each element. *)
Lemma foldM_pure_append {A C : Type} (k : A -> list C) (l : list A) :
  forall acc,
    foldM (fun acc a => Some (acc ++ k a)) l acc = Some (acc ++ flat_map k l).
Proof.
  induction l as [|a l IH]; intros acc; cbn [foldM flat_map].
  - now rewrite app_nil_r.
  - rewrite IH. now rewrite <- app_assoc.
Qed.

Lemma flat_map_singleton {A B : Type} (f : A -> B) (l : list A) :
  flat_map (fun a => [f a]) l = map f l.
Proof. induction l as [|a l IH]; cbn; [reflexivity | now rewrite IH]. Qed.

Lemma grid_get_cellOr0 grid row col :
  grid_ok grid -> row ∈ gridRange -> col ∈ gridRange ->
  grid_get grid row col = Some (cellOr0 grid row col).
Proof.
  intros Hok Hr Hc. apply gridRange_spec in Hr, Hc.
  destruct (grid_get_ok grid row col Hok Hr Hc) as [v Hv].
  unfold cellOr0. now rewrite Hv.
Qed.

Lemma drawLetterGrid_eq grid headerHeight :
  grid_ok grid ->
  drawLetterGrid grid headerHeight
  = Some (flat_map (fun row =>
            map (fun col => drawLetterInCell (cellOr0 grid row col) row col
                              headerHeight) gridRange) gridRange).
Proof.
  intros Hok. unfold drawLetterGrid.
  rewrite (foldM_ext_in _
             (fun ops row =>
                Some (ops ++ map (fun col =>
                                    drawLetterInCell (cellOr0 grid row col)
                                      row col headerHeight) gridRange))).
  - now rewrite foldM_pure_append.
  - intros ops row Hr.
    rewrite (foldM_ext_in _
               (fun ops' col =>
                  Some (ops' ++ [drawLetterInCell (cellOr0 grid row col)
                                   row col headerHeight]))).
    + now rewrite foldM_pure_append, flat_map_singleton.
    + intros ops' col Hc. now rewrite (grid_get_cellOr0 grid row col Hok Hr Hc).
Qed.

(** X4. On a grid value and with a header height in [0, 2^20],
    [drawLetterGrid] returns (no index is out of range) with one draw for
    each of the [gridSize * gridSize] cells, row by row.  The draw for
    cell ([row], [col]) has the encoding of that cell's rune as its text,
    at pixel x = col * cellSize + 16, y = headerHeight + row * cellSize +
    23; the 7 by 13 letter box ending at this baseline lies inside the
    cell, so inside the image and below the header. *)
Theorem letter_grid_layout (grid : list (list Z)) (headerHeight row col : Z) :
  grid_ok grid -> 0 <= headerHeight <= 2 ^ 20 ->
  0 <= row < gridSize -> 0 <= col < gridSize ->
  exists ops letter op x y,
    drawLetterGrid grid headerHeight = Some ops /\
    length ops = Z.to_nat (gridSize * gridSize) /\
    grid_get grid row col = Some letter /\
    ops !! Z.to_nat (row * gridSize + col) = Some op /\
    d_text op = encodeRune letter /\
    d_x op = 64 * x /\ d_y op = 64 * y /\
    x = col * cellSize + 16 /\
    y = headerHeight + row * cellSize + 23 /\
    col * cellSize <= x /\ x + 7 <= (col + 1) * cellSize /\
    headerHeight + row * cellSize <= y - 13 /\
    y <= headerHeight + (row + 1) * cellSize /\
    0 <= x /\ x + 7 <= imgWidth /\
    headerHeight <= y - 13 /\ y <= gridSize * cellSize + headerHeight.
Proof.
  intros Hok Hh Hr Hc.
  destruct (grid_get_ok grid row col Hok Hr Hc) as [letter Hget].
  eexists _, letter, (drawLetterInCell letter row col headerHeight),
    (col * cellSize + 16), (headerHeight + row * cellSize + 23).
  split; [apply (drawLetterGrid_eq grid headerHeight Hok)|].
  split.
  { rewrite flat_map_concat_map, length_concat, !map_map.
    cbn. reflexivity. }
  split; [exact Hget|].
  split.
  { rewrite (lookup_grid_enum
               (fun row col => drawLetterInCell (cellOr0 grid row col) row col
                                 headerHeight) row col Hr Hc).
    unfold cellOr0. now rewrite Hget. }
  unfold drawLetterInCell, imgWidth, cellSize, gridSize in *.
  cbn [d_x d_y d_text].
  rewrite (sub_exact 40 7), (sub_exact 40 13) by lia.
  change (Z.quot (40 - 7) 2) with 16. change (Z.quot (40 - 13) 2) with 13.
  rewrite (mul_exact col 40), (mul_exact row 40) by lia.
  rewrite (add_exact (col * 40) 16) by lia.
  rewrite (add_exact (row * 40) headerHeight) by lia.
  rewrite (add_exact (row * 40 + headerHeight) 13) by lia.
  rewrite (add_exact (row * 40 + headerHeight + 13) 10) by lia.
  rewrite (fixed_I_exact (col * 40 + 16)) by lia.
  rewrite (fixed_I_exact (row * 40 + headerHeight + 13 + 10)) by lia.
  split_and!; try reflexivity; lia.
Qed.

Lemma letter_grid_layout_witness :
  exists ops letter op x y,
    drawLetterGrid grid_with_CAT 100 = Some ops /\
    length ops = Z.to_nat (gridSize * gridSize) /\
    grid_get grid_with_CAT 2 1 = Some letter /\
    ops !! Z.to_nat (2 * gridSize + 1) = Some op /\
    d_text op = encodeRune letter /\
    d_x op = 64 * x /\ d_y op = 64 * y /\
    x = 1 * cellSize + 16 /\
    y = 100 + 2 * cellSize + 23 /\
    1 * cellSize <= x /\ x + 7 <= (1 + 1) * cellSize /\
    100 + 2 * cellSize <= y - 13 /\
    y <= 100 + (2 + 1) * cellSize /\
    0 <= x /\ x + 7 <= imgWidth /\
    100 <= y - 13 /\ y <= gridSize * cellSize + 100.
Proof.
  apply (letter_grid_layout grid_with_CAT 100 2 1).
  - split; [reflexivity | repeat constructor].
  - lia.
  - unfold gridSize. lia.
  - unfold gridSize. lia.
Defined.

(** ** The printed grid *)

(** A grid value is the table of its cells. *)
Lemma grid_enum (grid : list (list Z)) :
  grid_ok grid ->
  grid = map (fun row => map (cellOr0 grid row) gridRange) gridRange.
Proof.
  intros Hok. pose proof Hok as [Hlen Hrows].
  apply list_eq. intros i.
  rewrite list_lookup_fmap.
  destruct (decide (i < 10)%nat) as [Hi | Hi].
  - assert (Hri : gridRange !! i = Some (Z.of_nat i)).
    { unfold gridRange. apply lookup_seqZ. unfold gridSize. lia. }
    rewrite Hri. cbn [fmap option_fmap option_map].
    destruct (lookup_lt_is_Some_2 grid i) as [line Hline].
    { rewrite Hlen. unfold gridSize. lia. }
    rewrite Hline. f_equal.
    rewrite Forall_lookup in Hrows. pose proof (Hrows _ _ Hline) as Hll.
    simpl in Hll.
    apply list_eq. intros j. rewrite list_lookup_fmap.
    destruct (decide (j < 10)%nat) as [Hj | Hj].
    + assert (Hrj : gridRange !! j = Some (Z.of_nat j)).
      { unfold gridRange. apply lookup_seqZ. unfold gridSize. lia. }
      rewrite Hrj. cbn [fmap option_fmap option_map].
      destruct (lookup_lt_is_Some_2 line j) as [v Hv].
      { rewrite Hll. unfold gridSize. lia. }
      rewrite Hv. f_equal. unfold cellOr0, grid_get, in_grid, gridSize.
      assert (Hb : (0 <=? Z.of_nat i) && (Z.of_nat i <? 10)
                   && ((0 <=? Z.of_nat j) && (Z.of_nat j <? 10)) = true).
      { rewrite !andb_true_iff, !Z.leb_le, !Z.ltb_lt. lia. }
      rewrite Hb, !Nat2Z.id, Hline. cbn. now rewrite Hv.
    + rewrite (lookup_ge_None_2 line) by (rewrite Hll; unfold gridSize; lia).
      rewrite (lookup_ge_None_2 gridRange); [reflexivity|].
      unfold gridRange. rewrite length_seqZ. unfold gridSize. lia.
  - rewrite (lookup_ge_None_2 grid) by (rewrite Hlen; unfold gridSize; lia).
    rewrite (lookup_ge_None_2 gridRange); [reflexivity|].
    unfold gridRange. rewrite length_seqZ. unfold gridSize. lia.
Qed.

Lemma flat_map_map {A B C : Type} (f : B -> list C) (g : A -> B)
    (l : list A) :
  flat_map f (map g l) = flat_map (fun a => f (g a)) l.
Proof. induction l as [|a l IH]; cbn; [reflexivity | now rewrite IH]. Qed.

Lemma printWordSearchGrid_eq grid :
  grid_ok grid -> printWordSearchGrid grid = Some (map printedRow grid).
Proof.
  intros Hok. unfold printWordSearchGrid.
  rewrite (foldM_ext_in _
             (fun out row =>
                Some (out ++ [printedRow (map (cellOr0 grid row) gridRange)]))).
  - rewrite foldM_pure_append, flat_map_singleton. cbn [app].
    f_equal.
    rewrite <- (map_map (fun row => map (cellOr0 grid row) gridRange)
                  printedRow).
    now rewrite <- (grid_enum grid Hok).
  - intros out row Hr.
    rewrite (foldM_ext_in _
               (fun line col =>
                  Some (line ++ (encodeRune (cellOr0 grid row col) ++ [32])))).
    + rewrite foldM_pure_append. cbn [app]. unfold printedRow.
      now rewrite flat_map_map.
    + intros line col Hc. now rewrite (grid_get_cellOr0 grid row col Hok Hr Hc).
Qed.

Lemma printedRow_ascii (line : list Z) :
  Forall (fun v => 0 <= v <= 127) line ->
  length (printedRow line) = (2 * length line)%nat /\
  forall k v, line !! k = Some v ->
    printedRow line !! (2 * k)%nat = Some v /\
    printedRow line !! (2 * k + 1)%nat = Some 32.
Proof.
  induction 1 as [|a l Ha Hl [IHlen IH]]; cbn [printedRow flat_map].
  - split; [reflexivity|]. intros k v Hk. discriminate.
  - rewrite (encodeRune_ascii a Ha). fold (printedRow l). split.
    + cbn [app length]. rewrite IHlen. lia.
    + intros [|k] v Hk.
      * injection Hk as ->. split; reflexivity.
      * replace (2 * S k)%nat with (S (S (2 * k))) by lia.
        apply (IH k v Hk).
Qed.

(** X5. On a grid value [printWordSearchGrid] returns (no index is out
    of range) and prints, after the heading, one line for each row in
    order: the row's runes, each followed by a space.  When every cell is
    an ASCII character (as in a generated grid of letters) each line has
    2 * gridSize bytes, and the cell ([row], [col]) is byte 2 * col of
    line [row], followed by a space: the grid can be read back from the
    printout. *)
Theorem printed_grid_shows_grid (grid : list (list Z)) :
  grid_ok grid ->
  exists lines,
    printWordSearchGrid grid = Some lines /\
    lines = map printedRow grid /\
    length lines = Z.to_nat gridSize /\
    ((forall row col v, grid_get grid row col = Some v -> 0 <= v <= 127) ->
     forall row col v, grid_get grid row col = Some v ->
       exists line,
         lines !! Z.to_nat row = Some line /\
         length line = Z.to_nat (2 * gridSize) /\
         line !! Z.to_nat (2 * col) = Some v /\
         line !! Z.to_nat (2 * col + 1) = Some 32).
Proof.
  intros Hok. exists (map printedRow grid).
  split; [exact (printWordSearchGrid_eq grid Hok)|].
  split; [reflexivity|].
  split; [rewrite length_map; apply Hok|].
  intros Hascii row col v Hget.
  pose proof (grid_cells_Forall _ grid Hok Hascii) as Hrows.
  pose proof (grid_get_Some_in _ _ _ _ Hget) as [Hr Hc].
  unfold grid_get in Hget.
  destruct (in_grid row && in_grid col); [|discriminate].
  destruct (grid !! Z.to_nat row) as [line|] eqn:Hline; [|discriminate].
  rewrite Forall_lookup in Hrows.
  destruct (Hrows _ _ Hline) as [Hlen Hline_ascii].
  destruct (printedRow_ascii line Hline_ascii) as [Hplen Hp].
  destruct (Hp _ _ Hget) as [He Ho].
  exists (printedRow line). split_and!.
  - rewrite list_lookup_fmap, Hline. reflexivity.
  - rewrite Hplen, Hlen. unfold gridSize. reflexivity.
  - replace (Z.to_nat (2 * col)) with (2 * Z.to_nat col)%nat by lia.
    exact He.
  - replace (Z.to_nat (2 * col + 1)) with (2 * Z.to_nat col + 1)%nat by lia.
    exact Ho.
Qed.

Lemma grid_with_CAT_ascii row col v :
  grid_get grid_with_CAT row col = Some v -> 0 <= v <= 127.
Proof.
  intros Hget. pose proof (grid_get_Some_in _ _ _ _ Hget) as [Hr Hc].
  unfold gridSize in Hr, Hc.
  assert (Hrow : row = 0 \/ row = 1 \/ row = 2 \/ row = 3 \/ row = 4
                 \/ row = 5 \/ row = 6 \/ row = 7 \/ row = 8 \/ row = 9) by lia.
  assert (Hcol : col = 0 \/ col = 1 \/ col = 2 \/ col = 3 \/ col = 4
                 \/ col = 5 \/ col = 6 \/ col = 7 \/ col = 8 \/ col = 9) by lia.
  destruct_or!; subst row col; vm_compute in Hget; injection Hget as <-; lia.
Qed.

Lemma printed_grid_shows_grid_witness :
  exists lines line,
    printWordSearchGrid grid_with_CAT = Some lines /\
    lines !! Z.to_nat 2 = Some line /\
    length line = Z.to_nat (2 * gridSize) /\
    line !! Z.to_nat (2 * 1) = Some 67 /\
    line !! Z.to_nat (2 * 1 + 1) = Some 32.
Proof.
  destruct (printed_grid_shows_grid grid_with_CAT)
    as (lines & Hprint & _ & _ & Hcells).
  { split; [reflexivity | repeat constructor]. }
  destruct (Hcells grid_with_CAT_ascii 2 1 67) as (line & Hline).
  { reflexivity. }
  exists lines, line. split; [exact Hprint | exact Hline].
Defined.

(** ** Every word is accounted for *)

Lemma pick_snoc {A : Type} (flags : list bool) (l : list A) b a :
  length flags = length l ->
  pick (flags ++ [b]) (l ++ [a]) = pick flags l ++ (if b then [a] else []).
Proof.
  revert l. induction flags as [|f flags IH]; intros [|x l] Hlen;
    try discriminate; cbn [pick app].
  - destruct b; reflexivity.
  - injection Hlen as Hlen. rewrite (IH l Hlen). now destruct f.
Qed.

Lemma placeOneWord_accounted ws flags st word :
  go_string word -> accounted ws flags st ->
  exists st' b, placeOneWord st word = Some st' /\
                accounted (ws ++ [word]) (flags ++ [b]) st'.
Proof.
  intros Hgo (Hok & Hlen & Hpl & Hout & Hdir & Hlong).
  destruct (attemptLoop_outcome word (e_grid st) (e_placements st) (e_rand st)
              Hok Hgo) as (a & Hrun & Hres & Hmax).
  unfold placeOneWord. rewrite Hrun.
  destruct Hres as (_ & _ & _ & Hcase).
  assert (Hlong' : forall b, (b = true -> len word <= gridSize) ->
            forall i w, (ws ++ [word]) !! i = Some w -> gridSize < len w ->
              (flags ++ [b]) !! i = Some false).
  { intros b Hb i w Hi Hw.
    destruct (decide (i < length ws)%nat) as [Hlt | Hge].
    - rewrite lookup_app_l in Hi by exact Hlt.
      rewrite lookup_app_l by lia. now apply (Hlong i w).
    - rewrite lookup_app_r in Hi by lia. rewrite lookup_app_r by lia.
      rewrite Hlen. destruct (i - length ws)%nat; [|discriminate].
      injection Hi as ->. destruct b; [|reflexivity]. specialize (Hb eq_refl).
      lia. }
  destruct Hcase as [(Hnp & Hg & Hp) | (Hpd & _ & p & Hacc & Hp)].
  - eexists _, false. split; [reflexivity|].
    rewrite Hnp, Hg, Hp. unfold accounted.
    cbn [e_grid e_placements e_out e_rand].
    rewrite (map_app negb). cbn [negb map].
    rewrite (pick_snoc flags ws) by exact Hlen.
    rewrite (pick_snoc (map negb flags) ws) by (now rewrite length_map).
    rewrite !map_app, !length_app, ?app_nil_r. cbn [map length].
    split_and!.
    + exact Hok.
    + lia.
    + exact Hpl.
    + now rewrite Hout.
    + exact Hdir.
    + apply Hlong'. discriminate.
  - eexists _, true. split; [reflexivity|].
    rewrite Hpd, Hp. unfold accounted.
    cbn [e_grid e_placements e_out e_rand].
    rewrite (map_app negb). cbn [negb map].
    rewrite (pick_snoc flags ws) by exact Hlen.
    rewrite (pick_snoc (map negb flags) ws) by (now rewrite length_map).
    rewrite !map_app, !length_app, ?app_nil_r. cbn [map length].
    split_and!.
    + eapply accepted_ok; eassumption.
    + lia.
    + destruct Hacc as (-> & _). congruence.
    + exact Hout.
    + apply Forall_app. split; [exact Hdir|]. apply Forall_singleton.
      now destruct Hacc as (_ & _ & _ & Hd & _).
    + apply Hlong'. intros _. eapply accepted_short; eassumption.
Qed.

(** What a run of the engine records. *)
Lemma generate_accounted (words : list string) (r : rng) :
  Forall go_string words ->
  exists grid pls r' out flags,
    generateWordSearchGrid words r = Some (grid, pls, r', out) /\
    grid_ok grid /\
    length flags = length words /\
    map Word pls = pick flags words /\
    out = map warning (pick (map negb flags) words) /\
    Forall (fun p => 0 <= Direction p < 8) pls /\
    (forall i w, words !! i = Some w -> gridSize < len w ->
       flags !! i = Some false).
Proof.
  intros Hgo. unfold generateWordSearchGrid. rewrite initGrid_zero.
  destruct (foldM_inv
    (fun pre st => exists flags, accounted pre flags st)
    placeOneWord words (mkEngine zeroGrid [] r [])) as (st & Hrun & flags & Hst).
  - exists []. unfold accounted. cbn. split_and!; try reflexivity.
    + apply zeroGrid_ok.
    + constructor.
    + intros i w Hi. discriminate.
  - intros pre w post s Hsplit (flags & Hs).
    assert (Hw : go_string w).
    { rewrite Forall_forall in Hgo. apply Hgo. rewrite Hsplit.
      apply elem_of_app. right. now left. }
    destruct (placeOneWord_accounted pre flags s w Hw Hs) as (s' & b & Hp & Hs').
    eauto.
  - rewrite Hrun. destruct Hst as (Hok & Hlen & Hpl & Hout & Hdir & Hlong).
    destruct (fillGrid_spec (e_grid st) (e_rand st) Hok)
      as (g' & r' & Hfill & [Hok' _] & _).
    rewrite Hfill. exists g', (e_placements st), r', (e_out st), flags.
    split_and!; try assumption; reflexivity.
Qed.

Lemma pick_none {A : Type} (flags : list bool) (l : list A) :
  length flags = length l ->
  (forall i, i < length l -> flags !! i = Some false)%nat ->
  pick flags l = [] /\ pick (map negb flags) l = l.
Proof.
  revert l. induction flags as [|f flags IH]; intros [|a l] Hlen Hall;
    try discriminate; [split; reflexivity|].
  injection Hlen as Hlen.
  pose proof (Hall 0%nat ltac:(cbn; lia)) as H0. injection H0 as ->.
  destruct (IH l Hlen) as [IH1 IH2].
  { intros i Hi. apply (Hall (S i)). cbn. lia. }
  cbn [map negb pick]. rewrite IH1, IH2. split; reflexivity.
Qed.

Lemma pick_lengths {A : Type} (flags : list bool) (l : list A) :
  length flags = length l ->
  (length (pick flags l) + length (pick (map negb flags) l) = length l)%nat.
Proof.
  revert l. induction flags as [|f flags IH]; intros [|a l] Hlen;
    try discriminate; [reflexivity|].
  injection Hlen as Hlen. specialize (IH l Hlen).
  destruct f; cbn [map negb pick length]; lia.
Qed.

(** X6. For any list of strings the engine returns, and it accounts for
    every word exactly once and in order: there is a list of flags, one
    for each word, such that the recorded placements are those of the
    flagged words, in order, and the warnings are those of the other
    words, in order.  A word longer than [gridSize] is never placed: its
    flag is false, so it gets a warning; when every word is too long
    nothing is placed and every word is warned about. *)
Theorem every_word_accounted (words : list string) (r : rng) :
  Forall go_string words ->
  exists grid pls r' out flags,
    generateWordSearchGrid words r = Some (grid, pls, r', out) /\
    length flags = length words /\
    map Word pls = pick flags words /\
    out = map warning (pick (map negb flags) words) /\
    (forall i w, words !! i = Some w -> gridSize < len w ->
       flags !! i = Some false) /\
    (Forall (fun w => gridSize < len w) words ->
     pls = [] /\ out = map warning words).
Proof.
  intros Hgo.
  destruct (generate_accounted words r Hgo)
    as (grid & pls & r' & out & flags & Hrun & _ & Hlen & Hpl & Hout & _
        & Hlong).
  exists grid, pls, r', out, flags. split_and!; try assumption.
  intros Hall.
  destruct (pick_none flags words Hlen) as [Hnone Hall'].
  { intros i Hi. destruct (lookup_lt_is_Some_2 words i Hi) as [w Hw].
    apply (Hlong i w Hw). rewrite Forall_lookup in Hall. exact (Hall i w Hw). }
  rewrite Hnone in Hpl. rewrite Hall' in Hout.
  split; [|exact Hout]. now destruct pls.
Qed.

Lemma every_word_accounted_witness :
  exists grid pls r' out flags,
    generateWordSearchGrid ["CAT"; "HIPPOPOTAMUS"; "DOG"]%string
      (scripted [2; 1; 0]) = Some (grid, pls, r', out) /\
    length flags = length ["CAT"; "HIPPOPOTAMUS"; "DOG"]%string /\
    map Word pls = pick flags ["CAT"; "HIPPOPOTAMUS"; "DOG"]%string /\
    out = map warning
            (pick (map negb flags) ["CAT"; "HIPPOPOTAMUS"; "DOG"]%string) /\
    (forall i w, ["CAT"; "HIPPOPOTAMUS"; "DOG"]%string !! i = Some w ->
       gridSize < len w -> flags !! i = Some false) /\
    (Forall (fun w => gridSize < len w)
            ["CAT"; "HIPPOPOTAMUS"; "DOG"]%string ->
     pls = [] /\ out = map warning ["CAT"; "HIPPOPOTAMUS"; "DOG"]%string).
Proof.
  apply (every_word_accounted ["CAT"; "HIPPOPOTAMUS"; "DOG"]%string
           (scripted [2; 1; 0])).
  go_strings.
Defined.

(** ** The report on the placements *)

Lemma directionNameOf_known (d : Z) :
  0 <= d < 8 ->
  directionOfName (directionNameOf d) = Some d /\
  directionNameOf d <> "UNKNOWN"%string.
Proof.
  intros Hd.
  assert (Hc : d = 0 \/ d = 1 \/ d = 2 \/ d = 3 \/ d = 4 \/ d = 5 \/ d = 6
               \/ d = 7) by lia.
  destruct_or!; subst d; split; try reflexivity; discriminate.
Qed.

Lemma directionNameOf_unknown (d : Z) :
  ~ 0 <= d < 8 -> directionNameOf d = "UNKNOWN"%string.
Proof.
  intros Hd. unfold directionNameOf.
  destruct ((d >=? 0) && (d <? slice_len directionNames)) eqn:E;
    [|reflexivity].
  apply andb_true_iff in E as [E1 E2].
  rewrite Z.geb_leb in E1. apply Z.leb_le in E1. apply Z.ltb_lt in E2.
  change (slice_len directionNames) with 8 in E2. lia.
Qed.

(** X7. [printWordPlacements] names a direction UNKNOWN exactly when it
    is outside [0, 8).  This never happens for the placements of a run of
    the engine: the report has the heading, then for each placement, in
    order, a line with its word, row, column and the name of its
    direction constant (the name read as a constant gives the recorded
    direction back), then the total, which is the number of words minus
    the number of warnings. *)
Theorem report_names_every_direction (words : list string) (r : rng) :
  Forall go_string words ->
  (forall d, directionNameOf d = "UNKNOWN"%string <-> ~ 0 <= d < 8) /\
  exists grid pls r' out,
    generateWordSearchGrid words r = Some (grid, pls, r', out) /\
    length (printWordPlacements pls) = (length pls + 2)%nat /\
    printWordPlacements pls !! 0%nat = Some ReportHeading /\
    (forall k p, pls !! k = Some p ->
       exists name,
         printWordPlacements pls !! S k
         = Some (ReportPlacement (Word p) (Row p) (Col p) name) /\
         name <> "UNKNOWN"%string /\
         directionOfName name = Some (Direction p)) /\
    printWordPlacements pls !! S (length pls)
    = Some (ReportTotal (slice_len words - slice_len out)).
Proof.
  intros Hgo. split.
  { intros d. split.
    - intros Hu Hd. now destruct (directionNameOf_known d Hd).
    - apply directionNameOf_unknown. }
  destruct (generate_accounted words r Hgo)
    as (grid & pls & r' & out & flags & Hrun & _ & Hlen & Hpl & Hout & Hdir
        & _).
  exists grid, pls, r', out. split; [exact Hrun|].
  unfold printWordPlacements. split_and!.
  - cbn [length]. rewrite length_app, length_map. cbn [length]. lia.
  - reflexivity.
  - intros k p Hk. rewrite Forall_lookup in Hdir.
    destruct (directionNameOf_known _ (Hdir k p Hk)) as [Hname Hknown].
    exists (directionNameOf (Direction p)). split_and!; try assumption.
    change ((?x :: ?l) !! S k) with (l !! k).
    rewrite lookup_app_l by (rewrite length_map; eapply lookup_lt_Some, Hk).
    rewrite list_lookup_fmap, Hk. reflexivity.
  - change ((?x :: ?l) !! S (length pls)) with (l !! length pls).
    rewrite lookup_app_r by (rewrite length_map; lia).
    rewrite length_map, Nat.sub_diag. cbn. do 2 f_equal.
    pose proof (pick_lengths flags words Hlen) as Hsum.
    rewrite <- Hpl, length_map in Hsum.
    unfold slice_len. rewrite Hout, length_map. lia.
Qed.

Lemma report_names_every_direction_witness :
  (forall d, directionNameOf d = "UNKNOWN"%string <-> ~ 0 <= d < 8) /\
  exists grid pls r' out,
    generateWordSearchGrid ["CAT"; "DOG"]%string (scripted [2; 1; 0])
    = Some (grid, pls, r', out) /\
    length (printWordPlacements pls) = (length pls + 2)%nat /\
    printWordPlacements pls !! 0%nat = Some ReportHeading /\
    (forall k p, pls !! k = Some p ->
       exists name,
         printWordPlacements pls !! S k
         = Some (ReportPlacement (Word p) (Row p) (Col p) name) /\
         name <> "UNKNOWN"%string /\
         directionOfName name = Some (Direction p)) /\
    printWordPlacements pls !! S (length pls)
    = Some (ReportTotal (slice_len ["CAT"; "DOG"]%string - slice_len out)).
Proof.
  apply (report_names_every_direction ["CAT"; "DOG"]%string
           (scripted [2; 1; 0])).
  go_strings.
Defined.

(** ** Filtering by length, twice *)

Lemma filter_twice {A : Type} (f g : A -> bool) (l : list A) :
  List.filter f (List.filter g l) = List.filter (fun x => g x && f x) l.
Proof.
  induction l as [|a l IH]; cbn [List.filter]; [reflexivity|].
  destruct (g a); cbn [List.filter andb]; [|exact IH].
  destruct (f a); now rewrite IH.
Qed.

Lemma filter_split_length {A : Type} (f : A -> bool) (l : list A) :
  (length (List.filter f l) + length (List.filter (fun x => negb (f x)) l)
   = length l)%nat.
Proof.
  induction l as [|a l IH]; cbn [List.filter]; [reflexivity|].
  destruct (f a); cbn [negb length]; lia.
Qed.

Lemma filter_id_iff {A : Type} (f : A -> bool) (l : list A) :
  List.filter f l = l <-> List.filter (fun x => negb (f x)) l = [].
Proof.
  pose proof (filter_split_length f l) as Hsum. split; intros Heq.
  - rewrite Heq in Hsum.
    destruct (List.filter (fun x => negb (f x)) l); [reflexivity|].
    cbn [length] in Hsum. lia.
  - rewrite Heq in Hsum. cbn [length] in Hsum. clear Heq.
    induction l as [|a l IH]; cbn [List.filter] in *; [reflexivity|].
    pose proof (filter_length_le f l) as Hle.
    destruct (f a); cbn [length] in Hsum; [f_equal; apply IH; lia | lia].
Qed.

(** X8. Filtering with one maximum length and then with another keeps
    the same words as filtering once with the smaller of the two, so the
    order of two filters does not matter.  [filterWordsByLength] prints
    nothing exactly when it returns its input unchanged; otherwise it
    prints a heading with the number [n] of removed words, [n] > 0,
    followed by [n] lines, and the words kept plus [n] is the number of
    input words. *)
Theorem filters_compose (words : list string) (a b : Z) :
  (filterWordsByLength (filterWordsByLength words a).1 b).1
  = (filterWordsByLength words (Z.min a b)).1 /\
  (filterWordsByLength (filterWordsByLength words a).1 b).1
  = (filterWordsByLength (filterWordsByLength words b).1 a).1 /\
  ((filterWordsByLength words a).2 = [] <->
   (filterWordsByLength words a).1 = words) /\
  ((filterWordsByLength words a).2 = [] \/
   exists n lines,
     (filterWordsByLength words a).2 = EvRemovedHeader n a :: lines /\
     slice_len lines = n /\ 0 < n /\
     slice_len (filterWordsByLength words a).1 + n = slice_len words).
Proof.
  assert (Hmin : forall a b,
    (filterWordsByLength (filterWordsByLength words a).1 b).1
    = (filterWordsByLength words (Z.min a b)).1).
  { intros x y. rewrite !filterWordsByLength_fst, filter_twice.
    apply filter_ext. intros w.
    destruct (len w <=? x) eqn:E1, (len w <=? y) eqn:E2,
      (len w <=? Z.min x y) eqn:E3; try reflexivity;
      rewrite ?Z.leb_le, ?Z.leb_gt in *; lia. }
  split; [apply Hmin|].
  split; [now rewrite !Hmin, Z.min_comm|].
  rewrite filterWordsByLength_fst.
  unfold filterWordsByLength. rewrite filter_fold. cbn [app snd].
  pose proof (filter_split_length (fun w => len w <=? a) words) as Hsum.
  pose proof (filter_id_iff (fun w => len w <=? a) words) as Hid.
  destruct (List.filter (fun w => negb (len w <=? a)) words) as [|w removed]
    eqn:Hrem.
  - cbn. split; [tauto | now left].
  - assert (Hpos : (slice_len (w :: removed) >? 0) = true).
    { apply Z.gtb_lt. unfold slice_len. cbn [length]. lia. }
    rewrite Hpos. split.
    + split; [discriminate|]. intros Heq. apply Hid in Heq. discriminate.
    + right. eexists _, _. split; [reflexivity|].
      unfold slice_len in *. rewrite length_map. cbn [length] in *.
      split_and!; lia.
Qed.

(** ** Selection without replacement *)

(** One iteration of the selection loop takes one draw. *)
Lemma selectBody_rand `{GoStrings} st st' :
  selectBody st = Some st' ->
  s_rand st' = mkRng (draws (s_rand st)) (S (pos (s_rand st))).
Proof.
  unfold selectBody, Intn. intros Hb.
  destruct (slice_len (s_temp st) <=? 0); [discriminate|].
  repeat match type of Hb with
         | match ?x with _ => _ end = _ => destruct x; try discriminate
         end.
  injection Hb as <-. reflexivity.
Qed.

(** X9. The selection loop draws without replacement: the words it
    returns are the upper-casings of elements [drawn] of the vocabulary
    which, together with the elements left in the working list, are the
    vocabulary itself up to order (each position drawn at most once).
    It takes min(10, length) elements and exactly one random draw for
    each.  From a vocabulary of at most 10 words nothing is left: the
    result is the whole vocabulary, upper-cased, in some order. *)
Theorem selection_draws_without_replacement `{GoStrings}
    (vocabulary : list string) (r : rng) :
  slice_len vocabulary <= GoInt.max_int ->
  exists drawn rest,
    selectWords vocabulary r
    = Some (map ToUpper drawn, mkRng (draws r) (pos r + length drawn)) /\
    drawn ++ rest ≡ₚ vocabulary /\
    length drawn = Nat.min 10 (length vocabulary) /\
    (slice_len vocabulary <= 10 -> rest = [] /\ drawn ≡ₚ vocabulary).
Proof.
  intros Hmax. unfold selectWords.
  destruct (selectLoop_inv
    (fun st => exists drawn,
       s_words st = map ToUpper drawn /\
       drawn ++ s_temp st ≡ₚ vocabulary /\
       s_i st = Z.of_nat (length drawn) /\ 0 <= s_i st <= 10 /\
       s_rand st = mkRng (draws r) (pos r + length drawn)))
    with (st := mkSelect 0 [] vocabulary r)
    as (st & Hrun & (drawn & Hw & Hperm & Hi & Hrange & Hrand) & Hexit).
  - intros st (drawn & Hw & Hperm & Hi & Hrange & Hrand) Hc.
    assert (Hlen : slice_len (s_temp st) <= GoInt.max_int).
    { apply Permutation_length in Hperm. rewrite length_app in Hperm.
      unfold slice_len in *. lia. }
    destruct (selectBody_spec st Hc Hlen) as (idx & x & y & r' & Hx & Hy & Hb).
    pose proof (selectBody_rand _ _ Hb) as Hr'. cbn [s_rand] in Hr'.
    rewrite Hb. eexists. split; [reflexivity|].
    exists (drawn ++ [x]). cbn [s_words s_temp s_i s_rand].
    unfold selectCond in Hc. apply andb_true_iff in Hc as [Hlt _].
    apply Z.ltb_lt in Hlt.
    assert (Hadd : GoInt.add (s_i st) 1 = s_i st + 1).
    { apply wrap_small. unfold GoInt.in_range, GoInt.min_int, GoInt.max_int. lia. }
    rewrite Hadd. split_and!.
    + now rewrite map_app, Hw.
    + rewrite <- Hperm, <- app_assoc. apply Permutation_app_head. cbn [app].
      now apply swap_remove_perm.
    + rewrite length_app. simpl length. lia.
    + lia.
    + lia.
    + rewrite Hr', Hrand, length_app. cbn [draws pos length]. f_equal. lia.
  - exists []. cbn. split_and!; try reflexivity; try lia.
    destruct r as [d p]. cbn. f_equal. lia.
  - rewrite Hrun. exists drawn, (s_temp st).
    split; [now rewrite Hw, Hrand|]. split; [exact Hperm|].
    pose proof (Permutation_length Hperm) as Hplen.
    rewrite length_app in Hplen.
    unfold selectCond, slice_len in *.
    assert (Hdrawn : length drawn = Nat.min 10 (length vocabulary)).
    { apply andb_false_iff in Hexit as [Hge | Hemp].
      - apply Z.ltb_ge in Hge. lia.
      - rewrite Z.gtb_ltb in Hemp. apply Z.ltb_ge in Hemp. lia. }
    split; [exact Hdrawn|]. intros Hshort.
    assert (Hrest : s_temp st = []).
    { apply length_zero_iff_nil. lia. }
    split; [exact Hrest|]. now rewrite Hrest, app_nil_r in Hperm.
Qed.

Lemma selection_draws_without_replacement_witness :
  exists drawn,
    @selectWords ascii_strings ["cat"; "dog"; "sun"]%string (scripted [4; 0; 7])
    = Some (map (@ToUpper ascii_strings) drawn,
            mkRng (draws (scripted [4; 0; 7]))
                  (pos (scripted [4; 0; 7]) + length drawn)) /\
    length drawn = Nat.min 10 (length ["cat"; "dog"; "sun"]%string) /\
    drawn ≡ₚ ["cat"; "dog"; "sun"]%string.
Proof.
  destruct (@selection_draws_without_replacement ascii_strings
              ["cat"; "dog"; "sun"]%string (scripted [4; 0; 7]))
    as (drawn & rest & Hsel & _ & Hlen & Hshort).
  { apply Z.leb_le. reflexivity. }
  destruct Hshort as [_ Hperm].
  { apply Z.leb_le. reflexivity. }
  exists drawn. split; [exact Hsel|]. split; [exact Hlen | exact Hperm].
Defined.

(** ** What the verifier's verdict means *)

Lemma encodeRune_length (v : Z) :
  (1 <= length (encodeRune v))%nat /\
  (length (encodeRune v) = 1%nat -> 0 <= v <= 127).
Proof.
  unfold encodeRune.
  destruct ((0 <=? v) && (v <=? 127)) eqn:E1.
  { apply andb_true_iff in E1 as [Ha Hb]. apply Z.leb_le in Ha, Hb.
    cbn. split; [lia | intros _; lia]. }
  destruct ((0 <=? v) && (v <=? 2047)); [cbn; split; [lia | discriminate]|].
  destruct ((v <? 0) || (MaxRune <? v) || ((55296 <=? v) && (v <=? 57343)));
    [cbn; split; [lia | discriminate]|].
  destruct (v <=? 65535); cbn; (split; [lia | discriminate]).
Qed.

Lemma flat_map_length_ge {A B : Type} (f : A -> list B) (l : list A) :
  (forall x, 1 <= length (f x))%nat ->
  (length l <= length (flat_map f l))%nat.
Proof.
  intros Hf. induction l as [|a l IH]; cbn [flat_map length]; [lia|].
  rewrite length_app. specialize (Hf a). lia.
Qed.

Lemma flat_map_singletons {A B : Type} (f : A -> list B) (l : list A) :
  (forall x, 1 <= length (f x))%nat ->
  length (flat_map f l) = length l ->
  Forall (fun x => length (f x) = 1%nat) l.
Proof.
  intros Hf. induction l as [|a l IH]; cbn [flat_map length]; intros Hlen;
    [constructor|].
  rewrite length_app in Hlen.
  pose proof (Hf a). pose proof (flat_map_length_ge f l Hf).
  constructor; [lia | apply IH; lia].
Qed.

Lemma flat_map_encode_ascii (cells : list Z) :
  Forall (fun v => 0 <= v <= 127) cells -> flat_map encodeRune cells = cells.
Proof.
  induction 1 as [|v l Hv Hl IH]; cbn [flat_map]; [reflexivity|].
  now rewrite (encodeRune_ascii v Hv), IH.
Qed.

(** On a placement that fits, the verifier reads the cells of the path
    and appends their encodings. *)
Lemma extractWord_fits g p :
  grid_ok g -> placement_fits p ->
  extractWord g p = Some (flat_map encodeRune (pathCells g p)).
Proof.
  intros Hok Hfit. unfold extractWord, pathCells.
  pose proof (fun i acc => extractStep_on_grid g p i acc Hok Hfit) as Hstep.
  destruct (getDirectionDeltas (Direction p)) as [dRow dCol].
  cbn [fst snd] in *.
  rewrite (foldM_ext_in _
             (fun acc i =>
                Some (acc ++ encodeRune
                               (cellOr0 g (Row p + dRow * i)
                                          (Col p + dCol * i))))).
  - rewrite foldM_pure_append. cbn [app]. now rewrite flat_map_map.
  - intros acc i Hi. apply elem_of_seqZ in Hi.
    destruct (Hstep i acc ltac:(lia)) as (_ & v & Hv & ->).
    unfold cellOr0. now rewrite Hv.
Qed.

Lemma pathCells_lookup g p k :
  grid_ok g -> placement_fits p -> (k < length (bytes_of (Word p)))%nat ->
  exists v,
    pathCells g p !! k = Some v /\
    grid_get g (Row p + (getDirectionDeltas (Direction p)).1 * Z.of_nat k)
               (Col p + (getDirectionDeltas (Direction p)).2 * Z.of_nat k)
    = Some v.
Proof.
  intros Hok Hfit Hk. pose proof (length_bytes_of (Word p)) as Hlb.
  assert (Hi : 0 <= Z.of_nat k < len (Word p)) by lia.
  destruct (extractStep_on_grid g p (Z.of_nat k) [] Hok Hfit Hi)
    as (_ & v & Hv & _).
  exists v. split; [|exact Hv].
  unfold pathCells. rewrite list_lookup_fmap.
  rewrite (proj2 (lookup_seqZ 0 (len (Word p)) k (Z.of_nat k)))
    by (split; lia).
  cbn. unfold cellOr0. now rewrite Hv.
Qed.

(** X10. On a grid value and a placement whose path fits the grid, the
    verifier returns, and it reports the word as found exactly when the
    word is ASCII text and each of its bytes is the rune of the cell at
    the same offset of the path.  In particular a word with a non-ASCII
    byte is never reported as found. *)
Theorem verifier_is_exact (g : list (list Z)) (p : WordPlacement) :
  grid_ok g -> placement_fits p ->
  (exists e, verifyOne g p = Some e) /\
  (verifyOne g p = Some (found p) <->
   ascii_bytes (bytes_of (Word p)) /\ spells g p).
Proof.
  intros Hok Hfit. unfold verifyOne, found.
  rewrite (extractWord_fits g p Hok Hfit).
  assert (Hlen : length (pathCells g p) = length (bytes_of (Word p))).
  { unfold pathCells. rewrite length_map, length_seqZ.
    pose proof (length_bytes_of (Word p)). lia. }
  split; [destruct (decide _); eauto|].
  destruct (decide (flat_map encodeRune (pathCells g p) = bytes_of (Word p)))
    as [Heq | Hne]; split.
  - intros _.
    assert (Hone : Forall (fun v => 0 <= v <= 127) (pathCells g p)).
    { eapply Forall_impl;
        [apply (flat_map_singletons encodeRune);
         [intros x; apply encodeRune_length | now rewrite Heq]|].
      intros v. apply encodeRune_length. }
    rewrite (flat_map_encode_ascii _ Hone) in Heq. rewrite <- Heq.
    split.
    + eapply Forall_impl; [exact Hone|]. intros v Hv. simpl in *. lia.
    + intros k b Hk.
      destruct (pathCells_lookup g p k Hok Hfit) as (v & Hv & Hget).
      { rewrite <- Hlen. rewrite <- Heq in Hk. eapply lookup_lt_Some, Hk. }
      rewrite <- Heq, Hv in Hk. now injection Hk as ->.
  - reflexivity.
  - discriminate.
  - intros [Hascii Hsp]. exfalso. apply Hne.
    assert (Hcells : pathCells g p = bytes_of (Word p)).
    { apply list_eq. intros k.
      destruct (decide (k < length (bytes_of (Word p)))%nat) as [Hk | Hk].
      - destruct (pathCells_lookup g p k Hok Hfit Hk) as (v & Hv & Hget).
        destruct (lookup_lt_is_Some_2 _ _ Hk) as [b Hb].
        rewrite (Hsp k b Hb) in Hget. injection Hget as <-. now rewrite Hv, Hb.
      - rewrite !lookup_ge_None_2 by lia. reflexivity. }
    rewrite Hcells. apply flat_map_encode_ascii.
    eapply Forall_impl; [exact Hascii|]. intros v Hv. simpl in *. lia.
Qed.

Lemma verifier_is_exact_witness :
  (exists e, verifyOne grid_with_CAT (mkPlacement "CAT" 2 1 RIGHT) = Some e) /\
  (verifyOne grid_with_CAT (mkPlacement "CAT" 2 1 RIGHT)
   = Some (found (mkPlacement "CAT" 2 1 RIGHT)) <->
   ascii_bytes (bytes_of (Word (mkPlacement "CAT" 2 1 RIGHT))) /\
   spells grid_with_CAT (mkPlacement "CAT" 2 1 RIGHT)).
Proof.
  apply (verifier_is_exact grid_with_CAT (mkPlacement "CAT" 2 1 RIGHT)).
  - split; [reflexivity | repeat constructor].
  - unfold placement_fits. cbn [Word Row Col Direction].
    split_and!; try reflexivity; try (apply Z.leb_le; reflexivity);
      try (apply Z.ltb_lt; reflexivity).
Defined.

(** ** The verifier on arbitrary records *)

(** The bounds test of the verifier guards the read of the grid. *)
Lemma extractStep_total g row col dRow dCol acc i :
  grid_ok g -> exists acc', extractStep g row col dRow dCol acc i = Some acc'.
Proof.
  intros Hok. unfold extractStep.
  destruct ((GoInt.add row (GoInt.mul dRow i) >=? 0)
            && (GoInt.add row (GoInt.mul dRow i) <? gridSize)
            && (GoInt.add col (GoInt.mul dCol i) >=? 0)
            && (GoInt.add col (GoInt.mul dCol i) <? gridSize)) eqn:Hc;
    [|eauto].
  rewrite !andb_true_iff, !Z.geb_leb, !Z.leb_le, !Z.ltb_lt in Hc.
  destruct (grid_get_ok g (GoInt.add row (GoInt.mul dRow i))
              (GoInt.add col (GoInt.mul dCol i)) Hok) as [v Hv]; [lia | lia |].
  rewrite Hv. eauto.
Qed.

Lemma verifyOne_total g p :
  grid_ok g ->
  exists e, verifyOne g p = Some e /\
    (e = found p \/
     exists x, x <> bytes_of (Word p) /\
               e = EvNotFound (Word p) (Row p) (Col p) x).
Proof.
  intros Hok. unfold verifyOne, extractWord.
  destruct (getDirectionDeltas (Direction p)) as [dRow dCol].
  destruct (foldM_inv (fun _ (_ : list Z) => True)
    (extractStep g (Row p) (Col p) dRow dCol) (seqZ 0 (len (Word p))) [])
    as (w & -> & _); [exact I | |].
  - intros pre i post acc _ _.
    destruct (extractStep_total g (Row p) (Col p) dRow dCol acc i Hok)
      as [acc' Hacc]. eauto.
  - destruct (decide (w = bytes_of (Word p))) as [Heq | Hne].
    + eexists. split; [reflexivity | now left].
    + eexists. split; [reflexivity | right; eauto].
Qed.

(** X11. On a grid value the verifier returns for every list of
    placement records, whatever their rows, columns, directions and
    words: a coordinate off the grid is never used as an index.  After
    the heading it prints one line for each record, in order, which is
    the verdict on that record alone: found, or not found together with
    the text read, different from the word. *)
Theorem verifier_reports_every_placement (g : list (list Z))
    (pls : list WordPlacement) :
  grid_ok g ->
  exists lines,
    verifyWordPlacements g pls = Some (EvVerifyHeader :: lines) /\
    length lines = length pls /\
    forall k p, pls !! k = Some p ->
      verifyOne g p = lines !! k /\
      (lines !! k = Some (found p) \/
       exists x, x <> bytes_of (Word p) /\
                 lines !! k = Some (EvNotFound (Word p) (Row p) (Col p) x)).
Proof.
  intros Hok.
  exists (map (fun p => default EvVerifyHeader (verifyOne g p)) pls).
  split_and!.
  - unfold verifyWordPlacements.
    rewrite (foldM_ext_in _
               (fun out p =>
                  Some (out ++ [default EvVerifyHeader (verifyOne g p)]))).
    + now rewrite foldM_pure_append, flat_map_singleton.
    + intros out p _. destruct (verifyOne_total g p Hok) as (e & -> & _).
      reflexivity.
  - now rewrite length_map.
  - intros k p Hk. rewrite list_lookup_fmap, Hk. cbn.
    destruct (verifyOne_total g p Hok) as (e & -> & He). cbn.
    split; [reflexivity|].
    destruct He as [-> | (x & Hx & ->)]; [now left | right; eauto].
Qed.

Lemma verifier_reports_every_placement_witness :
  exists lines,
    verifyWordPlacements grid_with_CAT
      [mkPlacement "CAT" 2 1 RIGHT; mkPlacement "DOG" (-3) 12 UP_LEFT]
    = Some (EvVerifyHeader :: lines) /\
    length lines
    = length [mkPlacement "CAT" 2 1 RIGHT; mkPlacement "DOG" (-3) 12 UP_LEFT] /\
    forall k p,
      [mkPlacement "CAT" 2 1 RIGHT; mkPlacement "DOG" (-3) 12 UP_LEFT] !! k
      = Some p ->
      verifyOne grid_with_CAT p = lines !! k /\
      (lines !! k = Some (found p) \/
       exists x, x <> bytes_of (Word p) /\
                 lines !! k = Some (EvNotFound (Word p) (Row p) (Col p) x)).
Proof.
  apply (verifier_reports_every_placement grid_with_CAT
           [mkPlacement "CAT" 2 1 RIGHT; mkPlacement "DOG" (-3) 12 UP_LEFT]).
  split; [reflexivity | repeat constructor].
Defined.

(** A record whose path is off the grid is read as question marks, so
    the verifier reports a word of question marks as found wherever the
    record points. *)
Example question_marks_are_found_off_the_grid :
  verifyWordPlacements grid_with_CAT [mkPlacement "??" (-3) 12 UP_LEFT]
  = Some [EvVerifyHeader; EvFound "??" (-3) 12].
Proof. reflexivity. Qed.

(** ** When a word is accepted *)

(** The check succeeds when every visited cell is empty or holds the
    letter. *)
Lemma conflictLoop_free grid row col dRow dCol its :
  (forall i letter, (i, letter) ∈ its ->
     exists v, grid_get grid (cellAt row col dRow dCol i).1
                             (cellAt row col dRow dCol i).2 = Some v /\
               (v = 0 \/ v = letter)) ->
  conflictLoop grid row col dRow dCol its = Some true.
Proof.
  induction its as [|[j l] its IH]; intros Hfree; [reflexivity|].
  cbn [conflictLoop].
  destruct (Hfree j l ltac:(left)) as (v & Hv & Hcase).
  unfold cellAt in Hv. cbn [fst snd] in Hv. rewrite Hv.
  assert (Hc : negb (v =? 0) && negb (v =? l) = false).
  { destruct Hcase as [-> | ->].
    - reflexivity.
    - rewrite Z.eqb_refl. cbn. apply andb_false_r. }
  rewrite Hc. apply IH. intros i letter Hin. apply Hfree. now right.
Qed.

(** Writing letters that are already there leaves the grid as it is. *)
Lemma grid_set_same grid r c v :
  grid_get grid r c = Some v -> grid_set grid r c v = Some grid.
Proof.
  unfold grid_get, grid_set. destruct (in_grid r && in_grid c); [|discriminate].
  destruct (grid !! Z.to_nat r) as [line|] eqn:Hline; [|discriminate].
  intros Hv. pose proof (lookup_lt_Some _ _ _ Hv) as Hlt.
  destruct (decide (Z.to_nat c < length line)%nat); [|lia].
  rewrite (list_insert_id line _ _ Hv). now rewrite (list_insert_id grid _ _ Hline).
Qed.

Lemma placeLoop_same grid row col dRow dCol its :
  (forall i letter, (i, letter) ∈ its ->
     grid_get grid (cellAt row col dRow dCol i).1
                   (cellAt row col dRow dCol i).2 = Some letter) ->
  placeLoop grid row col dRow dCol its = Some grid.
Proof.
  induction its as [|[j l] its IH]; intros Hsame; [reflexivity|].
  cbn [placeLoop].
  pose proof (Hsame j l ltac:(left)) as Hv.
  unfold cellAt in Hv. cbn [fst snd] in Hv.
  rewrite (grid_set_same _ _ _ _ Hv).
  apply IH. intros i letter Hin. apply Hsame. now right.
Qed.

(** X12. For a start cell on the grid, [canPlaceWord] returns, and it
    returns true exactly when the end cell, start plus delta times
    (length - 1) in exact arithmetic, is on the grid and every cell the
    loop visits is empty or already holds the letter to be written
    there.  The 64-bit wrap-around of the end coordinate never lets a
    word of any length through. *)
Theorem acceptance_criterion (grid : list (list Z)) (word : string)
    (row col direction : Z) :
  grid_ok grid -> 0 <= row < gridSize -> 0 <= col < gridSize ->
  go_string word ->
  (canPlaceWord grid word row col direction = Some true \/
   canPlaceWord grid word row col direction = Some false) /\
  (canPlaceWord grid word row col direction = Some true <->
   (0 <= row + (getDirectionDeltas direction).1 * (len word - 1) < gridSize /\
    0 <= col + (getDirectionDeltas direction).2 * (len word - 1) < gridSize) /\
   forall i letter, (i, letter) ∈ rangeString word ->
     exists v,
       grid_get grid (row + (getDirectionDeltas direction).1 * i)
                     (col + (getDirectionDeltas direction).2 * i) = Some v /\
       (v = 0 \/ v = letter)).
Proof.
  intros Hok Hr Hc Hgo.
  split.
  { destruct (canPlaceWord_returns grid word row col direction Hok Hr Hc Hgo)
      as [[|] Hb]; auto. }
  destruct (getDirectionDeltas direction) as [dRow dCol] eqn:Hd.
  cbn [fst snd].
  destruct (getDirectionDeltas_unit _ _ _ Hd) as (HdR & HdC & Hnz).
  pose proof (len_nonneg word) as Hlen0.
  split.
  - intros Hcan.
    destruct (canPlaceWord_true word row col direction dRow dCol Hd grid Hcan)
      as [Hend Hfree].
    pose proof (fits_short _ _ _ _ Hr Hc (conj Hlen0 Hgo) Hend) as Hshort.
    pose proof (short_moderate _ Hshort) as Hmod.
    split.
    + apply (endOutOfBounds_false (len word) row col direction dRow dCol Hd);
        try (apply in_grid_moderate; assumption); [lia | exact Hend].
    + intros i letter Hin.
      destruct (visited_in_bounds word row col direction dRow dCol Hd Hr Hc
                  Hmod i letter Hend Hin) as (Hcell & _).
      destruct (Hfree i letter Hin) as (v & Hv & Hcase).
      rewrite Hcell in Hv. eauto.
  - intros [[HendR HendC] Hfree].
    assert (Hshort : len word <= gridSize).
    { unfold unit_delta, gridSize in *. destruct Hnz; lia. }
    pose proof (short_moderate _ Hshort) as Hmod.
    assert (Hend : endOutOfBounds (len word) row col direction = false).
    { apply (endOutOfBounds_false (len word) row col direction dRow dCol Hd);
        try (apply in_grid_moderate; assumption); [lia | auto]. }
    rewrite (canPlaceWord_unfold word row col direction dRow dCol Hd), Hend.
    apply conflictLoop_free. intros i letter Hin.
    destruct (visited_in_bounds word row col direction dRow dCol Hd Hr Hc
                Hmod i letter Hend Hin) as (Hcell & _).
    rewrite Hcell. apply (Hfree i letter Hin).
Qed.

Lemma acceptance_criterion_witness :
  (canPlaceWord grid_with_CAT "TAP" 1 2 DOWN = Some true \/
   canPlaceWord grid_with_CAT "TAP" 1 2 DOWN = Some false) /\
  (canPlaceWord grid_with_CAT "TAP" 1 2 DOWN = Some true <->
   (0 <= 1 + (getDirectionDeltas DOWN).1 * (len "TAP" - 1) < gridSize /\
    0 <= 2 + (getDirectionDeltas DOWN).2 * (len "TAP" - 1) < gridSize) /\
   forall i letter, (i, letter) ∈ rangeString "TAP" ->
     exists v,
       grid_get grid_with_CAT (1 + (getDirectionDeltas DOWN).1 * i)
                              (2 + (getDirectionDeltas DOWN).2 * i) = Some v /\
       (v = 0 \/ v = letter)).
Proof.
  apply (acceptance_criterion grid_with_CAT "TAP"%string 1 2 DOWN).
  - split; [reflexivity | repeat constructor].
  - unfold gridSize. lia.
  - unfold gridSize. lia.
  - apply Z.leb_le. reflexivity.
Defined.

(** X13. A word that has been accepted and written can be placed again
    at the same start and direction, as happens when the word list
    repeats a word and the draws repeat: the check on the grid that has
    the word succeeds, and writing the word again returns that grid
    unchanged. *)
Theorem placing_again_changes_nothing (g g' : list (list Z)) (word : string)
    (p : WordPlacement) :
  go_string word -> accepted g word p g' ->
  canPlaceWord g' word (Row p) (Col p) (Direction p) = Some true /\
  placeWord g' word (Row p) (Col p) (Direction p) = Some g'.
Proof.
  intros Hgo Hacc.
  pose proof (accepted_short _ _ _ _ Hacc Hgo) as Hshort.
  destruct Hacc as (_ & Hr & Hc & _ & Hcan & Hplace).
  destruct (getDirectionDeltas (Direction p)) as [dRow dCol] eqn:Hd.
  destruct (canPlaceWord_true word _ _ _ dRow dCol Hd g Hcan) as [Hend _].
  pose proof (fun i letter =>
    placeWord_written word (Row p) (Col p) (Direction p) dRow dCol Hd Hr Hc
      (short_moderate _ Hshort) g g' i letter Hplace) as Hwritten.
  split.
  - rewrite (canPlaceWord_unfold word _ _ _ dRow dCol Hd), Hend.
    apply conflictLoop_free. intros i letter Hin.
    exists letter. split; [now apply Hwritten | now right].
  - rewrite (placeWord_unfold word _ _ _ dRow dCol Hd).
    now apply placeLoop_same.
Qed.

Lemma placing_again_changes_nothing_witness :
  canPlaceWord grid_with_CAT "CAT" 2 1 RIGHT = Some true /\
  placeWord grid_with_CAT "CAT" 2 1 RIGHT = Some grid_with_CAT.
Proof.
  apply (placing_again_changes_nothing zeroGrid grid_with_CAT "CAT"%string
           (mkPlacement "CAT" 2 1 RIGHT)).
  - apply Z.leb_le. reflexivity.
  - unfold accepted. cbn [Word Row Col Direction].
    split_and!; try reflexivity; try (apply Z.leb_le; reflexivity);
      try (apply Z.ltb_lt; reflexivity).
Defined.

(** ** The program on its built-in vocabulary *)

Lemma nodupb_spec (l : list string) : nodupb l = true -> NoDup l.
Proof.
  induction l as [|w l IH]; cbn [nodupb]; intros Hb; [apply NoDup_nil_2|].
  apply andb_true_iff in Hb as [Hw Hl]. apply NoDup_cons_2; [|now apply IH].
  intros Hin. apply negb_true_iff in Hw.
  assert (Hex : existsb (String.eqb w) l = true).
  { apply existsb_exists. exists w. split; [now apply list_elem_of_In|].
    apply String.eqb_refl. }
  congruence.
Qed.

(** A run of the engine and of the verifier on words of letters A-Z
    that fit the grid. *)
Lemma letters_run (words : list string) (r : rng) :
  Forall (fun w => upper_word w /\ len w <= gridSize) words ->
  exists grid pls r' out,
    generateWordSearchGrid words r = Some (grid, pls, r', out) /\
    (forall row col v, grid_get grid row col = Some v -> 65 <= v <= 90) /\
    sublist (map Word pls) words /\
    sublist out (map warning words) /\
    (length pls + length out = length words)%nat /\
    verifyWordPlacements grid pls = Some (EvVerifyHeader :: map found pls).
Proof.
  intros Hwords.
  assert (Hin : Forall (word_in (fun v => 65 <= v <= 90)) words).
  { eapply Forall_impl; [exact Hwords|]. intros w [Hup Hlen].
    now apply upper_word_in. }
  destruct (generate_spec _ words r Hin)
    as (grid & pls & r' & out & Hrun & Hok & Hcells & Hpl & Hsub & Hwarn
        & Hcount & _).
  exists grid, pls, r', out. split_and!; try assumption.
  - intros row col v Hv. destruct (Hcells row col v Hv) as [_ [Hq | Hq]];
      exact Hq.
  - assert (Hup : Forall (fun p => upper_word (Word p)) pls).
    { apply (sublist_Forall_words upper_word _ _ Hsub).
      eapply Forall_impl; [exact Hwords|]. now intros w [Hw _]. }
    apply verify_all_found.
    apply Forall_forall. intros p Hp. rewrite Forall_forall in Hup, Hpl.
    destruct (Hpl p Hp) as [Hfit Hrd]. split_and!; auto.
    apply reads_spells; auto.
Qed.

Lemma fits_grid_elem (words : list string) (v : string) :
  v ∈ fits_grid words -> v ∈ words /\ len v <= gridSize.
Proof.
  intros Hin. apply list_elem_of_In, filter_In in Hin as [Hv Hle].
  split; [now apply list_elem_of_In | now apply Z.leb_le].
Qed.

Section DefaultRun.

Context `{GoStrings}.

(** A run of [main] on a vocabulary with at least ten words that fit the
    grid and upper-case to letters A-Z, when the file operations
    succeed. *)
Lemma main_letters_run vocabFile fs r out1 vocabulary0 :
  chooseVocabulary vocabFile fs = (out1, Ok vocabulary0) ->
  slice_len vocabulary0 <= GoInt.max_int ->
  10 <= slice_len (fits_grid vocabulary0) ->
  Forall (fun v => upper_word (ToUpper v) /\ len (ToUpper v) <= gridSize)
         (fits_grid vocabulary0) ->
  exists grid pls drawn rest warnings,
    main vocabFile fs true true r
    = mkRun (EvGenerating
               :: out1 ++ (filterWordsByLength vocabulary0 gridSize).2
                  ++ [EvAfterFiltering (slice_len (fits_grid vocabulary0))]
                  ++ warnings
                  ++ [EvCreated 400 500; EvGrid grid; EvPlacements pls;
                      EvVerifyHeader]
                  ++ map found pls)
            (Some (grid, pls))
            (Some (mkImage 400 500 (map ToUpper drawn) grid 100)) ExitOk /\
    drawn ++ rest ≡ₚ fits_grid vocabulary0 /\
    length drawn = 10%nat /\
    sublist (map Word pls) (map ToUpper drawn) /\
    sublist warnings (map warning (map ToUpper drawn)) /\
    (length pls + length warnings = 10)%nat /\
    (forall row col v, grid_get grid row col = Some v -> 65 <= v <= 90).
Proof.
  intros Hchoose Hmax Hten Hupper.
  assert (Hmaxf : slice_len (fits_grid vocabulary0) <= GoInt.max_int).
  { pose proof (filter_length_le (fun w => len w <=? gridSize) vocabulary0).
    unfold slice_len, fits_grid in *. lia. }
  destruct (selectWords_spec (fits_grid vocabulary0) r Hmaxf)
    as (drawn & rest & r1 & Hsel & Hperm & Hn).
  assert (Hlen : length drawn = 10%nat) by lia.
  assert (Hwords : Forall (fun w => upper_word w /\ len w <= gridSize)
                          (map ToUpper drawn)).
  { apply Forall_forall. intros w Hw.
    apply list_elem_of_fmap in Hw as (v & -> & Hv).
    rewrite Forall_forall in Hupper. apply Hupper.
    rewrite <- Hperm. apply elem_of_app. now left. }
  destruct (letters_run (map ToUpper drawn) r1 Hwords)
    as (grid & pls & r2 & out & Hrun & Hcells & Hsub & Hwarn & Hcount & Hver).
  exists grid, pls, drawn, rest, out.
  split_and!; try assumption.
  - unfold main. rewrite Hchoose.
    rewrite (surjective_pairing (filterWordsByLength vocabulary0 gridSize)).
    rewrite filterWordsByLength_fst. fold (fits_grid vocabulary0).
    assert (Hfew : (slice_len (fits_grid vocabulary0) <? 10) = false)
      by (apply Z.ltb_ge; exact Hten).
    rewrite Hfew, Hsel, Hrun. cbn [negb]. rewrite Hver.
    assert (Hh : calculateHeaderHeight (slice_len (map ToUpper drawn)) = 100).
    { unfold slice_len. rewrite length_map, Hlen. reflexivity. }
    rewrite Hh.
    assert (H500 : GoInt.add (GoInt.mul gridSize cellSize) 100 = 500)
      by reflexivity.
    assert (H400 : imgWidth = 400) by reflexivity.
    rewrite H500, H400. f_equal. cbn [app].
    rewrite <- !app_assoc. reflexivity.
  - now rewrite length_map, Hlen in Hcount.
Qed.

Lemma default_words_upper :
  Forall (fun v => upper_word (ToUpper v) /\ len (ToUpper v) <= gridSize)
         (fits_grid firstGradeVocab).
Proof.
  assert (Hb : forallb (fun v => upper_wordb (ToUpper v)
                                 && (len (ToUpper v) <=? gridSize))
                 (fits_grid firstGradeVocab) = true)
    by (vm_compute; reflexivity).
  rewrite forallb_forall in Hb. apply Forall_forall. intros v Hv.
  apply list_elem_of_In in Hv. specialize (Hb v Hv).
  apply andb_true_iff in Hb as [Hu Hl].
  split; [now apply upper_wordb_spec | now apply Z.leb_le].
Qed.

Lemma default_words_distinct : NoDup (map ToUpper (fits_grid firstGradeVocab)).
Proof. apply nodupb_spec. vm_compute. reflexivity. Qed.

Lemma default_filter :
  (filterWordsByLength firstGradeVocab gridSize).2
  = [EvRemovedHeader 2 gridSize; EvRemovedWord "illustrator" 11;
     EvRemovedWord "transportation" 14].
Proof. vm_compute. reflexivity. Qed.

Lemma default_counts :
  slice_len firstGradeVocab = 100 /\
  slice_len (fits_grid firstGradeVocab) = 98.
Proof. split; vm_compute; reflexivity. Qed.

End DefaultRun.

(** X14. Started without the [-vocab] flag, with both file operations
    succeeding, [main] ends normally for every random source and never
    panics.  It prints that 2 of the 100 built-in words are too long and
    98 remain, then the warnings, then the size 400 by 500 of the image,
    the grid, the placements and the verifier's lines, which report
    every placement as found.  The image shows ten different words of
    letters A-Z, each the upper-casing of a built-in word and no longer
    than the grid side, above a header of height 100; the placed words
    are among the ten, in order, each of the ten is placed or warned
    about, and every cell of the grid is a letter A-Z. *)
Theorem default_run_succeeds `{GoStrings} (fs : string -> file_result)
    (r : rng) :
  exists grid pls words warnings,
    main EmptyString fs true true r
    = mkRun ([EvGenerating; EvDefaultVocab 100; EvRemovedHeader 2 gridSize;
              EvRemovedWord "illustrator" 11;
              EvRemovedWord "transportation" 14; EvAfterFiltering 98]
             ++ warnings
             ++ [EvCreated 400 500; EvGrid grid; EvPlacements pls;
                 EvVerifyHeader]
             ++ map found pls)
            (Some (grid, pls)) (Some (mkImage 400 500 words grid 100)) ExitOk /\
    length words = 10%nat /\
    NoDup words /\
    Forall (fun w => upper_word w /\ len w <= gridSize /\
                     exists v, v ∈ firstGradeVocab /\ w = ToUpper v) words /\
    sublist (map Word pls) words /\
    sublist warnings (map warning words) /\
    (length pls + length warnings = 10)%nat /\
    (forall row col v, grid_get grid row col = Some v -> 65 <= v <= 90).
Proof.
  destruct default_counts as [Hn100 Hn98].
  destruct (main_letters_run EmptyString fs r
              [EvDefaultVocab (slice_len firstGradeVocab)] firstGradeVocab)
    as (grid & pls & drawn & rest & out & Hmain & Hperm & Hlen & Hsub & Hwarn
        & Hcount & Hcells).
  { reflexivity. }
  { rewrite Hn100. apply Z.leb_le. reflexivity. }
  { rewrite Hn98. lia. }
  { exact default_words_upper. }
  rewrite default_filter, Hn100, Hn98 in Hmain.
  exists grid, pls, (map ToUpper drawn), out.
  split_and!.
  - exact Hmain.
  - now rewrite length_map.
  - assert (Hnd : NoDup (map ToUpper (drawn ++ rest))).
    { apply (proj2 (NoDup_Permutation_proper _ _
                      (Permutation_map ToUpper Hperm))).
      exact default_words_distinct. }
    rewrite map_app in Hnd. now apply NoDup_app in Hnd as [Hnd _].
  - apply Forall_forall. intros w Hw.
    apply list_elem_of_fmap in Hw as (v & -> & Hv).
    assert (Hin : v ∈ fits_grid firstGradeVocab).
    { apply (elem_of_Permutation_proper _ _ _ Hperm), elem_of_app. now left. }
    pose proof default_words_upper as Hall. rewrite Forall_forall in Hall.
    destruct (Hall v Hin) as [Hup Hshort]. split_and!; try assumption.
    exists v. split; [|reflexivity].
    now apply fits_grid_elem in Hin as [Hv' _].
  - exact Hsub.
  - exact Hwarn.
  - exact Hcount.
  - exact Hcells.
Qed.

(** ** The first candidate that fits *)

Lemma attemptBody_candidate word g pl r k :
  (k < 100)%nat ->
  attemptBody word (afterRejected g pl r k) =
  match canPlaceWord g word (candidate r k).1.1 (candidate r k).1.2
                     (candidate r k).2 with
  | None => None
  | Some true =>
    match placeWord g word (candidate r k).1.1 (candidate r k).1.2
                    (candidate r k).2 with
    | None => None
    | Some g' =>
      Some (mkAttempt g'
              (pl ++ [mkPlacement word (candidate r k).1.1
                        (candidate r k).1.2 (candidate r k).2])
              true (Z.of_nat (S k)) (mkRng (draws r) (pos r + 3 * S k)))
    end
  | Some false => Some (afterRejected g pl r (S k))
  end.
Proof.
  intros Hk. unfold attemptBody, afterRejected, candidate, Intn.
  cbn [a_rand a_grid a_placements a_placed a_attempts draws pos fst snd].
  change (gridSize <=? 0) with false. change (8 <=? 0) with false.
  cbn [draws pos].
  assert (Hadd : GoInt.add (Z.of_nat k) 1 = Z.of_nat (S k)).
  { rewrite add1_exact by (unfold maxAttempts; lia). lia. }
  assert (Hpos : S (S (S (pos r + 3 * k))) = (pos r + 3 * S k)%nat) by lia.
  rewrite Hadd, Hpos. reflexivity.
Qed.

Lemma attemptLoop_rejected word g pl r k : forall j,
  (j + k <= 100)%nat ->
  (forall i, (j <= i < j + k)%nat ->
     canPlaceWord g word (candidate r i).1.1 (candidate r i).1.2
                  (candidate r i).2 = Some false) ->
  attemptLoop word (afterRejected g pl r j)
  = attemptLoop word (afterRejected g pl r (j + k)).
Proof.
  induction k as [|k IH]; intros j Hle Hrej.
  - now rewrite Nat.add_0_r.
  - rewrite attemptLoop_eq.
    assert (Hcond : attemptCond (afterRejected g pl r j) = true).
    { unfold attemptCond, afterRejected, maxAttempts. cbn.
      apply Z.ltb_lt. lia. }
    rewrite Hcond, attemptBody_candidate by lia.
    rewrite (Hrej j) by lia.
    rewrite (IH (S j)) by (try lia; intros i Hi; apply Hrej; lia).
    f_equal. f_equal. lia.
Qed.

(** X15. The attempt loop takes the first candidate that the check
    accepts.  Candidate [k] is the row, column and direction made from
    draws 3k, 3k + 1 and 3k + 2 after the start of the loop.  If the
    candidates before [k] are rejected and candidate [k], with [k] <
    100, is accepted, the loop ends after [k] + 1 attempts and 3([k] + 1)
    draws, with the word written and recorded at candidate [k]; if all
    100 candidates are rejected it ends after 300 draws with the grid and
    the placements as they were. *)
Theorem first_fit (word : string) (g : list (list Z))
    (pl : list WordPlacement) (r : rng) (k : nat) :
  (k <= 100)%nat ->
  (forall i, (i < k)%nat ->
     canPlaceWord g word (candidate r i).1.1 (candidate r i).1.2
                  (candidate r i).2 = Some false) ->
  ((k < 100)%nat ->
   forall g',
     canPlaceWord g word (candidate r k).1.1 (candidate r k).1.2
                  (candidate r k).2 = Some true ->
     placeWord g word (candidate r k).1.1 (candidate r k).1.2
               (candidate r k).2 = Some g' ->
     attemptLoop word (mkAttempt g pl false 0 r)
     = Some (mkAttempt g'
               (pl ++ [mkPlacement word (candidate r k).1.1
                         (candidate r k).1.2 (candidate r k).2])
               true (Z.of_nat k + 1) (mkRng (draws r) (pos r + 3 * (k + 1))))) /\
  (k = 100%nat ->
   attemptLoop word (mkAttempt g pl false 0 r)
   = Some (mkAttempt g pl false maxAttempts (mkRng (draws r) (pos r + 300)))).
Proof.
  intros Hk Hrej.
  assert (Hstart : mkAttempt g pl false 0 r = afterRejected g pl r 0).
  { unfold afterRejected. destruct r as [d p]. cbn. do 2 f_equal. lia. }
  rewrite Hstart.
  rewrite (attemptLoop_rejected word g pl r k 0) by
    (try lia; intros i Hi; apply Hrej; lia).
  cbn [Nat.add]. split.
  - intros Hlt g' Hcan Hplace. rewrite attemptLoop_eq.
    assert (Hcond : attemptCond (afterRejected g pl r k) = true).
    { unfold attemptCond, afterRejected, maxAttempts. cbn.
      apply Z.ltb_lt. lia. }
    rewrite Hcond, attemptBody_candidate by lia. rewrite Hcan, Hplace.
    rewrite attemptLoop_eq. cbn [attemptCond a_placed negb andb].
    replace (Z.of_nat k + 1) with (Z.of_nat (S k)) by lia.
    replace (k + 1)%nat with (S k) by lia. reflexivity.
  - intros ->. rewrite attemptLoop_eq. reflexivity.
Qed.

Lemma first_fit_witness :
  attemptLoop "CAT" (mkAttempt zeroGrid [] false 0 (scripted [0; 9; 0; 2; 1; 0]))
  = Some (mkAttempt grid_with_CAT [mkPlacement "CAT" 2 1 RIGHT] true 2
            (mkRng (draws (scripted [0; 9; 0; 2; 1; 0])) 6)).
Proof.
  assert (Hle : (1 <= 100)%nat) by lia.
  assert (Hrej : forall i, (i < 1)%nat ->
            canPlaceWord zeroGrid "CAT"
              (candidate (scripted [0; 9; 0; 2; 1; 0]) i).1.1
              (candidate (scripted [0; 9; 0; 2; 1; 0]) i).1.2
              (candidate (scripted [0; 9; 0; 2; 1; 0]) i).2 = Some false).
  { intros i Hi. assert (i = 0%nat) as -> by lia. reflexivity. }
  apply (proj1 (first_fit "CAT"%string zeroGrid []
                  (scripted [0; 9; 0; 2; 1; 0]) 1 Hle Hrej)).
  - lia.
  - reflexivity.
  - reflexivity.
Defined.

(** ** The program on a vocabulary file of letters *)

Lemma letters_wordb_spec (w : string) :
  letters_wordb w = true -> letters_word w.
Proof.
  unfold letters_wordb, letters_word. intros Hb.
  rewrite forallb_forall in Hb. apply Forall_forall. intros b Hin.
  apply list_elem_of_In in Hin. specialize (Hb b Hin).
  apply orb_true_iff in Hb as [Hb | Hb];
    apply andb_true_iff in Hb as [H1 H2]; apply Z.leb_le in H1, H2; lia.
Qed.

Lemma bytes_of_string_of_bytes (bs : list Z) :
  Forall (fun b => 0 <= b < 256) bs -> bytes_of (string_of_bytes bs) = bs.
Proof.
  unfold bytes_of, string_of_bytes.
  induction 1 as [|b bs Hb Hbs IH]; [reflexivity|].
  cbn [map string_of_list_ascii list_ascii_of_string]. rewrite IH. f_equal.
  unfold byte_of_ascii. rewrite nat_ascii_embedding by lia. lia.
Qed.

Lemma ToUpper_letters `{GoStrings} (w : string) :
  letters_word w -> upper_word (ToUpper w) /\ len (ToUpper w) = len w.
Proof.
  unfold letters_word. intros Hw. unfold ToUpper.
  assert (Hascii : forallb (fun c => c <? 128) (bytes_of w) = true).
  { apply forallb_forall. intros b Hb. apply list_elem_of_In in Hb.
    rewrite Forall_forall in Hw. specialize (Hw b Hb). simpl in Hw.
    apply Z.ltb_lt. lia. }
  rewrite Hascii. split.
  - unfold upper_word. rewrite bytes_of_string_of_bytes.
    + apply Forall_fmap. eapply Forall_impl; [exact Hw|].
      intros b Hb. simpl in *. unfold upper_byte.
      destruct ((97 <=? b) && (b <=? 122)) eqn:E.
      * apply andb_true_iff in E as [E1 E2]. apply Z.leb_le in E1, E2. lia.
      * apply andb_false_iff in E as [E | E]; apply Z.leb_gt in E; lia.
    + apply Forall_fmap. eapply Forall_impl; [exact Hw|].
      intros b Hb. simpl in *. unfold upper_byte.
      destruct ((97 <=? b) && (b <=? 122)); lia.
  - rewrite len_string_of_bytes, length_map. apply length_bytes_of.
Qed.

Lemma forallb_letters (ws : list string) :
  forallb letters_wordb ws = true -> Forall letters_word ws.
Proof.
  intros Hb. rewrite forallb_forall in Hb. apply Forall_forall.
  intros w Hw. apply letters_wordb_spec, Hb. now apply list_elem_of_In.
Qed.

(** X16. Let the [-vocab] flag name a file that is read without error
    and has at least ten non-blank lines which, trimmed, fit the grid,
    all of them made of letters A-Z or a-z (longer lines may hold
    anything: they are filtered out).  With both file operations
    succeeding, [main] ends normally for every random source: it prints
    the loading lines, what the filter reports, the warnings, the image
    size 400 by 500, the grid, the placements and the verifier's lines,
    all of them found.  The image shows ten upper-case words drawn
    without replacement from the fitting lines, and every cell of the
    grid is a letter A-Z. *)
Theorem letters_file_run `{GoStrings} (vocabFile : string)
    (fs : string -> file_result) (r : rng) (lines : list string) :
  vocabFile <> EmptyString ->
  fs vocabFile = Scanned lines false ->
  slice_len lines <= GoInt.max_int ->
  10 <= slice_len (fits_grid (nonblank_trimmed lines)) ->
  Forall letters_word (fits_grid (nonblank_trimmed lines)) ->
  exists grid pls drawn rest warnings,
    main vocabFile fs true true r
    = mkRun (EvGenerating
               :: [EvLoadingVocab vocabFile;
                   EvLoadedVocab (slice_len (nonblank_trimmed lines))]
                  ++ (filterWordsByLength (nonblank_trimmed lines) gridSize).2
                  ++ [EvAfterFiltering
                        (slice_len (fits_grid (nonblank_trimmed lines)))]
                  ++ warnings
                  ++ [EvCreated 400 500; EvGrid grid; EvPlacements pls;
                      EvVerifyHeader]
                  ++ map found pls)
            (Some (grid, pls))
            (Some (mkImage 400 500 (map ToUpper drawn) grid 100)) ExitOk /\
    drawn ++ rest ≡ₚ fits_grid (nonblank_trimmed lines) /\
    length drawn = 10%nat /\
    Forall upper_word (map ToUpper drawn) /\
    sublist (map Word pls) (map ToUpper drawn) /\
    sublist warnings (map warning (map ToUpper drawn)) /\
    (length pls + length warnings = 10)%nat /\
    (forall row col v, grid_get grid row col = Some v -> 65 <= v <= 90).
Proof.
  intros Hflag Hfs Hmax Hten Hletters.
  assert (Hupper : Forall (fun v => upper_word (ToUpper v)
                                    /\ len (ToUpper v) <= gridSize)
                          (fits_grid (nonblank_trimmed lines))).
  { apply Forall_forall. intros v Hv. rewrite Forall_forall in Hletters.
    destruct (ToUpper_letters v (Hletters v Hv)) as [Hup Hlen].
    split; [exact Hup|]. rewrite Hlen. now apply fits_grid_elem in Hv. }
  assert (Hfew : (slice_len (nonblank_trimmed lines) <? 10) = false).
  { apply Z.ltb_ge.
    pose proof (filter_length_le (fun w => len w <=? gridSize)
                  (nonblank_trimmed lines)).
    unfold slice_len, fits_grid in *. lia. }
  assert (Hchoose : chooseVocabulary vocabFile fs
                    = ([EvLoadingVocab vocabFile;
                        EvLoadedVocab (slice_len (nonblank_trimmed lines))],
                       Ok (nonblank_trimmed lines))).
  { unfold chooseVocabulary.
    destruct (String.eqb_spec vocabFile EmptyString) as [He | _];
      [contradiction|].
    cbn [negb]. now rewrite loadCustomVocab_eq, Hfs, Hfew. }
  assert (Hmaxv : slice_len (nonblank_trimmed lines) <= GoInt.max_int).
  { unfold nonblank_trimmed, slice_len in *.
    pose proof (filter_length_le
                  (fun w => negb (String.eqb w EmptyString))
                  (map TrimSpace lines)) as Hle.
    rewrite length_map in Hle. lia. }
  destruct (main_letters_run vocabFile fs r _ _ Hchoose Hmaxv Hten Hupper)
    as (grid & pls & drawn & rest & out & Hmain & Hperm & Hlen & Hsub & Hwarn
        & Hcount & Hcells).
  exists grid, pls, drawn, rest, out. split_and!.
  - exact Hmain.
  - exact Hperm.
  - exact Hlen.
  - apply Forall_forall. intros w Hw.
    apply list_elem_of_fmap in Hw as (v & -> & Hv).
    rewrite Forall_forall in Hupper. apply Hupper.
    apply (elem_of_Permutation_proper _ _ _ Hperm), elem_of_app. now left.
  - exact Hsub.
  - exact Hwarn.
  - exact Hcount.
  - exact Hcells.
Qed.

Lemma letters_file_run_witness :
  exists grid pls words,
    r_exit (@main ascii_strings "words.txt" example_fs true true (scripted []))
    = ExitOk /\
    r_generated (@main ascii_strings "words.txt" example_fs true true
                   (scripted []))
    = Some (grid, pls) /\
    r_image (@main ascii_strings "words.txt" example_fs true true (scripted []))
    = Some (mkImage 400 500 words grid 100) /\
    Forall upper_word words.
Proof.
  destruct (@letters_file_run ascii_strings "words.txt"%string example_fs
              (scripted [])
              ["  apple "; " "; "pear"; "plum"; EmptyString; "fig"; "kiwi";
               "lime"; "date"; "nut"; "yam"; "pea"; "watermelonseed"]%string)
    as (grid & pls & drawn & rest & out & Hmain & _ & _ & Hup & _).
  - discriminate.
  - reflexivity.
  - apply Z.leb_le. reflexivity.
  - apply Z.leb_le. vm_compute. reflexivity.
  - apply forallb_letters. vm_compute. reflexivity.
  - exists grid, pls, (map (@ToUpper ascii_strings) drawn).
    rewrite Hmain. cbn [r_exit r_generated r_image].
    split_and!; [reflexivity | reflexivity | reflexivity | exact Hup].
Defined.
